(** * Dynamic memory allocator: implicit and explicit free lists

    A shallow embedding of [mm-implicit.c] and [mm-explicit.c].  The heap is
    raw memory: a flat array of bytes addressed by 64-bit pointers.  Every
    header, footer and free-list link is read from and written to that
    memory exactly where the C code puts it, and all [size_t] arithmetic
    wraps modulo [2^64]. *)

From Stdlib Require Import ZArith List Bool Lia.
Import ListNotations.
Open Scope Z_scope.

(** ** Machine words *)

Module Word.

(** [size_t] and pointers are 64 bits wide ([ALIGNMENT] is [2 * sizeof(size_t)]
    and the implicit list hard-codes it as [16]). *)
Definition W : Z := 18446744073709551616.

Definition wrap (x : Z) : Z := x mod W.
Definition wadd (x y : Z) : Z := wrap (x + y).
Definition wsub (x y : Z) : Z := wrap (x - y).
Definition wmul (x y : Z) : Z := wrap (x * y).

(** [~1] at type [size_t]. *)
Definition not1 : Z := wrap (Z.lnot 1).

Definition NULL : Z := 0.

(** [(void * ) -1], the failure value of the growth primitive. *)
Definition MINUS1 : Z := wrap (-1).

Definition sizeof_size_t : Z := 8.
Definition ALIGNMENT : Z := wmul 2 sizeof_size_t.

(** [round_up]: [(size + (n - 1)) / n * n] in [size_t] arithmetic. *)
Definition round_up (size n : Z) : Z := wmul (wadd size (wsub n 1) / n) n.

(** A header or footer word: a size with the allocation flag in bit 0. *)
Definition tag (sz : Z) (al : bool) : Z := sz + Z.b2z al.

End Word.
Export Word.

(** ** Outcomes and the state-and-fault monad *)

(** A C call either returns, or touches memory outside the arena
    ([Fault]: the process dies), or is still looping when the fuel of the
    model runs out ([OutOfFuel]). *)
Inductive result (A : Type) : Type :=
| Ok (x : A)
| Fault
| OutOfFuel.
Arguments Ok {A} x.
Arguments Fault {A}.
Arguments OutOfFuel {A}.

Definition M (S A : Type) : Type := S -> result (A * S).

Definition ret {S A} (x : A) : M S A := fun s => Ok (x, s).

Definition bind {S A B} (c : M S A) (k : A -> M S B) : M S B :=
  fun s => match c s with
           | Ok (x, s') => k x s'
           | Fault => Fault
           | OutOfFuel => OutOfFuel
           end.

Definition fault {S A} : M S A := fun _ => Fault.
Definition out_of_fuel {S A} : M S A := fun _ => OutOfFuel.
Definition gets {S A} (f : S -> A) : M S A := fun s => Ok (f s, s).
Definition modify {S} (f : S -> S) : M S unit := fun s => Ok (tt, f s).

Declare Scope monad_scope.
Delimit Scope monad_scope with monad.
Notation "x <- c ;; k" := (bind c (fun x => k))
  (at level 61, c at next level, right associativity) : monad_scope.
Notation "c ;; k" := (bind c (fun _ => k))
  (at level 61, right associativity) : monad_scope.
Open Scope monad_scope.

(** ** Raw memory *)

Module Memory.

(** Little-endian encoding of a word as bytes. *)
Fixpoint encode (n : nat) (v : Z) : list Z :=
  match n with
  | O => []
  | S k => v mod 256 :: encode k (v / 256)
  end.

Fixpoint decode (l : list Z) : Z :=
  match l with
  | [] => 0
  | b :: r => b mod 256 + 256 * decode r
  end.

Definition load_bytes (m : Z -> Z) (p : Z) (n : nat) : list Z :=
  map (fun i => m (p + Z.of_nat i)) (seq 0 n).

Definition store_bytes (m : Z -> Z) (p : Z) (l : list Z) : Z -> Z :=
  fun x =>
    if (p <=? x) && (x <? p + Z.of_nat (length l))
    then nth (Z.to_nat (x - p)) l 0
    else m x.

(** Reading and writing one [size_t]. *)
Definition rd (m : Z -> Z) (p : Z) : Z := decode (load_bytes m p 8).
Definition wr (m : Z -> Z) (p v : Z) : Z -> Z := store_bytes m p (encode 8 v).

(** Modelled from the spec: the arena of the growth primitive ([memlib]),
    "a monotonic bump allocator over a flat byte region".  The region is
    the addresses [mem_lo .. mem_max); [mem_brk] is the high-water mark. *)
Record arena : Type := mkArena {
  mem : Z -> Z;
  mem_lo : Z;
  mem_brk : Z;
  mem_max : Z
}.

Definition set_mem (a : arena) (m : Z -> Z) : arena :=
  mkArena m (mem_lo a) (mem_brk a) (mem_max a).

(** Modelled from the spec: [mem_sbrk] ("request N more bytes at the
    current high-water mark; returns a pointer to new space or a failure
    sentinel"), extending the mark by exactly [incr]. *)
Definition mem_sbrk (incr : Z) : M arena Z :=
  fun a =>
    if mem_brk a + incr <=? mem_max a
    then Ok (mem_brk a, mkArena (mem a) (mem_lo a) (mem_brk a + incr) (mem_max a))
    else Ok (MINUS1, a).

(** An access of [n] bytes at [p] stays inside the region. *)
Definition in_arena (a : arena) (p n : Z) : bool :=
  (mem_lo a <=? p) && (p + n <=? mem_max a).

Definition load64 (p : Z) : M arena Z :=
  fun a => if in_arena a p 8 then Ok (rd (mem a) p, a) else Fault.

Definition store64 (p v : Z) : M arena unit :=
  fun a => if in_arena a p 8 then Ok (tt, set_mem a (wr (mem a) p v)) else Fault.

(** [memcpy(dst, src, n)] and [memset(dst, c, n)]; both return [dst]. *)
Definition memcpy (dst src n : Z) : M arena Z :=
  fun a =>
    if n =? 0 then Ok (dst, a)
    else if in_arena a src n && in_arena a dst n
    then Ok (dst, set_mem a (store_bytes (mem a) dst
                               (load_bytes (mem a) src (Z.to_nat n))))
    else Fault.

Definition memset (dst c n : Z) : M arena Z :=
  fun a =>
    if n =? 0 then Ok (dst, a)
    else if in_arena a dst n
    then Ok (dst, set_mem a (store_bytes (mem a) dst (repeat (c mod 256) (Z.to_nat n))))
    else Fault.

End Memory.
Export Memory.

(** ** The implicit free list ([mm-implicit.c]) *)

Module Implicit.

Record state : Type := mkState {
  ar : arena;
  mm_heap_first : Z;
  mm_heap_last : Z
}.

(** Run an arena action on the allocator state. *)
Definition lift {A} (c : M arena A) : M state A :=
  fun s => match c (ar s) with
           | Ok (x, a) => Ok (x, mkState a (mm_heap_first s) (mm_heap_last s))
           | Fault => Fault
           | OutOfFuel => OutOfFuel
           end.

Definition set_first (p : Z) : M state unit :=
  modify (fun s => mkState (ar s) p (mm_heap_last s)).
Definition set_last (p : Z) : M state unit :=
  modify (fun s => mkState (ar s) (mm_heap_first s) p).

(** [sizeof(block_t)] and [offsetof(block_t, payload)]: one header word. *)
Definition sizeof_block_t : Z := sizeof_size_t.

Definition set_header (block size : Z) (is_allocated : bool) : M state unit :=
  lift (store64 block (Z.lor size (Z.b2z is_allocated))).

Definition get_size (block : Z) : M state Z :=
  h <- lift (load64 block) ;; ret (Z.land h not1).

Definition is_allocated (block : Z) : M state bool :=
  h <- lift (load64 block) ;; ret (negb (Z.land h 1 =? 0)).

(** The body of the [for] loop of [find_fit], from [curr] on. *)
Fixpoint find_fit_from (fuel : nat) (size curr : Z) : M state Z :=
  match fuel with
  | O => out_of_fuel
  | S fuel' =>
    last <- gets mm_heap_last ;;
    if negb (last =? NULL) && (curr <=? last) then
      block_size <- get_size curr ;;
      al <- is_allocated curr ;;
      if negb al && (size <=? block_size) then
        set_header curr size true ;;
        (if 16 <=? wsub block_size size then
           set_header (wadd curr size) (wsub block_size size) false ;;
           last' <- gets mm_heap_last ;;
           if curr =? last' then set_last (wadd curr size) else ret tt
         else ret tt) ;;
        ret curr
      else
        step <- get_size curr ;;
        find_fit_from fuel' size (wadd curr step)
    else ret NULL
  end.

Definition find_fit (fuel : nat) (size : Z) : M state Z :=
  first <- gets mm_heap_first ;;
  find_fit_from fuel size first.

Definition block_from_payload (ptr : Z) : Z := wsub ptr sizeof_block_t.
Definition payload (block : Z) : Z := wadd block sizeof_block_t.

Definition mm_init : M state bool :=
  padding <- lift (mem_sbrk (wsub ALIGNMENT sizeof_block_t)) ;;
  if padding =? MINUS1 then ret false
  else
    set_first NULL ;;
    set_last NULL ;;
    ret true.

(** The inner [while] of [coalesce]: extends [total_block_size] over the
    free blocks from [next_block] on. *)
Fixpoint coalesce_run (fuel : nat) (total next_block : Z) : M state Z :=
  match fuel with
  | O => out_of_fuel
  | S fuel' =>
    last <- gets mm_heap_last ;;
    if next_block <=? last then
      al <- is_allocated next_block ;;
      if negb al then
        sz <- get_size next_block ;;
        let total := wadd total sz in
        step <- get_size next_block ;;
        let next_block := wadd next_block step in
        if next_block =? last then
          al' <- is_allocated next_block ;;
          if negb al' then
            sz' <- get_size next_block ;;
            ret (wadd total sz')
          else ret total
        else coalesce_run fuel' total next_block
      else ret total
    else ret total
  end.

(** The outer [while] of [coalesce], from [curr] on. *)
Fixpoint coalesce_from (inner fuel : nat) (curr : Z) : M state unit :=
  match fuel with
  | O => out_of_fuel
  | S fuel' =>
    last <- gets mm_heap_last ;;
    if negb (last =? NULL) && (curr <? last) then
      al <- is_allocated curr ;;
      (if negb al then
         total <- get_size curr ;;
         total' <- coalesce_run inner total (wadd curr total) ;;
         set_header curr total' false
       else ret tt) ;;
      step <- get_size curr ;;
      coalesce_from inner fuel' (wadd curr step)
    else ret tt
  end.

Definition coalesce (fuel : nat) : M state unit :=
  first <- gets mm_heap_first ;;
  coalesce_from fuel fuel first.

Definition mm_malloc (fuel : nat) (size : Z) : M state Z :=
  coalesce fuel ;;
  let size := round_up (wadd sizeof_block_t size) ALIGNMENT in
  block <- find_fit fuel size ;;
  if negb (block =? NULL) then ret (payload block)
  else
    block <- lift (mem_sbrk size) ;;
    if block =? MINUS1 then ret NULL
    else
      first <- gets mm_heap_first ;;
      (if first =? NULL then set_first block else ret tt) ;;
      set_last block ;;
      set_header block size true ;;
      ret (payload block).

Definition mm_free (ptr : Z) : M state unit :=
  if ptr =? NULL then ret tt
  else
    let block := block_from_payload ptr in
    sz <- get_size block ;;
    set_header block sz false.

Definition mm_realloc (fuel : nat) (old_ptr size : Z) : M state Z :=
  if old_ptr =? NULL then mm_malloc fuel size
  else if size =? 0 then mm_free old_ptr ;; ret NULL
  else
    new_ptr <- mm_malloc fuel size ;;
    old_size <- get_size (block_from_payload old_ptr) ;;
    let smaller_size := if size <? old_size then size else old_size in
    lift (memcpy new_ptr old_ptr smaller_size) ;;
    mm_free old_ptr ;;
    ret new_ptr.

Definition mm_calloc (fuel : nat) (nmemb size : Z) : M state Z :=
  ptr <- mm_malloc fuel (wmul nmemb size) ;;
  lift (memset ptr 0 (wmul nmemb size)).

End Implicit.

(** ** The explicit free list ([mm-explicit.c]) *)

Module Explicit.

(** The two globals [first] and [last]: the sentinels of the free list. *)
Record state : Type := mkState {
  ar : arena;
  first : Z;
  last : Z
}.

Definition lift {A} (c : M arena A) : M state A :=
  fun s => match c (ar s) with
           | Ok (x, a) => Ok (x, mkState a (first s) (last s))
           | Fault => Fault
           | OutOfFuel => OutOfFuel
           end.

Definition set_first (p : Z) : M state unit :=
  modify (fun s => mkState (ar s) p (last s)).
Definition set_last (p : Z) : M state unit :=
  modify (fun s => mkState (ar s) (first s) p).

(** Field offsets of [block_t] and [linked_node_t]. *)
Definition off_footer : Z := 0.
Definition off_header : Z := sizeof_size_t.
Definition off_payload : Z := wmul 2 sizeof_size_t.
Definition off_prev : Z := 0.
Definition off_next : Z := sizeof_size_t.

Definition set_header_footer (block payload_size : Z) (is_allocated : bool)
  : M state unit :=
  lift (store64 (wadd block off_header) (Z.lor payload_size (Z.b2z is_allocated))) ;;
  let footer := wadd (wadd block ALIGNMENT) payload_size in
  lift (store64 footer (Z.lor payload_size (Z.b2z is_allocated))).

Definition get_size (block : Z) : M state Z :=
  h <- lift (load64 (wadd block off_header)) ;; ret (Z.land h not1).

Definition get_previous_size (block : Z) : M state Z :=
  f <- lift (load64 (wadd block off_footer)) ;; ret (Z.land f not1).

Definition is_previous_allocated (block : Z) : M state bool :=
  f <- lift (load64 (wadd block off_footer)) ;; ret (negb (Z.land f 1 =? 0)).

Definition is_next_allocated (block : Z) : M state bool :=
  sz <- get_size block ;;
  let header := wadd (wadd (wadd block ALIGNMENT) sz) sizeof_size_t in
  h <- lift (load64 header) ;;
  if negb (Z.land h not1 =? 0) then
    h' <- lift (load64 header) ;; ret (negb (Z.land h' 1 =? 0))
  else ret true.

Definition get_next_block (block : Z) : M state Z :=
  sz <- get_size block ;; ret (wadd (wadd block ALIGNMENT) sz).

Definition get_previous_block (block : Z) : M state Z :=
  psz <- get_previous_size block ;; ret (wsub (wsub block psz) ALIGNMENT).

Definition block_from_payload (ptr : Z) : Z := wsub ptr ALIGNMENT.
Definition get_block_from_linked_node (ptr : Z) : Z := wsub ptr ALIGNMENT.
Definition get_linked_node_from_block (block : Z) : Z := wadd block ALIGNMENT.
Definition payload (block : Z) : Z := wadd block off_payload.

Definition delete_linked_node_from_block (block : Z) : M state unit :=
  let unlink := get_linked_node_from_block block in
  p <- lift (load64 (wadd unlink off_prev)) ;;
  n <- lift (load64 (wadd unlink off_next)) ;;
  lift (store64 (wadd p off_next) n) ;;
  n' <- lift (load64 (wadd unlink off_next)) ;;
  p' <- lift (load64 (wadd unlink off_prev)) ;;
  lift (store64 (wadd n' off_prev) p').

Definition add_linked_node_to_block (block : Z) : M state unit :=
  let link := get_linked_node_from_block block in
  l <- gets last ;;
  lp <- lift (load64 (wadd l off_prev)) ;;
  lift (store64 (wadd link off_prev) lp) ;;
  l <- gets last ;;
  lift (store64 (wadd link off_next) l) ;;
  l <- gets last ;;
  lift (store64 (wadd l off_prev) link) ;;
  p <- lift (load64 (wadd link off_prev)) ;;
  lift (store64 (wadd p off_next) link).

Definition block_split (block block_size size : Z) : M state unit :=
  set_header_footer block size true ;;
  next_block <- get_next_block block ;;
  set_header_footer next_block (wsub (wsub block_size size) ALIGNMENT) false ;;
  delete_linked_node_from_block block ;;
  add_linked_node_to_block next_block.

Definition coalesce (block size : Z) : M state unit :=
  pa <- is_previous_allocated block ;;
  if negb pa then
    psz <- get_previous_size block ;;
    let size := wadd size (wadd psz ALIGNMENT) in
    pb <- get_previous_block block ;;
    set_header_footer pb size false ;;
    delete_linked_node_from_block block ;;
    na <- is_next_allocated block ;;
    if negb na then
      next_block <- get_next_block block ;;
      nsz <- get_size next_block ;;
      let size := wadd size (wadd nsz ALIGNMENT) in
      pb' <- get_previous_block block ;;
      set_header_footer pb' size false ;;
      delete_linked_node_from_block next_block
    else ret tt
  else
    na <- is_next_allocated block ;;
    if negb na then
      next_block <- get_next_block block ;;
      nsz <- get_size next_block ;;
      let size := wadd size (wadd nsz ALIGNMENT) in
      set_header_footer block size false ;;
      delete_linked_node_from_block next_block
    else ret tt.

Definition mm_init : M state bool :=
  f <- lift (mem_sbrk ALIGNMENT) ;;
  set_first f ;;
  l <- lift (mem_sbrk ALIGNMENT) ;;
  set_last l ;;
  if (f =? MINUS1) || (l =? MINUS1) then ret false
  else
    lift (store64 (wadd f off_prev) NULL) ;;
    lift (store64 (wadd f off_next) l) ;;
    lift (store64 (wadd l off_prev) f) ;;
    lift (store64 (wadd l off_next) NULL) ;;
    prologue <- lift (mem_sbrk sizeof_size_t) ;;
    epilogue <- lift (mem_sbrk sizeof_size_t) ;;
    if (prologue =? MINUS1) || (epilogue =? MINUS1) then ret false
    else
      lift (store64 prologue (Z.lor 0 (Z.b2z true))) ;;
      lift (store64 epilogue (Z.lor 0 (Z.b2z true))) ;;
      ret true.

(** The [for] loop of [find_fit], from [free_node] on. *)
Fixpoint find_fit_from (fuel : nat) (size free_node : Z) : M state Z :=
  match fuel with
  | O => out_of_fuel
  | S fuel' =>
    f <- gets first ;;
    if negb (free_node =? f) then
      let free_block := get_block_from_linked_node free_node in
      block_size <- get_size free_block ;;
      if size <=? block_size then
        sz <- get_size free_block ;;
        set_header_footer free_block sz true ;;
        if block_size <? wadd size (wmul 2 ALIGNMENT) then
          delete_linked_node_from_block free_block ;;
          ret free_block
        else
          block_split free_block block_size size ;;
          ret free_block
      else
        prev <- lift (load64 (wadd free_node off_prev)) ;;
        find_fit_from fuel' size prev
    else ret NULL
  end.

Definition find_fit (fuel : nat) (size : Z) : M state Z :=
  l <- gets last ;;
  start <- lift (load64 (wadd l off_prev)) ;;
  find_fit_from fuel size start.

Definition mm_malloc (fuel : nat) (size : Z) : M state Z :=
  let size := round_up size ALIGNMENT in
  block <- find_fit fuel size ;;
  if negb (block =? NULL) then ret (payload block)
  else
    grown <- lift (mem_sbrk size) ;;
    let block_address := wsub grown ALIGNMENT in
    new_footer <- lift (mem_sbrk sizeof_size_t) ;;
    if new_footer =? MINUS1 then ret NULL
    else
      let block := block_address in
      if block =? MINUS1 then ret NULL
      else
        epilogue <- lift (mem_sbrk sizeof_size_t) ;;
        lift (store64 epilogue (Z.lor 0 (Z.b2z true))) ;;
        set_header_footer block size true ;;
        ret (payload block).

Definition mm_free (ptr : Z) : M state unit :=
  if ptr =? NULL then ret tt
  else
    let block := block_from_payload ptr in
    sz <- get_size block ;;
    set_header_footer block sz false ;;
    add_linked_node_to_block block ;;
    pa <- is_previous_allocated block ;;
    na <- (if negb pa then ret false else is_next_allocated block) ;;
    if negb pa || negb na then
      sz' <- get_size block ;;
      coalesce block sz'
    else ret tt.

Definition mm_realloc (fuel : nat) (old_ptr size : Z) : M state Z :=
  if old_ptr =? NULL then mm_malloc fuel size
  else if size =? 0 then mm_free old_ptr ;; ret NULL
  else
    new_ptr <- mm_malloc fuel size ;;
    old_size <- get_size (block_from_payload old_ptr) ;;
    new_size <- get_size (block_from_payload new_ptr) ;;
    let smaller_size := if new_size <? old_size then new_size else old_size in
    lift (memcpy new_ptr old_ptr smaller_size) ;;
    mm_free old_ptr ;;
    ret new_ptr.

Definition mm_calloc (fuel : nat) (nmemb size : Z) : M state Z :=
  ptr <- mm_malloc fuel (wmul nmemb size) ;;
  lift (memset ptr 0 (wmul nmemb size)).

End Explicit.

(** ** Observing heaps *)

(** A fresh arena of [cap] bytes at address [lo], nothing handed out yet. *)
Definition fresh_arena (lo cap : Z) : arena := mkArena (fun _ => 0) lo lo (lo + cap).

(** The weakest precondition of a computation; with [strict = false] a
    run that faults or exhausts its fuel satisfies every postcondition. *)
Definition wpx {S A} (strict : bool) (c : M S A) (Q : A -> S -> Prop) (s : S) : Prop :=
  match c s with
  | Ok (x, s') => Q x s'
  | Fault => strict = false
  | OutOfFuel => strict = false
  end.

(** The value a run returns, and the state it leaves behind. *)
Definition value {S A} (r : result (A * S)) : result A :=
  match r with
  | Ok (x, _) => Ok x
  | Fault => Fault
  | OutOfFuel => OutOfFuel
  end.

Definition after {S A} (c : M S A) (s : S) : S :=
  match c s with
  | Ok (_, s') => s'
  | _ => s
  end.

Module ImplicitSpec.
Import Implicit.

(** The blocks between [a] and [e], read off the headers: size and
    allocation flag of each, in address order. *)
Fixpoint heap_blocks (fuel : nat) (m : Z -> Z) (a e : Z) : list (Z * bool) :=
  match fuel with
  | O => []
  | S fuel' =>
    if a <? e then
      let h := rd m a in
      (Z.land h not1, negb (Z.land h 1 =? 0))
        :: heap_blocks fuel' m (a + Z.land h not1) e
    else []
  end.

(** No two neighbours in address order are both free. *)
Fixpoint no_adjacent_free (bl : list (Z * bool)) : bool :=
  match bl with
  | [] => true
  | (_, al) :: r =>
    match r with
    | [] => true
    | (_, al') :: _ => (al || al') && no_adjacent_free r
    end
  end.

Definition fresh (lo cap : Z) : state := mkState (fresh_arena lo cap) NULL NULL.

Fixpoint total (bl : list (Z * bool)) : Z :=
  match bl with
  | [] => 0
  | (sz, _) :: r => sz + total r
  end.

(** Memory from address [a] on holds the headers of the blocks [bl], one
    after the other; a block's size (header included) is the stride to the
    next one. *)
Fixpoint blocks_at (m : Z -> Z) (a : Z) (bl : list (Z * bool)) : Prop :=
  match bl with
  | [] => True
  | (sz, al) :: r =>
    rd m a = tag sz al /\ 16 <= sz /\ sz mod 16 = 0 /\ blocks_at m (a + sz) r
  end.

(** [x] lies in an allocated block (header included) of the blocks [bl]
    laid out from [a]. *)
Fixpoint in_allocated (a : Z) (bl : list (Z * bool)) (x : Z) : Prop :=
  match bl with
  | [] => False
  | (sz, al) :: r => (al = true /\ a <= x < a + sz) \/ in_allocated (a + sz) r x
  end.

(** The heap invariant of the implicit list: the blocks [bl] tile the
    arena from the first block (8 bytes above the aligned bottom) to the
    high-water mark; [mm_heap_last] lies somewhere in the heap. *)
Definition heap_inv (s : state) (bl : list (Z * bool)) : Prop :=
  let a := ar s in
  0 < mem_lo a /\ mem_lo a mod 16 = 0 /\ mem_max a < W /\
  mem_brk a <= mem_max a /\
  mem_brk a = mem_lo a + 8 + total bl /\
  blocks_at (mem a) (mem_lo a + 8) bl /\
  (bl = [] -> mm_heap_first s = NULL /\ mm_heap_last s = NULL) /\
  (bl <> [] -> mm_heap_first s = mem_lo a + 8 /\
               mem_lo a + 8 <= mm_heap_last s < mem_brk a).

(** What one call of the allocator may do to a heap with blocks [bl]:
    the bounds of the arena stay, allocated blocks stay allocated and
    keep every byte. *)
Definition preserves (m : Z -> Z) (lo : Z) (bl : list (Z * bool))
  (m' : Z -> Z) (bl' : list (Z * bool)) : Prop :=
  (forall x, in_allocated (lo + 8) bl x -> in_allocated (lo + 8) bl' x) /\
  (forall x, in_allocated (lo + 8) bl x -> m' x = m x).

(** The outcome of a successful search for [size] bytes in the blocks
    [bl]: the block found was free and is now allocated with exactly
    [size] bytes, the rest of it split off as a free block. *)
Definition fit_result (m : Z -> Z) (lo brk max f : Z) (bl : list (Z * bool))
  (size r : Z) (s' : state) : Prop :=
  exists pre sz post,
    bl = pre ++ (sz, false) :: post /\ r = lo + 8 + total pre /\ size <= sz /\
    (16 <= size ->
     exists m' l',
       s' = mkState (mkArena m' lo brk max) f l' /\
       heap_inv s' (pre ++ (size, true) ::
                      (if sz =? size then [] else [(sz - size, false)]) ++ post) /\
       preserves m lo bl m'
         (pre ++ (size, true) ::
            (if sz =? size then [] else [(sz - size, false)]) ++ post)).

(** The block size [mm_malloc] computes for a request of [n] bytes. *)
Definition block_size_for (n : Z) : Z := round_up (wadd sizeof_block_t n) ALIGNMENT.

(** The outcome of a successful [mm_malloc]: the heap invariant holds
    again, allocated blocks were left alone, and the block of the new
    payload [p] is allocated now and was not before. *)
Definition malloc_result (m : Z -> Z) (lo max : Z) (bl : list (Z * bool))
  (rsz p : Z) (s' : state) : Prop :=
  exists m' brk' f' l' bl',
    s' = mkState (mkArena m' lo brk' max) f' l' /\
    heap_inv s' bl' /\ preserves m lo bl m' bl' /\
    (forall x, p - 8 <= x < p - 8 + rsz ->
               in_allocated (lo + 8) bl' x /\ ~ in_allocated (lo + 8) bl x).

(** A small heap for examples: two blocks of 16 bytes, the first one
    released again. *)
Definition demo : state :=
  after (mm_init ;;
         a <- mm_malloc 8 8 ;;
         _ <- mm_malloc 8 8 ;;
         mm_free a) (fresh 65536 4096).

Definition demo_blocks : list (Z * bool) := [(16, false); (16, true)].

End ImplicitSpec.

Module ExplicitSpec.
Import Explicit.

Definition fresh (lo cap : Z) : state := mkState (fresh_arena lo cap) NULL NULL.

(** A block is described by its payload size and allocation flag; in
    memory it takes a header, the payload and a footer. *)
Fixpoint span (bl : list (Z * bool)) : Z :=
  match bl with
  | [] => 0
  | (sz, _) :: r => 16 + sz + span r
  end.

(** Memory from the [block_t] address [a] on holds the blocks [bl]: the
    word at a block's address is the footer of the block before it ([pt]
    for the first), the next word its own header; after the last block
    come its footer and the header [nh] of whatever follows.  A free
    block has room for a free-list node. *)
Fixpoint blocks (m : Z -> Z) (a pt : Z) (bl : list (Z * bool)) (nh : Z) : Prop :=
  match bl with
  | [] => rd m a = pt /\ rd m (a + 8) = nh
  | (sz, al) :: r =>
    rd m a = pt /\ rd m (a + 8) = tag sz al /\
    0 <= sz /\ sz mod 16 = 0 /\ (al = false -> 16 <= sz) /\
    blocks m (a + 16 + sz) (tag sz al) r nh
  end.

(** The [block_t] addresses of the blocks [bl] laid out from [a], and the
    address just after the last one. *)
Fixpoint bounds (a : Z) (bl : list (Z * bool)) : list Z :=
  match bl with
  | [] => [a]
  | (sz, _) :: r => a :: bounds (a + 16 + sz) r
  end.

(** The free-list nodes of the free blocks, in address order. *)
Fixpoint free_nodes (a : Z) (bl : list (Z * bool)) : list Z :=
  match bl with
  | [] => []
  | (sz, al) :: r =>
    if al then free_nodes (a + 16 + sz) r
    else (a + 16) :: free_nodes (a + 16 + sz) r
  end.

(** The header of the first block of [bl] ([nh] if there is none), and
    the footer of the last one ([pt] if there is none). *)
Definition hd_tag (bl : list (Z * bool)) (nh : Z) : Z :=
  match bl with
  | [] => nh
  | (sz, al) :: _ => tag sz al
  end.

Fixpoint last_tag (pt : Z) (bl : list (Z * bool)) : Z :=
  match bl with
  | [] => pt
  | (sz, al) :: r => last_tag (tag sz al) r
  end.

(** The payload bytes of the allocated blocks. *)
Fixpoint in_payload (a : Z) (bl : list (Z * bool)) (x : Z) : Prop :=
  match bl with
  | [] => False
  | (sz, al) :: r =>
    (al = true /\ a + 16 <= x < a + 16 + sz) \/ in_payload (a + 16 + sz) r x
  end.

(** The doubly linked list from the sentinel [prev] through the nodes
    [fl] to the sentinel [lst]: every [next] and [prev] link in place. *)
Fixpoint dll (m : Z -> Z) (prev : Z) (fl : list Z) (lst : Z) : Prop :=
  match fl with
  | [] => rd m (prev + 8) = lst /\ rd m lst = prev
  | n :: r => rd m (prev + 8) = n /\ rd m n = prev /\ dll m n r lst
  end.

(** The last of the nodes [l], or [d] if there is none. *)
Fixpoint last_of (d : Z) (l : list Z) : Z :=
  match l with
  | [] => d
  | x :: r => last_of x r
  end.

(** No two neighbours in address order are both free. *)
Fixpoint no_adjacent_free (bl : list (Z * bool)) : bool :=
  match bl with
  | [] => true
  | (_, al) :: r =>
    match r with
    | [] => true
    | (_, al') :: _ => (al || al') && no_adjacent_free r
    end
  end.

Definition starts_alloc (bl : list (Z * bool)) : bool :=
  match bl with
  | [] => true
  | (_, al) :: _ => al
  end.

Fixpoint ends_alloc (bl : list (Z * bool)) : bool :=
  match bl with
  | [] => true
  | (_, al) :: r =>
    match r with
    | [] => al
    | _ :: _ => ends_alloc r
    end
  end.

(** A free-list node lies inside a payload, clear of every header and
    footer. *)
Definition node_ok (lo : Z) (bl : list (Z * bool)) (n : Z) : Prop :=
  n mod 16 = 0 /\ lo + 48 <= n /\ n + 16 <= lo + 32 + span bl /\
  forall x, In x (bounds (lo + 32) bl) -> x + 16 <= n \/ n + 16 <= x.

(** The byte [x] belongs to no header, footer or list node. *)
Definition clear (lo : Z) (bl : list (Z * bool)) (fl : list Z) (x : Z) : Prop :=
  lo + 32 <= x /\
  (forall c, In c (bounds (lo + 32) bl) -> x < c \/ c + 16 <= x) /\
  (forall n, In n fl -> x < n \/ n + 16 <= x).

(** Blocks and list are both in place in memory [m]. *)
Definition cfg (m : Z -> Z) (lo : Z) (bl : list (Z * bool)) (fl : list Z) : Prop :=
  0 < lo /\ lo mod 16 = 0 /\ lo + 32 + span bl + 16 < W /\
  blocks m (lo + 32) 1 bl 1 /\
  dll m lo fl (lo + 16) /\
  NoDup fl /\
  forall n, In n fl -> node_ok lo bl n.

(** What [mm_free] makes of the blocks [pre ++ (sz, true) :: post] and
    the list [fl]: the freed block is merged with every free neighbour;
    a merged block keeps the list entry of its first part, or gets a new
    entry in front of the tail sentinel when the freed block comes first. *)
Definition free_result (lo : Z) (pre : list (Z * bool)) (sz : Z)
  (post : list (Z * bool)) (fl : list Z)
  (bl' : list (Z * bool)) (fl' : list Z) : Prop :=
  let p := lo + 32 + span pre + 16 in
  let q := p + sz + 16 in
  (ends_alloc pre = true /\ starts_alloc post = true /\
   bl' = pre ++ (sz, false) :: post /\ fl' = fl ++ [p]) \/
  (ends_alloc pre = true /\
   exists nsz post' l1 l2,
     post = (nsz, false) :: post' /\ fl = l1 ++ q :: l2 /\
     bl' = pre ++ (sz + nsz + 16, false) :: post' /\ fl' = l1 ++ l2 ++ [p]) \/
  (exists pre' psz,
     pre = pre' ++ [(psz, false)] /\ starts_alloc post = true /\
     bl' = pre' ++ (psz + sz + 16, false) :: post /\ fl' = fl) \/
  (exists pre' psz nsz post' l1 l2,
     pre = pre' ++ [(psz, false)] /\ post = (nsz, false) :: post' /\
     fl = l1 ++ q :: l2 /\
     bl' = pre' ++ (psz + sz + nsz + 32, false) :: post' /\ fl' = l1 ++ l2).

(** The size of the block whose list node is [n], as [find_fit] reads
    it from the header in front of the node. *)
Definition node_size (m : Z -> Z) (n : Z) : Z := Z.land (rd m (n - 8)) not1.

(** What [find_fit] makes of the free block of [bsz] bytes it picks for a
    request of [size] bytes, between the blocks [pre] and [post] and the
    list entries [l1] and [l2]: the block is taken whole, or split into
    an allocated block and a free rest that is linked in front of the
    tail sentinel. *)
Definition take_result (lo : Z) (pre : list (Z * bool)) (bsz : Z)
  (post : list (Z * bool)) (l1 l2 : list Z) (size : Z)
  (bl' : list (Z * bool)) (fl' : list Z) : Prop :=
  (bsz < size + 32 /\ bl' = pre ++ (bsz, true) :: post /\ fl' = l1 ++ l2) \/
  (size + 32 <= bsz /\
   bl' = pre ++ (size, true) :: (bsz - size - 16, false) :: post /\
   fl' = l1 ++ l2 ++ [lo + 32 + span pre + 16 + size + 16]).

(** The heap invariant of the explicit list.  The sentinels, the prologue
    and the blocks [bl] fill the arena up to the epilogue; the list [fl]
    links exactly the free blocks; no two free blocks are neighbours.
    After a growth that failed half-way the mark may lie above the
    epilogue, and then there is no room left to grow. *)
Definition heap_inv (s : state) (bl : list (Z * bool)) (fl : list Z) : Prop :=
  let a := ar s in
  first s = mem_lo a /\ last s = mem_lo a + 16 /\
  cfg (mem a) (mem_lo a) bl fl /\
  (forall n, In n fl <-> In n (free_nodes (mem_lo a + 32) bl)) /\
  no_adjacent_free bl = true /\
  mem_brk a <= mem_max a /\ mem_max a < W /\
  (mem_brk a = mem_lo a + 32 + span bl + 16 \/
   (mem_lo a + 32 + span bl + 16 <= mem_brk a /\ mem_max a < mem_brk a + 8)).

(** What [find_fit] returns for a request of [size] bytes, the list
    [fl] running from the head sentinel to the tail sentinel: [NULL] and
    an untouched heap when no block on the list is large enough;
    otherwise the block of the node [n] nearest to the tail sentinel
    that is large enough, taken off the list. *)
Definition find_fit_result (m : Z -> Z) (lo brk max : Z)
  (bl : list (Z * bool)) (fl : list Z) (size : Z) (r : Z) (s' : state) : Prop :=
  (r = NULL /\ s' = mkState (mkArena m lo brk max) lo (lo + 16) /\
   forall x, In x fl -> node_size m x < size) \/
  (exists k1 n k2 pre bsz post,
     fl = k1 ++ n :: k2 /\ r = n - 16 /\ n mod 16 = 0 /\ 16 <= r /\
     size <= node_size m n /\ (forall x, In x k2 -> node_size m x < size) /\
     bl = pre ++ (bsz, false) :: post /\ n = lo + 32 + span pre + 16 /\
     node_size m n = bsz /\
     (16 <= size -> exists m' bl' fl',
        s' = mkState (mkArena m' lo brk max) lo (lo + 16) /\ heap_inv s' bl' fl' /\
        take_result lo pre bsz post k1 k2 size bl' fl' /\
        forall x, clear lo bl fl x -> x < n \/ n + bsz <= x -> m' x = m x)).

(** What a successful [mm_malloc] of [size] bytes (rounded) makes of the
    heap: the block is placed in a free block of the list, or appended
    to the heap where the epilogue was.  The bytes outside the block
    taken, and outside every header, footer and list node, stay as they
    are; so does everything below the old epilogue when the heap grows. *)
Definition alloc_result (m : Z -> Z) (lo : Z) (bl : list (Z * bool)) (fl : list Z)
  (size p : Z) (m' : Z -> Z) (bl' : list (Z * bool)) (fl' : list Z) : Prop :=
  (exists k1 k2 pre bsz post,
     fl = k1 ++ p :: k2 /\ bl = pre ++ (bsz, false) :: post /\
     p = lo + 32 + span pre + 16 /\ size <= bsz /\
     (forall x, In x k2 -> node_size m x < size) /\
     take_result lo pre bsz post k1 k2 size bl' fl' /\
     forall x, clear lo bl fl x -> x < p \/ p + bsz <= x -> m' x = m x) \/
  (p = lo + 32 + span bl + 16 /\ bl' = bl ++ [(size, true)] /\ fl' = fl /\
   (forall x, In x fl -> node_size m x < size) /\
   forall x, x < lo + 32 + span bl + 8 -> m' x = m x).

(** A small heap for examples: four blocks of 16 bytes, the first and
    the third released again, in this order. *)
Definition demo : state :=
  after (mm_init ;;
         a <- mm_malloc 8 16 ;;
         _ <- mm_malloc 8 16 ;;
         c <- mm_malloc 8 16 ;;
         _ <- mm_malloc 8 16 ;;
         mm_free a ;;
         mm_free c) (fresh 65536 4096).

Definition demo_blocks : list (Z * bool) :=
  [(16, false); (16, true); (16, false); (16, true)].

Definition demo_list : list Z := [65584; 65648].

End ExplicitSpec.

(** * Proofs *)

(** ** Word arithmetic *)

Lemma W_eq : W = 2 ^ 64.
Proof. reflexivity. Qed.

Lemma wrap_small x : 0 <= x < W -> wrap x = x.
Proof. intros H. unfold wrap. apply Z.mod_small. exact H. Qed.

Lemma wrap_range x : 0 <= wrap x < W.
Proof. unfold wrap. apply Z.mod_pos_bound. reflexivity. Qed.

Lemma wadd_small x y : 0 <= x + y < W -> wadd x y = x + y.
Proof. apply wrap_small. Qed.

Lemma wsub_small x y : 0 <= x - y < W -> wsub x y = x - y.
Proof. apply wrap_small. Qed.

Lemma ALIGNMENT_eq : ALIGNMENT = 16.
Proof. reflexivity. Qed.

Lemma not1_eq : not1 = W - 2.
Proof. reflexivity. Qed.

Lemma MINUS1_eq : MINUS1 = W - 1.
Proof. reflexivity. Qed.

Lemma land_1 h : Z.land h 1 = h mod 2.
Proof. change 1 with (Z.ones 1). rewrite Z.land_ones by lia. reflexivity. Qed.

Lemma land_not1 h : 0 <= h < W -> Z.land h not1 = h - h mod 2.
Proof.
  intros H.
  assert (E : Z.land h not1 = Z.ldiff h 1).
  { apply Z.bits_inj'. intros n Hn.
    rewrite Z.land_spec, Z.ldiff_spec.
    destruct (Z.eq_dec n 0) as [->|Hz].
    - reflexivity.
    - destruct (Z_lt_ge_dec n 64) as [Hlt|Hge].
      + replace (Z.testbit not1 n) with true.
        * replace (Z.testbit 1 n) with false; [reflexivity|].
          symmetry. apply Z.bits_above_log2; simpl; lia.
        * symmetry. unfold not1, wrap. rewrite W_eq.
          rewrite Z.mod_pow2_bits_low by lia.
          rewrite Z.lnot_spec by lia.
          replace (Z.testbit 1 n) with false; [reflexivity|].
          symmetry. apply Z.bits_above_log2; simpl; lia.
      + replace (Z.testbit h n) with false; [reflexivity|].
        symmetry. destruct (Z.eq_dec h 0) as [->|Hh0].
        * apply Z.bits_0.
        * apply Z.bits_above_log2; [lia|].
          apply Z.log2_lt_pow2; [lia|]. rewrite W_eq in H.
          eapply Z.lt_le_trans; [apply H|]. apply Z.pow_le_mono_r; lia. }
  rewrite E. change 1 with (Z.ones 1). rewrite Z.ldiff_ones_r by lia.
  rewrite Z.shiftl_mul_pow2, Z.shiftr_div_pow2 by lia.
  change (2 ^ 1) with 2. pose proof (Z.div_mod h 2). lia.
Qed.

Lemma lor_b2z sz b : sz mod 2 = 0 -> Z.lor sz (Z.b2z b) = sz + Z.b2z b.
Proof.
  intros H.
  assert (E : Z.land sz (Z.b2z b) = 0).
  { destruct b; simpl; [rewrite land_1; exact H | apply Z.land_0_r]. }
  rewrite (Z.add_nocarry_lxor _ _ E). symmetry. apply Z.lxor_lor. exact E.
Qed.

(** A header or footer word: the size with the allocation bit. *)
Lemma tag_size sz b :
  0 <= sz -> sz + 1 < W -> sz mod 2 = 0 ->
  Z.land (sz + Z.b2z b) not1 = sz.
Proof.
  intros H0 H1 H2. rewrite land_not1 by (destruct b; simpl; lia).
  destruct b; simpl.
  - replace ((sz + 1) mod 2) with 1; [lia|].
    rewrite Z.add_mod, H2 by lia. reflexivity.
  - rewrite Z.add_0_r, H2. lia.
Qed.

Lemma tag_alloc sz b :
  sz mod 2 = 0 -> negb (Z.land (sz + Z.b2z b) 1 =? 0) = b.
Proof.
  intros H2. rewrite land_1. rewrite Z.add_mod, H2 by lia.
  destruct b; reflexivity.
Qed.

Lemma mod16_even x : x mod 16 = 0 -> x mod 2 = 0.
Proof.
  intros H. pose proof (Z.div_mod x 16).
  replace x with (2 * (8 * (x / 16))) by lia.
  rewrite Z.mul_comm. apply Z.mod_mul. lia.
Qed.

(** [round_up] to the alignment, when the addition does not wrap. *)
Lemma round_up_16 n :
  0 <= n -> n + 15 < W ->
  round_up n ALIGNMENT = (n + 15) / 16 * 16.
Proof.
  intros H0 H1. unfold round_up. rewrite ALIGNMENT_eq.
  change (wsub 16 1) with 15. rewrite wadd_small by lia.
  unfold wmul. apply wrap_small.
  pose proof (Z.div_mod (n + 15) 16). pose proof (Z.mod_pos_bound (n + 15) 16).
  lia.
Qed.

Lemma wrap_mod16 a : wrap a mod 16 = a mod 16.
Proof.
  unfold wrap. pose proof (Z.div_mod a W ltac:(discriminate)) as E.
  replace (a mod W) with (a + (- (a / W) * (W / 16)) * 16)
    by (change (W / 16) with 1152921504606846976; change W with 18446744073709551616 in *; lia).
  apply Z.mod_add. lia.
Qed.

Lemma round_up_mod16 n : round_up n ALIGNMENT mod 16 = 0.
Proof.
  unfold round_up, wmul. rewrite ALIGNMENT_eq, wrap_mod16.
  apply Z.mod_mul. lia.
Qed.

(** ** Bytes and words in memory *)

Lemma decode_range l : 0 <= decode l < 256 ^ Z.of_nat (length l).
Proof.
  induction l as [|b r IH]; cbn [decode].
  - simpl. lia.
  - change (length (b :: r)) with (S (length r)).
    rewrite Nat2Z.inj_succ, Z.pow_succ_r by lia.
    pose proof (Z.mod_pos_bound b 256). lia.
Qed.

Lemma decode_encode n v : decode (encode n v) = v mod 256 ^ Z.of_nat n.
Proof.
  revert v. induction n as [|k IH]; intros v.
  - simpl. symmetry. apply Z.mod_1_r.
  - change (encode (S k) v) with (v mod 256 :: encode k (v / 256)).
    cbn [decode]. rewrite IH. rewrite Nat2Z.inj_succ, Z.pow_succ_r by lia.
    rewrite Z.mod_mod by lia.
    rewrite Z.rem_mul_r; [reflexivity|lia|].
    apply Z.pow_pos_nonneg; lia.
Qed.

Lemma encode_length n v : length (encode n v) = n.
Proof. revert v. induction n; intros; simpl; [reflexivity|]. f_equal. auto. Qed.

Lemma store_bytes_in m p l x :
  p <= x < p + Z.of_nat (length l) ->
  store_bytes m p l x = nth (Z.to_nat (x - p)) l 0.
Proof.
  intros H. unfold store_bytes.
  replace (p <=? x) with true by (symmetry; apply Z.leb_le; lia).
  replace (x <? p + Z.of_nat (length l)) with true by (symmetry; apply Z.ltb_lt; lia).
  reflexivity.
Qed.

Lemma store_bytes_out m p l x :
  x < p \/ p + Z.of_nat (length l) <= x ->
  store_bytes m p l x = m x.
Proof.
  intros H. unfold store_bytes.
  destruct (Z.leb_spec p x); destruct (Z.ltb_spec x (p + Z.of_nat (length l)));
    simpl; try reflexivity; lia.
Qed.

Lemma load_bytes_ext m1 m2 p n :
  (forall x, p <= x < p + Z.of_nat n -> m1 x = m2 x) ->
  load_bytes m1 p n = load_bytes m2 p n.
Proof.
  intros H. unfold load_bytes. apply map_ext_in. intros i Hi.
  apply in_seq in Hi. apply H. lia.
Qed.

Lemma nth_map_seq {A} (f : nat -> A) n i d :
  (i < n)%nat -> nth i (map f (seq 0 n)) d = f i.
Proof.
  intros Hi. rewrite (nth_indep _ d (f 0%nat)) by (rewrite length_map, length_seq; exact Hi).
  rewrite map_nth. rewrite seq_nth by exact Hi. reflexivity.
Qed.

Lemma load_store_bytes_same m p l :
  load_bytes (store_bytes m p l) p (length l) = l.
Proof.
  unfold load_bytes. apply nth_ext with (d := 0) (d' := 0).
  - rewrite length_map, length_seq. reflexivity.
  - intros i Hi. rewrite length_map, length_seq in Hi.
    rewrite nth_map_seq by exact Hi.
    rewrite store_bytes_in by lia. f_equal. lia.
Qed.

Lemma load_store_bytes_other m p l q n :
  q + Z.of_nat n <= p \/ p + Z.of_nat (length l) <= q ->
  load_bytes (store_bytes m p l) q n = load_bytes m q n.
Proof.
  intros H. apply load_bytes_ext. intros x Hx. apply store_bytes_out. lia.
Qed.

Lemma rd_range m p : 0 <= rd m p < W.
Proof.
  unfold rd. pose proof (decode_range (load_bytes m p 8)) as H.
  unfold load_bytes in H. rewrite length_map, length_seq in H. exact H.
Qed.

Lemma rd_wr_same m p v : 0 <= v < W -> rd (wr m p v) p = v.
Proof.
  intros H. unfold rd, wr.
  pose proof (load_store_bytes_same m p (encode 8 v)) as E.
  rewrite encode_length in E. rewrite E, decode_encode.
  apply Z.mod_small. exact H.
Qed.

Lemma rd_wr_other m p v q : q + 8 <= p \/ p + 8 <= q -> rd (wr m p v) q = rd m q.
Proof.
  intros H. unfold rd, wr. f_equal.
  apply load_store_bytes_other. rewrite encode_length. simpl. lia.
Qed.

Lemma rd_ext m1 m2 p :
  (forall x, p <= x < p + 8 -> m1 x = m2 x) -> rd m1 p = rd m2 p.
Proof. intros H. unfold rd. f_equal. apply load_bytes_ext. exact H. Qed.

Lemma rd_store_bytes_other m p l q :
  q + 8 <= p \/ p + Z.of_nat (length l) <= q ->
  rd (store_bytes m p l) q = rd m q.
Proof. intros H. apply rd_ext. intros x Hx. apply store_bytes_out. lia. Qed.

Lemma wr_out m p v x : x < p \/ p + 8 <= x -> wr m p v x = m x.
Proof.
  intros H. unfold wr. apply store_bytes_out. rewrite encode_length. simpl. lia.
Qed.

Lemma app_cons_assoc {A} (l1 : list A) x l2 : l1 ++ x :: l2 = (l1 ++ [x]) ++ l2.
Proof. rewrite <- app_assoc. reflexivity. Qed.

(** ** The program logic *)

Lemma wpx_ret {S A} b (x : A) (Q : A -> S -> Prop) s :
  Q x s -> wpx b (ret x) Q s.
Proof. intros H. exact H. Qed.

Lemma wpx_bind {S A B} b (c : M S A) (k : A -> M S B) (Q : B -> S -> Prop) s :
  wpx b c (fun x s' => wpx b (k x) Q s') s -> wpx b (bind c k) Q s.
Proof.
  unfold wpx, bind. destruct (c s) as [[x s']| |]; intros H; exact H.
Qed.

Lemma wpx_conseq {S A} b (c : M S A) (Q Q' : A -> S -> Prop) s :
  wpx b c Q s -> (forall x s', Q x s' -> Q' x s') -> wpx b c Q' s.
Proof.
  unfold wpx. destruct (c s) as [[x s']| |]; intros H HQ; auto.
Qed.

Lemma wpx_gets {S A} b (f : S -> A) (Q : A -> S -> Prop) s :
  Q (f s) s -> wpx b (gets f) Q s.
Proof. intros H. exact H. Qed.

Lemma wpx_modify {S} b (f : S -> S) (Q : unit -> S -> Prop) s :
  Q tt (f s) -> wpx b (modify f) Q s.
Proof. intros H. exact H. Qed.

Lemma wpx_out_of_fuel {S A} (Q : A -> S -> Prop) s :
  wpx false (@out_of_fuel S A) Q s.
Proof. reflexivity. Qed.

(** Without strictness every run satisfies the trivial postcondition. *)
Lemma wpx_top {S A} (c : M S A) s : wpx false c (fun _ _ => True) s.
Proof. unfold wpx. destruct (c s) as [[x s']| |]; auto. Qed.

Lemma wpx_weaken {S A} b (c : M S A) (Q : A -> S -> Prop) s :
  wpx b c Q s -> wpx false c Q s.
Proof. unfold wpx. destruct (c s) as [[x s']| |]; auto. Qed.

Lemma wpx_total {S A} (c : M S A) (Q : A -> S -> Prop) s :
  wpx true c Q s -> exists x s', c s = Ok (x, s') /\ Q x s'.
Proof.
  unfold wpx. destruct (c s) as [[x s']| |]; intros H; try discriminate.
  exists x, s'. split; [reflexivity|exact H].
Qed.

Lemma wpx_partial {S A} b (c : M S A) (Q : A -> S -> Prop) s x s' :
  wpx b c Q s -> c s = Ok (x, s') -> Q x s'.
Proof. unfold wpx. intros H E. rewrite E in H. exact H. Qed.

Lemma wpx_of_run {S A} b (c : M S A) (Q : A -> S -> Prop) s x s' :
  c s = Ok (x, s') -> Q x s' -> wpx b c Q s.
Proof. unfold wpx. intros E H. rewrite E. exact H. Qed.

(** ** Runs on concrete arenas *)

Module Runs.

(** C1, explicit list: [mm_realloc] does not test the result of its
    [mm_malloc].  In an arena with no room left the allocation returns
    [NULL], and [mm_realloc] then reads the header "of" [NULL]: the call
    faults instead of returning the failure sentinel with the old block
    intact. *)
Theorem exp_realloc_unchecked_failure :
  let c := Explicit.mm_init ;; Explicit.mm_malloc 8 8 in
  let s := after c (ExplicitSpec.fresh 65536 80) in
  value (c (ExplicitSpec.fresh 65536 80)) = Ok 65584 /\
  value (Explicit.mm_malloc 8 64 s) = Ok NULL /\
  Explicit.mm_realloc 8 65584 64 s = Fault.
Proof. repeat split; vm_compute; reflexivity. Qed.

(** The same in the implicit list: [memcpy] is handed the [NULL] result. *)
Lemma imp_realloc_unchecked_failure :
  let c := Implicit.mm_init ;; Implicit.mm_malloc 8 8 in
  let s := after c (ImplicitSpec.fresh 65536 24) in
  value (c (ImplicitSpec.fresh 65536 24)) = Ok 65552 /\
  value (Implicit.mm_malloc 8 64 s) = Ok NULL /\
  Implicit.mm_realloc 8 65552 64 s = Fault.
Proof. repeat split; vm_compute; reflexivity. Qed.

(** C2: [mm_calloc] passes the result of [mm_malloc] to [memset] without
    looking at it.  When the allocation fails, [memset] writes through
    [NULL]; both lists fault instead of returning the failure sentinel. *)
Theorem calloc_unchecked_failure :
  (let s := after (Explicit.mm_init ;; Explicit.mm_malloc 8 8) (ExplicitSpec.fresh 65536 80) in
   value (Explicit.mm_malloc 8 (wmul 10 4) s) = Ok NULL /\
   Explicit.mm_calloc 8 10 4 s = Fault) /\
  (let s := after (Implicit.mm_init ;; Implicit.mm_malloc 8 8) (ImplicitSpec.fresh 65536 24) in
   value (Implicit.mm_malloc 8 (wmul 10 4) s) = Ok NULL /\
   Implicit.mm_calloc 8 10 4 s = Fault).
Proof. repeat split; vm_compute; reflexivity. Qed.

(** C4, implicit list: a request of [2^64 - 8] bytes makes
    [sizeof(block_t) + size] wrap to [0].  [find_fit 0] then hands out the
    first free block and leaves it marked free, so the next request gets
    the same block: two live pointers to one payload. *)
Theorem imp_overflow_overlap :
  value ((Implicit.mm_init ;;
          p <- Implicit.mm_malloc 8 8 ;;
          Implicit.mm_free p ;;
          q <- Implicit.mm_malloc 8 (W - 8) ;;
          r <- Implicit.mm_malloc 8 8 ;;
          ret (p, q, r)) (ImplicitSpec.fresh 65536 4096))
  = Ok (65552, 65552, 65552).
Proof. vm_compute. reflexivity. Qed.

(** C6: [coalesce] stops at [mm_heap_last], which it never updates.  After
    a merge and a split that pointer lies inside a block, the sweep of the
    next allocation ends before the last block, and two free neighbours
    stay unmerged. *)
Theorem imp_coalesce_misses_tail :
  let c := Implicit.mm_init ;;
           p1 <- Implicit.mm_malloc 8 8 ;;
           p2 <- Implicit.mm_malloc 8 24 ;;
           Implicit.mm_free p1 ;;
           Implicit.mm_free p2 ;;
           p3 <- Implicit.mm_malloc 8 24 ;;
           Implicit.mm_free p3 in
  let s := after c (ImplicitSpec.fresh 65536 4096) in
  let s' := after (Implicit.coalesce 8) s in
  value (c (ImplicitSpec.fresh 65536 4096)) = Ok tt /\
  value (Implicit.coalesce 8 s) = Ok tt /\
  ImplicitSpec.heap_blocks 8 (mem (Implicit.ar s')) (Implicit.mm_heap_first s')
    (mem_brk (Implicit.ar s')) = [(32, false); (16, false)] /\
  ImplicitSpec.no_adjacent_free [(32, false); (16, false)] = false.
Proof. repeat split; vm_compute; reflexivity. Qed.

(** C7, explicit list: [mm_malloc] subtracts [ALIGNMENT] from the result of
    [mem_sbrk] before comparing it with [(void * ) -1], so a failed growth
    of the payload is not seen when the two small growths that follow
    succeed; the header is then written near the top of the address
    space and the call faults. *)
Theorem exp_malloc_growth_failure_faults :
  let s := after Explicit.mm_init (ExplicitSpec.fresh 65536 64) in
  value (Explicit.mm_init (ExplicitSpec.fresh 65536 64)) = Ok true /\
  value (mem_sbrk (round_up 32 ALIGNMENT) (Explicit.ar s)) = Ok MINUS1 /\
  Explicit.mm_malloc 8 32 s = Fault.
Proof. repeat split; vm_compute; reflexivity. Qed.

(** C10, explicit list: with a free block of 32 bytes or more on the
    list, [mm_malloc 0] reaches [block_split] with [size = 0]; the footer
    and the next header are written over the links of the block's own
    free-list node before it is unlinked, and the unlinking faults. *)
Theorem exp_malloc_zero_faults :
  let c := Explicit.mm_init ;;
           p <- Explicit.mm_malloc 8 32 ;;
           Explicit.mm_free p in
  let s := after c (ExplicitSpec.fresh 65536 4096) in
  value (c (ExplicitSpec.fresh 65536 4096)) = Ok tt /\
  Explicit.mm_malloc 8 0 s = Fault.
Proof. repeat split; vm_compute; reflexivity. Qed.

(** C8, implicit list: [mm_realloc] takes [get_size] of the old block for
    the old payload size, but in this file the size in the header counts
    the header itself.  Growing a block with an 8-byte payload to 16
    bytes copies 16 bytes: the 8 payload bytes and the header of the
    block behind it, which ends up in the new payload.  When the old
    block is the last one of a full arena the copy reads past the end of
    the arena and the call faults. *)
Theorem imp_realloc_copies_past_payload :
  let c := Implicit.mm_init ;;
           a <- Implicit.mm_malloc 8 24 ;;
           b <- Implicit.mm_malloc 8 8 ;;
           d <- Implicit.mm_malloc 8 8 ;;
           Implicit.mm_free a ;;
           Implicit.lift (store64 b 12297829382473034410) ;;
           ret (a, b, d) in
  let s := after c (ImplicitSpec.fresh 65536 4096) in
  let s' := after (Implicit.mm_realloc 8 65584 16) s in
  let c2 := Implicit.mm_init ;;
            a <- Implicit.mm_malloc 8 24 ;;
            b <- Implicit.mm_malloc 8 8 ;;
            Implicit.mm_free a ;;
            ret (a, b) in
  value (c (ImplicitSpec.fresh 65536 4096)) = Ok (65552, 65584, 65600) /\
  value (Implicit.get_size (Implicit.block_from_payload 65584) s) = Ok 16 /\
  value (Implicit.mm_realloc 8 65584 16 s) = Ok 65552 /\
  rd (mem (Implicit.ar s)) (65584 + 8) = 17 /\
  rd (mem (Implicit.ar s)) (65552 + 8) = 0 /\
  rd (mem (Implicit.ar s')) 65552 = 12297829382473034410 /\
  rd (mem (Implicit.ar s')) (65552 + 8) = 17 /\
  value (c2 (ImplicitSpec.fresh 65536 56)) = Ok (65552, 65584) /\
  Implicit.mm_realloc 8 65584 16 (after c2 (ImplicitSpec.fresh 65536 56)) = Fault.
Proof. repeat split; vm_compute; reflexivity. Qed.

(** The explicit list copies [min] of the old and the new block's
    payload sizes: [mm_realloc] of a 64-byte block to 20 bytes copies 32
    bytes, not [min 64 20 = 20]; the byte at offset 20 of the new
    payload, zero before the call, holds the client's pattern after it. *)
Lemma exp_realloc_copies_more :
  let c := Explicit.mm_init ;;
           p <- Explicit.mm_malloc 8 64 ;;
           Explicit.lift (memset p 170 64) ;;
           ret p in
  let s := after c (ExplicitSpec.fresh 65536 4096) in
  let s' := after (Explicit.mm_realloc 8 65584 20) s in
  value (c (ExplicitSpec.fresh 65536 4096)) = Ok 65584 /\
  value (Explicit.mm_realloc 8 65584 20 s) = Ok 65664 /\
  mem (Explicit.ar s) (65664 + 20) = 0 /\
  mem (Explicit.ar s') (65664 + 20) = 170.
Proof. repeat split; vm_compute; reflexivity. Qed.

End Runs.

(** ** The implicit list: invariant and sweep *)

Module ImplicitProofs.
Import Implicit ImplicitSpec.

Abbreviation St m lo brk max f l := (mkState (mkArena m lo brk max) f l).

Ltac mlia := Z.div_mod_to_equations; lia.

Lemma in_arena_true m lo brk max p n :
  lo <= p -> p + n <= max -> in_arena (mkArena m lo brk max) p n = true.
Proof.
  intros H1 H2. unfold in_arena. cbn [mem_lo mem_max].
  apply andb_true_intro. split; apply Z.leb_le; assumption.
Qed.

Lemma wpx_load b m lo brk max f l p (Q : Z -> state -> Prop) :
  lo <= p -> p + 8 <= max ->
  Q (rd m p) (St m lo brk max f l) ->
  wpx b (lift (load64 p)) Q (St m lo brk max f l).
Proof.
  intros H1 H2 HQ. unfold wpx, lift, load64. cbn [ar].
  rewrite in_arena_true by assumption. exact HQ.
Qed.

Lemma wpx_store b m lo brk max f l p v (Q : unit -> state -> Prop) :
  lo <= p -> p + 8 <= max ->
  Q tt (St (wr m p v) lo brk max f l) ->
  wpx b (lift (store64 p v)) Q (St m lo brk max f l).
Proof.
  intros H1 H2 HQ. unfold wpx, lift, store64. cbn [ar].
  rewrite in_arena_true by assumption. exact HQ.
Qed.

Lemma wpx_get_size b m lo brk max f l p sz al (Q : Z -> state -> Prop) :
  lo <= p -> p + 8 <= max ->
  rd m p = tag sz al -> 0 <= sz -> sz + 1 < W -> sz mod 2 = 0 ->
  Q sz (St m lo brk max f l) ->
  wpx b (get_size p) Q (St m lo brk max f l).
Proof.
  intros H1 H2 Ht H3 H4 H5 HQ. unfold get_size.
  apply wpx_bind. apply wpx_load; [assumption..|].
  apply wpx_ret. rewrite Ht. unfold tag. rewrite tag_size by assumption. exact HQ.
Qed.

Lemma wpx_is_allocated b m lo brk max f l p sz al (Q : bool -> state -> Prop) :
  lo <= p -> p + 8 <= max ->
  rd m p = tag sz al -> sz mod 2 = 0 ->
  Q al (St m lo brk max f l) ->
  wpx b (is_allocated p) Q (St m lo brk max f l).
Proof.
  intros H1 H2 Ht H5 HQ. unfold is_allocated.
  apply wpx_bind. apply wpx_load; [assumption..|].
  apply wpx_ret. rewrite Ht. unfold tag. rewrite tag_alloc by assumption. exact HQ.
Qed.

Lemma wpx_set_header b m lo brk max f l p sz al (Q : unit -> state -> Prop) :
  lo <= p -> p + 8 <= max -> sz mod 2 = 0 ->
  Q tt (St (wr m p (tag sz al)) lo brk max f l) ->
  wpx b (set_header p sz al) Q (St m lo brk max f l).
Proof.
  intros H1 H2 H5 HQ. unfold set_header. rewrite lor_b2z by assumption.
  apply wpx_store; assumption.
Qed.

(** *** Block lists *)

Lemma total_app l1 l2 : total (l1 ++ l2) = total l1 + total l2.
Proof.
  induction l1 as [|[sz al] r IH]; cbn [total app]; [reflexivity|].
  rewrite IH. lia.
Qed.

Lemma blocks_at_app m a l1 l2 :
  blocks_at m a (l1 ++ l2) <->
  blocks_at m a l1 /\ blocks_at m (a + total l1) l2.
Proof.
  revert a. induction l1 as [|[sz al] r IH]; intros a; cbn [blocks_at total app].
  - rewrite Z.add_0_r. tauto.
  - rewrite IH. rewrite Z.add_assoc. tauto.
Qed.

Lemma blocks_at_total m a bl :
  blocks_at m a bl -> 16 * Z.of_nat (length bl) <= total bl.
Proof.
  revert a. induction bl as [|[sz al] r IH]; intros a H; cbn [total length].
  - simpl. lia.
  - destruct H as (_ & H1 & _ & H2). specialize (IH _ H2).
    rewrite Nat2Z.inj_succ. lia.
Qed.

Lemma blocks_at_frame m m' a bl :
  (forall x, a <= x < a + total bl -> m' x = m x) ->
  blocks_at m a bl -> blocks_at m' a bl.
Proof.
  revert a. induction bl as [|[sz al] r IH]; intros a Hm H; cbn [blocks_at].
  - exact I.
  - destruct H as (H0 & H1 & H2 & H3). cbn [total] in Hm.
    pose proof (blocks_at_total _ _ _ H3) as Ht.
    repeat split; try assumption.
    + rewrite <- H0. apply rd_ext. intros x Hx. apply Hm. lia.
    + apply IH; [|assumption]. intros x Hx. apply Hm. lia.
Qed.

Lemma in_allocated_app a l1 l2 x :
  in_allocated a (l1 ++ l2) x <->
  in_allocated a l1 x \/ in_allocated (a + total l1) l2 x.
Proof.
  revert a. induction l1 as [|[sz al] r IH]; intros a; cbn [in_allocated total app].
  - rewrite Z.add_0_r. tauto.
  - rewrite IH. rewrite Z.add_assoc. tauto.
Qed.

Lemma in_allocated_range m a bl x :
  blocks_at m a bl -> in_allocated a bl x -> a <= x < a + total bl.
Proof.
  revert a. induction bl as [|[sz al] r IH]; intros a H Hx; cbn [in_allocated total] in *.
  - contradiction.
  - destruct H as (_ & H1 & _ & H3).
    pose proof (blocks_at_total _ _ _ H3).
    destruct Hx as [[_ Hx]|Hx]; [lia|]. specialize (IH _ H3 Hx). lia.
Qed.

Lemma in_allocated_free_run a run x :
  forallb (fun b => negb (snd b)) run = true -> ~ in_allocated a run x.
Proof.
  revert a. induction run as [|[sz al] r IH]; intros a H Hx; cbn [in_allocated forallb] in *.
  - exact Hx.
  - apply andb_true_iff in H. destruct H as [Hal H]. cbn [snd] in Hal.
    destruct Hx as [[E _]|Hx]; [subst; discriminate|]. exact (IH _ H Hx).
Qed.

(** *** The inner loop of the sweep *)

Lemma strict_fuel_0 {S A} b (Q : A -> S -> Prop) s (n : nat) :
  (b = true -> (n < 0)%nat) -> wpx b (@out_of_fuel S A) Q s.
Proof.
  intros H. destruct b; [exfalso; specialize (H eq_refl); lia|reflexivity].
Qed.

Lemma coalesce_run_spec b m lo brk max f l :
  0 < lo -> brk <= max -> max < W -> l < brk ->
  forall fuel following total0 next,
    blocks_at m next following ->
    next + total following = brk ->
    lo <= next -> 0 <= total0 -> total0 <= next ->
    (b = true -> (length following < fuel)%nat) ->
    wpx b (coalesce_run fuel total0 next)
      (fun t s' => s' = St m lo brk max f l /\
         exists run rest, following = run ++ rest /\ t = total0 + total run /\
           forallb (fun b => negb (snd b)) run = true)
      (St m lo brk max f l).
Proof.
  intros Hlo Hbrk Hmax Hl. induction fuel as [|fuel IH];
    intros following total0 next Hb He Hn Ht0 Ht1 Hf.
  - cbn [coalesce_run]. eapply strict_fuel_0. exact Hf.
  - cbn [coalesce_run]. apply wpx_bind, wpx_gets. cbn [mm_heap_last].
    destruct (Z.leb_spec next l) as [Hle|Hgt].
    2:{ apply wpx_ret. split; [reflexivity|]. exists [], following.
        cbn [app total forallb]. repeat split. lia. }
    destruct following as [|[sz al] r].
    { cbn [total] in He. lia. }
    cbn [blocks_at total length] in *. destruct Hb as (Htag & Hsz & Hmod & Hr).
    pose proof (blocks_at_total _ _ _ Hr) as Htot.
    pose proof (mod16_even _ Hmod) as Hev.
    apply wpx_bind. eapply wpx_is_allocated; [lia|lia|exact Htag|exact Hev|].
    destruct al; cbn [negb].
    { apply wpx_ret. split; [reflexivity|]. exists [], ((sz, true) :: r).
      cbn [app total forallb]. repeat split. lia. }
    apply wpx_bind. eapply wpx_get_size; [lia|lia|exact Htag|lia|lia|exact Hev|].
    apply wpx_bind. eapply wpx_get_size; [lia|lia|exact Htag|lia|lia|exact Hev|].
    cbv zeta. rewrite !wadd_small by lia.
    destruct (Z.eqb_spec (next + sz) l) as [Heq|Hne].
    + destruct r as [|[sz' al'] r'].
      { cbn [total] in He. lia. }
      cbn [blocks_at total] in *. destruct Hr as (Htag' & Hsz' & Hmod' & Hr').
      pose proof (blocks_at_total _ _ _ Hr') as Htot'.
      pose proof (mod16_even _ Hmod') as Hev'.
      apply wpx_bind. eapply wpx_is_allocated; [lia|lia|exact Htag'|exact Hev'|].
      destruct al'; cbn [negb].
      * apply wpx_ret. split; [reflexivity|].
        exists [(sz, false)], ((sz', true) :: r'). cbn [app total forallb snd negb].
        repeat split. lia.
      * apply wpx_bind. eapply wpx_get_size; [lia|lia|exact Htag'|lia|lia|exact Hev'|].
        apply wpx_ret. rewrite wadd_small by lia. split; [reflexivity|].
        exists [(sz, false); (sz', false)], r'. cbn [app total forallb snd negb].
        repeat split. lia.
    + eapply wpx_conseq.
      * apply (IH r (total0 + sz) (next + sz)); try assumption; try lia.
        intros Hbt. specialize (Hf Hbt). lia.
      * cbv beta. intros t s' (Hs & run & rest & Hrun & Ht & Hfree).
        split; [exact Hs|]. exists ((sz, false) :: run), rest.
        cbn [app total forallb snd negb]. rewrite Hrun. repeat split; [lia|exact Hfree].
Qed.

Lemma blocks_at_mod16 m a bl : blocks_at m a bl -> total bl mod 16 = 0.
Proof.
  revert a. induction bl as [|[sz al] r IH]; intros a H; cbn [total].
  - reflexivity.
  - destruct H as (_ & _ & H2 & H3). specialize (IH _ H3). mlia.
Qed.

Lemma heap_inv_intro m lo brk max f l bl :
  0 < lo -> lo mod 16 = 0 -> max < W -> brk <= max ->
  brk = lo + 8 + total bl -> blocks_at m (lo + 8) bl ->
  bl <> [] -> f = lo + 8 -> lo + 8 <= l < brk ->
  heap_inv (St m lo brk max f l) bl.
Proof.
  intros. unfold heap_inv.
  cbn [ar mem mem_lo mem_brk mem_max mm_heap_first mm_heap_last].
  repeat (split; [assumption|]). split.
  - intros E. contradiction.
  - intros _. split; assumption.
Qed.

Lemma heap_inv_nil m lo brk max :
  0 < lo -> lo mod 16 = 0 -> max < W -> brk <= max -> brk = lo + 8 + total [] ->
  heap_inv (St m lo brk max NULL NULL) [].
Proof.
  intros. unfold heap_inv.
  cbn [ar mem mem_lo mem_brk mem_max mm_heap_first mm_heap_last].
  repeat (split; [assumption|]). split; [exact I|]. split.
  - intros _. split; reflexivity.
  - intros E. exfalso. apply E. reflexivity.
Qed.

(** *** The sweep *)

Lemma preserves_refl m lo bl : preserves m lo bl m bl.
Proof. split; auto. Qed.

Lemma preserves_trans m lo bl m1 bl1 m2 bl2 :
  preserves m lo bl m1 bl1 -> preserves m1 lo bl1 m2 bl2 ->
  preserves m lo bl m2 bl2.
Proof.
  intros [A1 A2] [B1 B2]. split.
  - intros x Hx. auto.
  - intros x Hx. rewrite B2 by auto. auto.
Qed.

Lemma coalesce_from_spec b inner lo brk max f l :
  forall fuel done todo m,
    heap_inv (St m lo brk max f l) (done ++ todo) ->
    (b = true -> (length todo < fuel)%nat /\ (length (done ++ todo) < inner)%nat) ->
    wpx b (coalesce_from inner fuel (lo + 8 + total done))
      (fun _ s' => exists m' bl',
         s' = St m' lo brk max f l /\ heap_inv s' bl' /\
         preserves m lo (done ++ todo) m' bl' /\
         (length bl' <= length (done ++ todo))%nat)
      (St m lo brk max f l).
Proof.
  induction fuel as [|fuel IH]; intros done todo m Hinv Hf.
  - cbn [coalesce_from]. apply (strict_fuel_0 b _ _ (length todo)).
    intros Hb. apply Hf. exact Hb.
  - cbn [coalesce_from]. apply wpx_bind, wpx_gets. cbn [mm_heap_last].
    assert (Hdone : wpx b (ret tt)
      (fun _ s' => exists m' bl',
         s' = St m' lo brk max f l /\ heap_inv s' bl' /\
         preserves m lo (done ++ todo) m' bl' /\
         (length bl' <= length (done ++ todo))%nat) (St m lo brk max f l)).
    { apply wpx_ret. exists m, (done ++ todo). split; [reflexivity|].
      split; [exact Hinv|]. split; [apply preserves_refl|apply le_n]. }
    destruct (Z.eqb_spec l NULL) as [Hl0|Hl0]; cbn [negb andb]; [exact Hdone|].
    destruct (Z.ltb_spec (lo + 8 + total done) l) as [Hlt|Hge]; [|exact Hdone].
    clear Hdone.
    destruct Hinv as (Hlo & Hal & Hmax & Hbrk & Hbe & Hbl & Hnil & Hcons).
    cbn [ar mem mem_lo mem_brk mem_max mm_heap_first mm_heap_last] in *.
    assert (Hne : done ++ todo <> []).
    { intros E. destruct (Hnil E) as [_ E']. contradiction. }
    destruct (Hcons Hne) as (Hfirst & Hl1 & Hl2).
    rewrite total_app in Hbe.
    apply blocks_at_app in Hbl. destruct Hbl as [Hbd Hbt].
    destruct todo as [|[sz al] r].
    { cbn [total] in Hbe. lia. }
    cbn [blocks_at total] in Hbt, Hbe. destruct Hbt as (Htag & Hsz & Hmod & Hr).
    pose proof (blocks_at_total _ _ _ Hr) as Htot.
    pose proof (blocks_at_total _ _ _ Hbd) as Htotd.
    pose proof (mod16_even _ Hmod) as Hev.
    set (curr := lo + 8 + total done) in *.
    apply wpx_bind. eapply wpx_is_allocated; [lia|lia|exact Htag|exact Hev|].
    destruct al; cbn [negb].
    + (* an allocated block: step over it *)
      apply wpx_bind, wpx_ret.
      apply wpx_bind. eapply wpx_get_size; [lia|lia|exact Htag|lia|lia|exact Hev|].
      rewrite wadd_small by lia.
      replace (curr + sz) with (lo + 8 + total (done ++ [(sz, true)]))
        by (rewrite total_app; cbn [total]; unfold curr; lia).
      rewrite (app_cons_assoc done (sz, true) r).
      apply IH.
      * rewrite <- app_cons_assoc.
        apply heap_inv_intro; try assumption; try lia.
        -- rewrite total_app. cbn [total]. lia.
        -- apply blocks_at_app. split; [exact Hbd|].
           cbn [blocks_at]. repeat split; assumption.
      * intros Hb. destruct (Hf Hb) as [Hf1 Hf2]. cbn [length] in Hf1.
        rewrite <- app_cons_assoc. split; [lia|exact Hf2].
    + (* a free block: extend it over the free blocks that follow *)
      apply wpx_bind.
      apply wpx_bind. eapply wpx_get_size; [lia|lia|exact Htag|lia|lia|exact Hev|].
      apply wpx_bind. rewrite wadd_small by lia.
      eapply wpx_conseq.
      { apply (coalesce_run_spec b m lo brk max f l Hlo Hbrk Hmax Hl2 inner r sz (curr + sz));
          try assumption; try lia.
        intros Hb. destruct (Hf Hb) as [_ Hf2]. rewrite length_app in Hf2.
        cbn [length] in Hf2. lia. }
      cbv beta. intros t s' (-> & run & rest & -> & -> & Hfree).
      rewrite total_app in *.
      apply blocks_at_app in Hr. destruct Hr as [Hrun Hrest].
      pose proof (blocks_at_total _ _ _ Hrun) as Htrun.
      pose proof (blocks_at_total _ _ _ Hrest) as Htrest.
      pose proof (blocks_at_mod16 _ _ _ Hrun) as Hmrun.
      assert (Hmt : (sz + total run) mod 2 = 0) by mlia.
      eapply wpx_set_header; [lia|lia|exact Hmt|].
      assert (Htag' : rd (wr m curr (tag (sz + total run) false)) curr
                      = tag (sz + total run) false).
      { apply rd_wr_same. unfold tag. cbn [Z.b2z]. lia. }
      apply wpx_bind. eapply wpx_get_size; [lia|lia|exact Htag'|lia|lia|exact Hmt|].
      rewrite wadd_small by lia.
      assert (Hinv' : heap_inv (St (wr m curr (tag (sz + total run) false)) lo brk max f l)
                        (done ++ (sz + total run, false) :: rest)).
      { apply heap_inv_intro; try assumption; try lia.
        - rewrite total_app. cbn [total]. unfold curr in *. lia.
        - apply blocks_at_app. split.
          + eapply blocks_at_frame; [|exact Hbd]. intros x Hx.
            apply wr_out. unfold curr. lia.
          + cbn [blocks_at]. fold curr. repeat split; [exact Htag'|lia|mlia|].
            eapply blocks_at_frame; [|].
            * intros x Hx. apply wr_out. lia.
            * replace (curr + (sz + total run)) with (curr + sz + total run) by lia.
              exact Hrest.
        - intros E. destruct done; discriminate. }
      assert (Hpres : preserves m lo (done ++ (sz, false) :: run ++ rest)
                        (wr m curr (tag (sz + total run) false))
                        (done ++ (sz + total run, false) :: rest)).
      { split.
        - intros x Hx. apply in_allocated_app in Hx. apply in_allocated_app.
          destruct Hx as [Hx|Hx]; [left; exact Hx|right].
          cbn [in_allocated] in *. fold curr in Hx |- *.
          destruct Hx as [[Hx _]|Hx]; [discriminate|]. right.
          apply in_allocated_app in Hx. destruct Hx as [Hx|Hx].
          + exfalso. exact (in_allocated_free_run _ _ _ Hfree Hx).
          + replace (curr + (sz + total run)) with (curr + sz + total run) by lia.
            exact Hx.
        - intros x Hx. apply wr_out. apply in_allocated_app in Hx.
          destruct Hx as [Hx|Hx].
          + apply (in_allocated_range _ _ _ _ Hbd) in Hx. unfold curr. lia.
          + cbn [in_allocated] in Hx. fold curr in Hx.
            destruct Hx as [[Hx _]|Hx]; [discriminate|].
            assert (Hr' : blocks_at m (curr + sz) (run ++ rest))
              by (apply blocks_at_app; split; assumption).
            apply (in_allocated_range _ _ _ _ Hr') in Hx. lia. }
      replace (curr + (sz + total run))
        with (lo + 8 + total (done ++ [(sz + total run, false)]))
        by (rewrite total_app; cbn [total]; unfold curr; lia).
      eapply wpx_conseq.
      { apply (IH (done ++ [(sz + total run, false)]) rest).
        - rewrite <- app_cons_assoc. exact Hinv'.
        - intros Hb. destruct (Hf Hb) as [Hf1 Hf2].
          rewrite <- app_cons_assoc. rewrite !length_app in *.
          cbn [length] in *. rewrite length_app in Hf1, Hf2. lia. }
      cbv beta. intros _ s' (m' & bl' & Hs & Hi & Hp & Hlen).
      exists m', bl'. split; [exact Hs|]. split; [exact Hi|].
      rewrite <- app_cons_assoc in Hp, Hlen. split.
      * eapply preserves_trans; [exact Hpres|]. exact Hp.
      * rewrite !length_app in *. cbn [length] in *. rewrite length_app. lia.
Qed.

Lemma coalesce_spec b fuel m lo brk max f l bl :
  heap_inv (St m lo brk max f l) bl ->
  (b = true -> (length bl < fuel)%nat) ->
  wpx b (coalesce fuel)
    (fun _ s' => exists m' bl',
       s' = St m' lo brk max f l /\ heap_inv s' bl' /\ preserves m lo bl m' bl' /\
       (length bl' <= length bl)%nat)
    (St m lo brk max f l).
Proof.
  intros Hinv Hf. unfold coalesce. apply wpx_bind, wpx_gets. cbn [mm_heap_first].
  destruct bl as [|b0 r].
  - destruct Hinv as (Hlo & Hal & Hmax & Hbrk & Hbe & Hbl & Hnil & Hcons).
    cbn [ar mem mem_lo mem_brk mem_max mm_heap_first mm_heap_last] in *.
    destruct (Hnil eq_refl) as [-> ->].
    assert (Hinv : heap_inv (St m lo brk max NULL NULL) []).
    { apply heap_inv_nil; assumption. }
    destruct fuel as [|fuel].
    + cbn [coalesce_from]. apply (strict_fuel_0 b _ _ 0%nat). exact Hf.
    + cbn [coalesce_from]. apply wpx_bind, wpx_gets. cbn [mm_heap_last].
      change (NULL =? NULL) with true. cbn [negb andb]. apply wpx_ret.
      exists m, []. split; [reflexivity|]. split; [exact Hinv|].
      split; [apply preserves_refl|apply le_n].
  - assert (Hf' : f = lo + 8 + total []).
    { destruct Hinv as (_ & _ & _ & _ & _ & _ & _ & Hcons).
      cbn [ar mem_lo mm_heap_first] in Hcons.
      destruct Hcons as [E _]; [discriminate|]. cbn [total]. lia. }
    rewrite Hf' at 1.
    apply (coalesce_from_spec b fuel lo brk max f l fuel [] (b0 :: r) m Hinv).
    intros Hb. specialize (Hf Hb). cbn [app]. split; exact Hf.
Qed.

(** *** Finding a fit *)

Lemma free_block_not_allocated m a pre sz post x :
  blocks_at m a (pre ++ (sz, false) :: post) ->
  a + total pre <= x < a + total pre + sz ->
  ~ in_allocated a (pre ++ (sz, false) :: post) x.
Proof.
  intros Hb Hx Hin. apply blocks_at_app in Hb. destruct Hb as [Hpre Hpost].
  apply in_allocated_app in Hin. destruct Hin as [Hin|Hin].
  - apply (in_allocated_range _ _ _ _ Hpre) in Hin. lia.
  - cbn [in_allocated blocks_at] in *. destruct Hpost as (_ & _ & _ & Hpost).
    destruct Hin as [[E _]|Hin]; [discriminate|].
    apply (in_allocated_range _ _ _ _ Hpost) in Hin. lia.
Qed.

Lemma find_fit_from_spec b size lo brk max f l :
  size mod 16 = 0 -> 0 <= size < W ->
  forall fuel done todo m,
    heap_inv (St m lo brk max f l) (done ++ todo) ->
    (b = true -> (length todo < fuel)%nat) ->
    wpx b (find_fit_from fuel size (lo + 8 + total done))
      (fun r s' =>
         (r = NULL /\ s' = St m lo brk max f l) \/
         fit_result m lo brk max f (done ++ todo) size r s')
      (St m lo brk max f l).
Proof.
  intros Hsm Hsr. induction fuel as [|fuel IH]; intros done todo m Hinv Hf.
  - cbn [find_fit_from]. apply (strict_fuel_0 b _ _ (length todo)). exact Hf.
  - cbn [find_fit_from]. apply wpx_bind, wpx_gets. cbn [mm_heap_last].
    destruct (Z.eqb_spec l NULL) as [Hl0|Hl0]; cbn [negb andb];
      [apply wpx_ret; left; split; reflexivity|].
    destruct (Z.leb_spec (lo + 8 + total done) l) as [Hle|Hgt];
      [|apply wpx_ret; left; split; reflexivity].
    pose proof Hinv as Hinv0.
    destruct Hinv as (Hlo & Hal & Hmax & Hbrk & Hbe & Hbl & Hnil & Hcons).
    cbn [ar mem mem_lo mem_brk mem_max mm_heap_first mm_heap_last] in *.
    assert (Hne : done ++ todo <> []).
    { intros E. destruct (Hnil E) as [_ E']. contradiction. }
    destruct (Hcons Hne) as (Hfirst & Hl1 & Hl2).
    rewrite total_app in Hbe.
    apply blocks_at_app in Hbl. destruct Hbl as [Hbd Hbt].
    destruct todo as [|[sz al] r].
    { cbn [total] in Hbe. lia. }
    cbn [blocks_at total] in Hbt, Hbe. destruct Hbt as (Htag & Hsz & Hmod & Hr).
    pose proof (blocks_at_total _ _ _ Hr) as Htot.
    pose proof (blocks_at_total _ _ _ Hbd) as Htotd.
    pose proof (mod16_even _ Hmod) as Hev.
    set (curr := lo + 8 + total done) in *.
    apply wpx_bind. eapply wpx_get_size; [lia|lia|exact Htag|lia|lia|exact Hev|].
    apply wpx_bind. eapply wpx_is_allocated; [lia|lia|exact Htag|exact Hev|].
    assert (Hskip : wpx b (step <- get_size curr ;; find_fit_from fuel size (wadd curr step))
      (fun r0 s' =>
         (r0 = NULL /\ s' = St m lo brk max f l) \/
         fit_result m lo brk max f (done ++ (sz, al) :: r) size r0 s')
      (St m lo brk max f l)).
    { apply wpx_bind. eapply wpx_get_size; [lia|lia|exact Htag|lia|lia|exact Hev|].
      rewrite wadd_small by lia.
      replace (curr + sz) with (lo + 8 + total (done ++ [(sz, al)]))
        by (rewrite total_app; cbn [total]; unfold curr; lia).
      rewrite (app_cons_assoc done (sz, al) r). apply IH.
      - rewrite <- app_cons_assoc. exact Hinv0.
      - intros Hb. specialize (Hf Hb). cbn [length] in Hf. lia. }
    destruct al; cbn [negb andb]; [exact Hskip|].
    destruct (Z.leb_spec size sz) as [Hfit|Hnofit]; [clear Hskip|exact Hskip].
    assert (Hsev : size mod 2 = 0) by mlia.
    apply wpx_bind. eapply wpx_set_header; [lia|lia|exact Hsev|].
    rewrite wsub_small by lia. rewrite wadd_small by lia.
    apply wpx_bind.
    destruct (Z.leb_spec 16 (sz - size)) as [Hsplit|Hwhole].
    + (* split: the tail of the block stays free *)
      assert (Hrev : (sz - size) mod 2 = 0) by mlia.
      apply wpx_bind. eapply wpx_set_header; [lia|lia|exact Hrev|].
      apply wpx_bind, wpx_gets. cbn [mm_heap_last].
      set (m2 := wr (wr m curr (tag size true)) (curr + size) (tag (sz - size) false)).
      assert (Hres : forall l', lo + 8 <= l' < brk ->
                fit_result m lo brk max f (done ++ (sz, false) :: r) size curr
                  (St m2 lo brk max f l')).
      { intros l' Hl'. exists done, sz, r. split; [reflexivity|].
        split; [reflexivity|]. split; [exact Hfit|]. intros Hs16.
        exists m2, l'. split; [reflexivity|].
        replace (sz =? size) with false by (symmetry; apply Z.eqb_neq; lia).
        cbn [app]. split.
        - apply heap_inv_intro; try assumption; try lia.
          + rewrite total_app. cbn [total]. lia.
          + apply blocks_at_app. split.
            * eapply blocks_at_frame; [|exact Hbd]. intros x Hx. unfold m2.
              rewrite !wr_out by (unfold curr; lia). reflexivity.
            * cbn [blocks_at]. fold curr. repeat split; try lia; try mlia.
              -- unfold m2. rewrite rd_wr_other by lia. apply rd_wr_same.
                 unfold tag. cbn [Z.b2z]. lia.
              -- unfold m2. apply rd_wr_same. unfold tag. cbn [Z.b2z]. lia.
              -- eapply blocks_at_frame; [|].
                 ++ intros x Hx. unfold m2. rewrite !wr_out by lia. reflexivity.
                 ++ replace (curr + size + (sz - size)) with (curr + sz) by lia.
                    exact Hr.
          + intros E. destruct done; discriminate.
        - split.
          + intros x Hx. apply in_allocated_app in Hx. apply in_allocated_app.
            destruct Hx as [Hx|Hx]; [left; exact Hx|right].
            cbn [in_allocated] in *. fold curr in Hx |- *.
            destruct Hx as [[Hx _]|Hx]; [discriminate|]. right. right.
            replace (curr + size + (sz - size)) with (curr + sz) by lia. exact Hx.
          + intros x Hx. unfold m2. apply in_allocated_app in Hx.
            destruct Hx as [Hx|Hx].
            * apply (in_allocated_range _ _ _ _ Hbd) in Hx.
              rewrite !wr_out by (unfold curr; lia). reflexivity.
            * cbn [in_allocated] in Hx. fold curr in Hx.
              destruct Hx as [[Hx _]|Hx]; [discriminate|].
              apply (in_allocated_range _ _ _ _ Hr) in Hx.
              rewrite !wr_out by lia. reflexivity. }
      destruct (Z.eqb_spec curr l) as [Hcl|Hcl].
      * apply wpx_modify. cbn [ar mm_heap_first]. apply wpx_ret. right.
        apply Hres. lia.
      * apply wpx_ret, wpx_ret. right. apply Hres. lia.
    + (* the block is taken whole *)
      apply wpx_ret, wpx_ret. right.
      assert (Hss : sz = size) by mlia. subst sz.
      exists done, size, r. split; [reflexivity|].
      split; [reflexivity|]. split; [lia|]. intros Hs16.
      exists (wr m curr (tag size true)), l. split; [reflexivity|].
      rewrite Z.eqb_refl. cbn [app]. split.
      * apply heap_inv_intro; try assumption; try lia.
        -- rewrite total_app. cbn [total]. lia.
        -- apply blocks_at_app. split.
           ++ eapply blocks_at_frame; [|exact Hbd]. intros x Hx.
              apply wr_out. unfold curr. lia.
           ++ cbn [blocks_at]. fold curr. repeat split; try lia; try mlia.
              ** apply rd_wr_same. unfold tag. cbn [Z.b2z]. lia.
              ** eapply blocks_at_frame; [|exact Hr].
                 intros x Hx. apply wr_out. lia.
        -- intros E. destruct done; discriminate.
      * split.
        -- intros x Hx. apply in_allocated_app in Hx. apply in_allocated_app.
           destruct Hx as [Hx|Hx]; [left; exact Hx|right].
           cbn [in_allocated] in *. fold curr in Hx |- *.
           destruct Hx as [[Hx _]|Hx]; [discriminate|]. right. exact Hx.
        -- intros x Hx. apply wr_out. apply in_allocated_app in Hx.
           destruct Hx as [Hx|Hx].
           ++ apply (in_allocated_range _ _ _ _ Hbd) in Hx. unfold curr. lia.
           ++ cbn [in_allocated] in Hx. fold curr in Hx.
              destruct Hx as [[Hx _]|Hx]; [discriminate|].
              apply (in_allocated_range _ _ _ _ Hr) in Hx. lia.
Qed.

Lemma find_fit_spec b fuel size m lo brk max f l bl :
  size mod 16 = 0 -> 0 <= size < W ->
  heap_inv (St m lo brk max f l) bl ->
  (b = true -> (length bl < fuel)%nat) ->
  wpx b (find_fit fuel size)
    (fun r s' =>
       (r = NULL /\ s' = St m lo brk max f l) \/
       fit_result m lo brk max f bl size r s')
    (St m lo brk max f l).
Proof.
  intros Hsm Hsr Hinv Hf. unfold find_fit. apply wpx_bind, wpx_gets.
  cbn [mm_heap_first]. destruct bl as [|b0 r].
  - destruct Hinv as (_ & _ & _ & _ & _ & _ & Hnil & _).
    cbn [mm_heap_first mm_heap_last] in Hnil. destruct (Hnil eq_refl) as [-> ->].
    destruct fuel as [|fuel].
    + cbn [find_fit_from]. apply (strict_fuel_0 b _ _ 0%nat). exact Hf.
    + cbn [find_fit_from]. apply wpx_bind, wpx_gets. cbn [mm_heap_last].
      change (NULL =? NULL) with true. cbn [negb andb]. apply wpx_ret.
      left. split; reflexivity.
  - assert (Hf' : f = lo + 8 + total []).
    { destruct Hinv as (_ & _ & _ & _ & _ & _ & _ & Hcons).
      cbn [ar mem_lo mm_heap_first] in Hcons.
      destruct Hcons as [E _]; [discriminate|]. cbn [total]. lia. }
    rewrite Hf' at 1.
    apply (find_fit_from_spec b size lo brk max f l Hsm Hsr fuel [] (b0 :: r) m Hinv Hf).
Qed.

(** *** Allocation, release, start *)

Lemma wpx_store_cases b m lo brk max f l p v (Q : unit -> state -> Prop) :
  (b = true -> lo <= p /\ p + 8 <= max) ->
  (lo <= p -> p + 8 <= max -> Q tt (St (wr m p v) lo brk max f l)) ->
  wpx b (lift (store64 p v)) Q (St m lo brk max f l).
Proof.
  intros Hb HQ. unfold wpx, lift, store64, in_arena. cbn [ar mem_lo mem_max mem].
  destruct (Z.leb_spec lo p) as [H1|H1]; destruct (Z.leb_spec (p + 8) max) as [H2|H2];
    cbn [andb]; try (apply HQ; assumption);
    destruct b; try reflexivity; destruct (Hb eq_refl); lia.
Qed.

Lemma wpx_sbrk b m lo brk max f l incr (Q : Z -> state -> Prop) :
  (brk + incr <= max -> Q brk (St m lo (brk + incr) max f l)) ->
  (max < brk + incr -> Q MINUS1 (St m lo brk max f l)) ->
  wpx b (lift (mem_sbrk incr)) Q (St m lo brk max f l).
Proof.
  intros H1 H2. unfold wpx, lift, mem_sbrk. cbn [ar mem_brk mem_max mem mem_lo].
  destruct (Z.leb_spec (brk + incr) max); [apply H1|apply H2]; assumption.
Qed.

Lemma block_size_for_facts n :
  block_size_for n mod 16 = 0 /\ 0 <= block_size_for n < W.
Proof.
  split; [apply round_up_mod16|]. unfold block_size_for, round_up, wmul.
  apply wrap_range.
Qed.

Lemma imp_malloc_spec b fuel n m lo brk max f l bl :
  heap_inv (St m lo brk max f l) bl ->
  (b = true -> (length bl < fuel)%nat /\ 16 <= block_size_for n) ->
  wpx b (mm_malloc fuel n)
    (fun p s' =>
       (p = NULL \/ p mod 16 = 0) /\
       (16 <= block_size_for n ->
        (p = NULL /\ exists m' bl',
           s' = St m' lo brk max f l /\ heap_inv s' bl' /\ preserves m lo bl m' bl') \/
        (p <> NULL /\ malloc_result m lo max bl (block_size_for n) p s')))
    (St m lo brk max f l).
Proof.
  intros Hinv Hf. unfold mm_malloc.
  apply wpx_bind. eapply wpx_conseq.
  { apply coalesce_spec; [exact Hinv|]. intros Hb. apply Hf. exact Hb. }
  cbv beta. intros _ s0 (m0 & bl0 & -> & Hinv0 & Hp0 & Hlen0). cbv zeta.
  fold (block_size_for n). destruct (block_size_for_facts n) as [Hsm Hsr].
  set (size := block_size_for n) in *.
  apply wpx_bind. eapply wpx_conseq.
  { apply (find_fit_spec b fuel size m0 lo brk max f l bl0 Hsm Hsr Hinv0).
    intros Hb. destruct (Hf Hb) as [Hfl _]. lia. }
  cbv beta. intros r s1 Hr.
  pose proof Hinv0 as (Hlo & Hal & Hmax & Hbrk & Hbe & Hbl & Hnil & Hcons).
  cbn [ar mem mem_lo mem_brk mem_max mm_heap_first mm_heap_last] in *.
  pose proof (blocks_at_mod16 _ _ _ Hbl) as Htm.
  pose proof (blocks_at_total _ _ _ Hbl) as Htt.
  destruct Hr as [[-> ->]|(pre & sz & post & Hbl0 & -> & Hfit & Hres)].
  - (* no fit: grow the heap *)
    change (negb (NULL =? NULL)) with false. cbv iota.
    apply wpx_bind, wpx_sbrk.
    + intros Hroom.
      assert (Hbm : brk <> MINUS1) by (rewrite MINUS1_eq; unfold W; mlia).
      replace (brk =? MINUS1) with false by (symmetry; apply Z.eqb_neq; exact Hbm).
      apply wpx_bind, wpx_gets. cbn [mm_heap_first].
      apply wpx_bind.
      assert (Hcont : forall f',
         (bl0 = [] -> f' = brk) -> (bl0 <> [] -> f' = lo + 8) ->
         wpx b (set_last brk ;; set_header brk size true ;; ret (payload brk))
           (fun p s' =>
              (p = NULL \/ p mod 16 = 0) /\
              (16 <= size ->
               (p = NULL /\ exists m' bl',
                  s' = St m' lo brk max f l /\ heap_inv s' bl' /\
                  preserves m lo bl m' bl') \/
               (p <> NULL /\ malloc_result m lo max bl size p s')))
           (St m0 lo (brk + size) max f' l)).
      { intros f' Hf1 Hf2. apply wpx_bind, wpx_modify. cbn [ar mm_heap_first].
        apply wpx_bind. unfold set_header. rewrite lor_b2z by mlia.
        apply wpx_store_cases.
        { intros Hb. destruct (Hf Hb) as [_ H16]. fold size in H16. lia. }
        intros _ Hin. apply wpx_ret. unfold payload, sizeof_block_t, sizeof_size_t.
        rewrite wadd_small by lia. split; [right; mlia|]. intros H16. right.
        split; [unfold NULL; lia|]. fold (tag size true).
        exists (wr m0 brk (tag size true)), (brk + size), f', brk, (bl0 ++ [(size, true)]).
        split; [reflexivity|].
        assert (Hbl' : blocks_at (wr m0 brk (tag size true)) (lo + 8) (bl0 ++ [(size, true)])).
        { apply blocks_at_app. split.
          - eapply blocks_at_frame; [|exact Hbl]. intros x Hx. apply wr_out. lia.
          - cbn [blocks_at]. rewrite <- Hbe. repeat split; try lia; try assumption.
            apply rd_wr_same. unfold tag. cbn [Z.b2z]. lia. }
        split; [|split].
        - apply heap_inv_intro; try assumption; try lia.
          + rewrite total_app. cbn [total]. lia.
          + intros E. destruct bl0; discriminate.
          + destruct bl0 as [|b0 r0].
            * rewrite Hf1 by reflexivity. cbn [total] in Hbe. lia.
            * apply Hf2. discriminate.
        - eapply preserves_trans; [exact Hp0|]. split.
          + intros x Hx. apply in_allocated_app. left. exact Hx.
          + intros x Hx. apply wr_out.
            apply (in_allocated_range _ _ _ _ Hbl) in Hx. lia.
        - intros x Hx. split.
          + apply in_allocated_app. right. cbn [in_allocated]. left.
            split; [reflexivity|]. lia.
          + intros Hin'. apply (proj1 Hp0) in Hin'.
            apply (in_allocated_range _ _ _ _ Hbl) in Hin'. lia. }
      destruct (Z.eqb_spec f NULL) as [Hf0|Hf0].
      * apply wpx_modify. cbn [ar mm_heap_last]. apply Hcont.
        -- intros _. reflexivity.
        -- intros Hne. destruct (Hcons Hne) as [E _]. unfold NULL in *. lia.
      * apply wpx_ret. apply Hcont.
        -- intros E. destruct (Hnil E) as [E' _]. contradiction.
        -- intros Hne. destruct (Hcons Hne) as [E _]. exact E.
    + intros Hfull. rewrite Z.eqb_refl. apply wpx_ret.
      split; [left; reflexivity|]. intros _. left. split; [reflexivity|].
      exists m0, bl0. split; [reflexivity|]. split; [exact Hinv0|exact Hp0].
  - (* a fit was found *)
    subst bl0. apply blocks_at_app in Hbl. destruct Hbl as [Hpre Hpost].
    pose proof (blocks_at_mod16 _ _ _ Hpre) as Hpm.
    pose proof (blocks_at_total _ _ _ Hpre) as Hpt.
    cbn [blocks_at] in Hpost. destruct Hpost as (_ & Hsz & _ & Hpost).
    pose proof (blocks_at_total _ _ _ Hpost) as Hpostt.
    rewrite total_app in Hbe. cbn [total] in Hbe.
    replace (lo + 8 + total pre =? NULL) with false
      by (symmetry; apply Z.eqb_neq; unfold NULL; lia).
    cbn [negb]. apply wpx_ret. unfold payload, sizeof_block_t, sizeof_size_t.
    rewrite wadd_small by lia. split; [right; mlia|].
    intros H16. right. split; [unfold NULL; lia|].
    destruct (Hres H16) as (m' & l' & -> & Hinv' & Hp').
    eexists m', brk, f, l', _. split; [reflexivity|]. split; [exact Hinv'|].
    split; [eapply preserves_trans; [exact Hp0|exact Hp']|].
    intros x Hx. split.
    + apply in_allocated_app. right. cbn [in_allocated]. left.
      split; [reflexivity|]. lia.
    + intros Hin. apply (proj1 Hp0) in Hin. revert Hin.
      destruct Hinv0 as (_ & _ & _ & _ & _ & Hbl0 & _).
      cbn [ar mem mem_lo] in Hbl0.
      apply (free_block_not_allocated _ _ _ _ _ _ Hbl0). lia.
Qed.

Lemma imp_free_spec b m lo brk max f l pre sz post :
  heap_inv (St m lo brk max f l) (pre ++ (sz, true) :: post) ->
  wpx b (mm_free (lo + 8 + total pre + 8))
    (fun _ s' =>
       s' = St (wr m (lo + 8 + total pre) (tag sz false)) lo brk max f l /\
       heap_inv s' (pre ++ (sz, false) :: post))
    (St m lo brk max f l).
Proof.
  intros Hinv.
  destruct Hinv as (Hlo & Hal & Hmax & Hbrk & Hbe & Hbl & Hnil & Hcons).
  cbn [ar mem mem_lo mem_brk mem_max mm_heap_first mm_heap_last] in *.
  apply blocks_at_app in Hbl. destruct Hbl as [Hpre Hpost].
  pose proof (blocks_at_total _ _ _ Hpre) as Hpt.
  cbn [blocks_at] in Hpost. destruct Hpost as (Htag & Hsz & Hmod & Hpost).
  pose proof (blocks_at_total _ _ _ Hpost) as Hpostt.
  rewrite total_app in Hbe. cbn [total] in Hbe.
  unfold mm_free.
  replace (lo + 8 + total pre + 8 =? NULL) with false
    by (symmetry; apply Z.eqb_neq; unfold NULL; lia).
  unfold block_from_payload, sizeof_block_t, sizeof_size_t.
  rewrite wsub_small by lia.
  replace (lo + 8 + total pre + 8 - 8) with (lo + 8 + total pre) by lia.
  assert (Hev : sz mod 2 = 0) by mlia.
  apply wpx_bind. eapply wpx_get_size; [lia|lia|exact Htag|lia|lia|exact Hev|].
  eapply wpx_set_header; [lia|lia|exact Hev|].
  split; [reflexivity|].
  destruct (Hcons ltac:(intros E; destruct pre; discriminate)) as [Hf Hl].
  apply heap_inv_intro; try assumption; try lia.
  - rewrite total_app. cbn [total]. lia.
  - apply blocks_at_app. split.
    + eapply blocks_at_frame; [|exact Hpre]. intros x Hx. apply wr_out. lia.
    + cbn [blocks_at]. repeat split; try assumption.
      * apply rd_wr_same. unfold tag. cbn [Z.b2z]. lia.
      * eapply blocks_at_frame; [|exact Hpost]. intros x Hx. apply wr_out. lia.
  - intros E. destruct pre; discriminate.
Qed.

Lemma imp_init_spec b m lo max f l :
  0 < lo -> lo mod 16 = 0 -> max < W ->
  wpx b mm_init
    (fun r s' =>
       (r = true /\ s' = St m lo (lo + 8) max NULL NULL /\ heap_inv s' []) \/
       (r = false /\ max < lo + 8))
    (St m lo lo max f l).
Proof.
  intros Hlo Hal Hmax. unfold mm_init.
  change (wsub ALIGNMENT sizeof_block_t) with 8.
  apply wpx_bind, wpx_sbrk.
  - intros Hroom.
    replace (lo =? MINUS1) with false
      by (symmetry; apply Z.eqb_neq; rewrite MINUS1_eq; lia).
    apply wpx_bind, wpx_modify. apply wpx_bind, wpx_modify. apply wpx_ret.
    cbn [ar mm_heap_first mm_heap_last]. left. split; [reflexivity|].
    split; [reflexivity|]. apply heap_inv_nil; try assumption. cbn [total]. lia.
  - intros Hfull. rewrite Z.eqb_refl. apply wpx_ret. right. split; [reflexivity|lia].
Qed.

End ImplicitProofs.

(** ** The explicit list: memory accesses *)

Module ExplicitProofs.
Import Explicit ExplicitSpec.

Abbreviation St m lo brk max f l := (mkState (mkArena m lo brk max) f l).

Ltac mlia := Z.div_mod_to_equations; lia.

Lemma exp_in_arena_true m lo brk max p n :
  lo <= p -> p + n <= max -> in_arena (mkArena m lo brk max) p n = true.
Proof.
  intros H1 H2. unfold in_arena. cbn [mem_lo mem_max].
  apply andb_true_intro. split; apply Z.leb_le; assumption.
Qed.

Lemma exp_wpx_load b m lo brk max f l p (Q : Z -> state -> Prop) :
  lo <= p -> p + 8 <= max ->
  Q (rd m p) (St m lo brk max f l) ->
  wpx b (lift (load64 p)) Q (St m lo brk max f l).
Proof.
  intros H1 H2 HQ. unfold wpx, lift, load64. cbn [ar].
  rewrite exp_in_arena_true by assumption. exact HQ.
Qed.

Lemma exp_wpx_store b m lo brk max f l p v (Q : unit -> state -> Prop) :
  lo <= p -> p + 8 <= max ->
  Q tt (St (wr m p v) lo brk max f l) ->
  wpx b (lift (store64 p v)) Q (St m lo brk max f l).
Proof.
  intros H1 H2 HQ. unfold wpx, lift, store64. cbn [ar].
  rewrite exp_in_arena_true by assumption. exact HQ.
Qed.

Lemma exp_wpx_store_cases b m lo brk max f l p v (Q : unit -> state -> Prop) :
  (b = true -> lo <= p /\ p + 8 <= max) ->
  (lo <= p -> p + 8 <= max -> Q tt (St (wr m p v) lo brk max f l)) ->
  wpx b (lift (store64 p v)) Q (St m lo brk max f l).
Proof.
  intros Hb HQ. unfold wpx, lift, store64, in_arena. cbn [ar mem_lo mem_max mem].
  destruct (Z.leb_spec lo p) as [H1|H1]; destruct (Z.leb_spec (p + 8) max) as [H2|H2];
    cbn [andb]; try (apply HQ; assumption);
    destruct b; try reflexivity; destruct (Hb eq_refl); lia.
Qed.

Lemma exp_wpx_sbrk b m lo brk max f l incr (Q : Z -> state -> Prop) :
  (brk + incr <= max -> Q brk (St m lo (brk + incr) max f l)) ->
  (max < brk + incr -> Q MINUS1 (St m lo brk max f l)) ->
  wpx b (lift (mem_sbrk incr)) Q (St m lo brk max f l).
Proof.
  intros H1 H2. unfold wpx, lift, mem_sbrk. cbn [ar mem_brk mem_max mem mem_lo].
  destruct (Z.leb_spec (brk + incr) max); [apply H1|apply H2]; assumption.
Qed.

Lemma tag_range sz al : 0 <= sz -> sz + 1 < W -> 0 <= tag sz al < W.
Proof. intros. unfold tag. destruct al; cbn [Z.b2z]; lia. Qed.

Lemma tag_bound m p sz al :
  rd m p = tag sz al -> 0 <= sz -> sz mod 2 = 0 -> sz + 1 < W.
Proof.
  intros Ht H0 H2. pose proof (rd_range m p) as Hr. rewrite Ht in Hr.
  unfold tag in Hr. unfold W in *. destruct al; cbn [Z.b2z] in Hr; mlia.
Qed.

Lemma exp_wpx_get_size b m lo brk max f l p sz al (Q : Z -> state -> Prop) :
  0 < lo -> max < W ->
  lo <= p + 8 -> p + 16 <= max -> 0 <= p ->
  rd m (p + 8) = tag sz al -> 0 <= sz -> sz mod 2 = 0 ->
  Q sz (St m lo brk max f l) ->
  wpx b (get_size p) Q (St m lo brk max f l).
Proof.
  intros Hlo Hmax H1 H2 H0 Ht H3 H5 HQ. pose proof (tag_bound _ _ _ _ Ht H3 H5) as H4.
  unfold get_size, off_header, sizeof_size_t.
  rewrite wadd_small by lia.
  apply wpx_bind. apply exp_wpx_load; [lia|lia|].
  apply wpx_ret. rewrite Ht. unfold tag. rewrite tag_size by assumption. exact HQ.
Qed.

Lemma wpx_get_previous_size b m lo brk max f l p sz al (Q : Z -> state -> Prop) :
  0 < lo -> max < W ->
  lo <= p -> p + 8 <= max ->
  rd m p = tag sz al -> 0 <= sz -> sz mod 2 = 0 ->
  Q sz (St m lo brk max f l) ->
  wpx b (get_previous_size p) Q (St m lo brk max f l).
Proof.
  intros Hlo Hmax H1 H2 Ht H3 H5 HQ. pose proof (tag_bound _ _ _ _ Ht H3 H5) as H4.
  unfold get_previous_size, off_footer.
  rewrite wadd_small by lia. rewrite Z.add_0_r.
  apply wpx_bind. apply exp_wpx_load; [lia|lia|].
  apply wpx_ret. rewrite Ht. unfold tag. rewrite tag_size by assumption. exact HQ.
Qed.

Lemma wpx_is_previous_allocated b m lo brk max f l p sz al (Q : bool -> state -> Prop) :
  0 < lo -> max < W ->
  lo <= p -> p + 8 <= max ->
  rd m p = tag sz al -> sz mod 2 = 0 ->
  Q al (St m lo brk max f l) ->
  wpx b (is_previous_allocated p) Q (St m lo brk max f l).
Proof.
  intros Hlo Hmax H1 H2 Ht H5 HQ. unfold is_previous_allocated, off_footer.
  rewrite wadd_small by lia. rewrite Z.add_0_r.
  apply wpx_bind. apply exp_wpx_load; [lia|lia|].
  apply wpx_ret. rewrite Ht. unfold tag. rewrite tag_alloc by assumption. exact HQ.
Qed.

Lemma wpx_get_previous_block b m lo brk max f l p sz al (Q : Z -> state -> Prop) :
  0 < lo -> max < W ->
  lo <= p -> p + 8 <= max ->
  rd m p = tag sz al -> 0 <= sz -> sz mod 2 = 0 -> 0 <= p - sz - 16 ->
  Q (p - sz - 16) (St m lo brk max f l) ->
  wpx b (get_previous_block p) Q (St m lo brk max f l).
Proof.
  intros Hlo Hmax H1 H2 Ht H3 H5 H6 HQ. unfold get_previous_block.
  apply wpx_bind. eapply wpx_get_previous_size; [exact Hlo|exact Hmax|lia|lia|exact Ht|lia|exact H5|].
  apply wpx_ret. rewrite ALIGNMENT_eq. rewrite (wsub_small p sz) by lia.
  rewrite wsub_small by lia. exact HQ.
Qed.

Lemma wpx_get_next_block b m lo brk max f l p sz al (Q : Z -> state -> Prop) :
  0 < lo -> max < W ->
  lo <= p + 8 -> p + 16 + sz <= max -> 0 <= p ->
  rd m (p + 8) = tag sz al -> 0 <= sz -> sz mod 2 = 0 ->
  Q (p + 16 + sz) (St m lo brk max f l) ->
  wpx b (get_next_block p) Q (St m lo brk max f l).
Proof.
  intros Hlo Hmax H1 H2 H0 Ht H3 H5 HQ. unfold get_next_block.
  apply wpx_bind. eapply exp_wpx_get_size; [exact Hlo|exact Hmax|lia|lia|lia|exact Ht|lia|exact H5|].
  apply wpx_ret. rewrite ALIGNMENT_eq. rewrite (wadd_small p 16) by lia.
  rewrite wadd_small by lia. exact HQ.
Qed.

Lemma wpx_is_next_allocated b m lo brk max f l p sz al nsz nal (Q : bool -> state -> Prop) :
  0 < lo -> max < W ->
  lo <= p + 8 -> p + 16 + sz + 16 <= max -> 0 <= p ->
  rd m (p + 8) = tag sz al -> 0 <= sz -> sz mod 2 = 0 ->
  rd m (p + 16 + sz + 8) = tag nsz nal -> 0 <= nsz -> nsz mod 2 = 0 ->
  (nsz = 0 -> nal = true) ->
  Q nal (St m lo brk max f l) ->
  wpx b (is_next_allocated p) Q (St m lo brk max f l).
Proof.
  intros Hlo Hmax H1 H2 H0 Ht H3 H5 Hn Hn0 Hn2 Hz HQ.
  pose proof (tag_bound _ _ _ _ Hn Hn0 Hn2) as Hn1. unfold is_next_allocated.
  apply wpx_bind. eapply exp_wpx_get_size; [exact Hlo|exact Hmax|lia|lia|lia|exact Ht|lia|exact H5|].
  rewrite ALIGNMENT_eq. unfold sizeof_size_t. rewrite (wadd_small p 16) by lia.
  rewrite (wadd_small (p + 16) sz) by lia. rewrite wadd_small by lia.
  apply wpx_bind. apply exp_wpx_load; [lia|lia|].
  rewrite Hn. unfold tag at 1. rewrite tag_size by assumption.
  destruct (Z.eqb_spec nsz 0) as [E|E]; cbn [negb].
  - apply wpx_ret. rewrite <- (Hz E). exact HQ.
  - apply wpx_bind. apply exp_wpx_load; [lia|lia|].
    apply wpx_ret. rewrite Hn. unfold tag. rewrite tag_alloc by assumption. exact HQ.
Qed.

Lemma wpx_set_header_footer b m lo brk max f l p sz al (Q : unit -> state -> Prop) :
  0 < lo -> max < W ->
  lo <= p + 8 -> p + 16 + sz + 8 <= max -> 0 <= p -> 0 <= sz -> sz mod 2 = 0 ->
  Q tt (St (wr (wr m (p + 8) (tag sz al)) (p + 16 + sz) (tag sz al)) lo brk max f l) ->
  wpx b (set_header_footer p sz al) Q (St m lo brk max f l).
Proof.
  intros Hlo Hmax H1 H2 H0 H3 H5 HQ. unfold set_header_footer, off_header, sizeof_size_t.
  rewrite ALIGNMENT_eq. rewrite (wadd_small p 8) by lia.
  rewrite (wadd_small p 16) by lia. rewrite wadd_small by lia.
  rewrite lor_b2z by assumption. fold (tag sz al).
  apply wpx_bind. apply exp_wpx_store; [lia|lia|].
  apply exp_wpx_store; [lia|lia|]. exact HQ.
Qed.

(** Unlinking the node of the block at [p]: its neighbours [pv] and [nx]
    are linked to each other. *)
Lemma wpx_delete_linked_node b m lo brk max f l p pv nx (Q : unit -> state -> Prop) :
  0 < lo -> max < W ->
  lo <= p + 16 -> p + 32 <= max -> 0 <= p ->
  rd m (p + 16) = pv -> rd m (p + 24) = nx ->
  lo <= pv + 8 -> pv + 16 <= max -> lo <= nx -> nx + 8 <= max ->
  (pv + 16 <= p + 16 \/ p + 32 <= pv + 8) ->
  Q tt (St (wr (wr m (pv + 8) nx) nx pv) lo brk max f l) ->
  wpx b (delete_linked_node_from_block p) Q (St m lo brk max f l).
Proof.
  intros Hlo Hmax H1 H2 H0 Hpv Hnx H3 H4 H5 H6 Hap HQ.
  unfold delete_linked_node_from_block, get_linked_node_from_block,
    off_prev, off_next, sizeof_size_t.
  rewrite ALIGNMENT_eq. rewrite !(wadd_small p 16) by lia.
  rewrite !(wadd_small (p + 16)) by lia. rewrite !Z.add_0_r.
  replace (p + 16 + 8) with (p + 24) by lia.
  apply wpx_bind. apply exp_wpx_load; [lia|lia|]. rewrite Hpv.
  apply wpx_bind. apply exp_wpx_load; [lia|lia|]. rewrite Hnx.
  rewrite (wadd_small pv 8) by lia.
  apply wpx_bind. apply exp_wpx_store; [lia|lia|].
  apply wpx_bind. apply exp_wpx_load; [lia|lia|].
  rewrite (rd_wr_other _ _ _ (p + 24)) by lia. rewrite Hnx.
  apply wpx_bind. apply exp_wpx_load; [lia|lia|].
  rewrite (rd_wr_other _ _ _ (p + 16)) by lia. rewrite Hpv.
  rewrite (wadd_small nx 0) by lia. rewrite Z.add_0_r.
  apply exp_wpx_store; [lia|lia|]. exact HQ.
Qed.


(** Linking the node of the block at [p] in front of the tail sentinel. *)
Lemma wpx_add_linked_node b m lo brk max f l p lp (Q : unit -> state -> Prop) :
  0 < lo -> max < W ->
  lo <= p + 16 -> p + 32 <= max -> 0 <= p ->
  lo <= l -> l + 8 <= max -> rd m l = lp ->
  lo <= lp + 8 -> lp + 16 <= max ->
  (l + 8 <= p + 16 \/ p + 32 <= l) ->
  Q tt (St (wr (wr (wr (wr m (p + 16) lp) (p + 24) l) l (p + 16)) (lp + 8) (p + 16))
           lo brk max f l) ->
  wpx b (add_linked_node_to_block p) Q (St m lo brk max f l).
Proof.
  intros Hlo Hmax H1 H2 H0 H3 H4 Hlp H5 H6 Hap HQ.
  unfold add_linked_node_to_block, get_linked_node_from_block,
    off_prev, off_next, sizeof_size_t.
  rewrite ALIGNMENT_eq. rewrite !(wadd_small p 16) by lia.
  rewrite !(wadd_small (p + 16)) by lia. rewrite !Z.add_0_r.
  replace (p + 16 + 8) with (p + 24) by lia.
  apply wpx_bind, wpx_gets. cbn [last].
  rewrite (wadd_small l 0) by lia. rewrite Z.add_0_r.
  apply wpx_bind. apply exp_wpx_load; [lia|lia|]. rewrite Hlp.
  apply wpx_bind. apply exp_wpx_store; [lia|lia|].
  apply wpx_bind, wpx_gets. cbn [last].
  apply wpx_bind. apply exp_wpx_store; [lia|lia|].
  apply wpx_bind, wpx_gets. cbn [last].
  rewrite (wadd_small l 0) by lia. rewrite Z.add_0_r.
  apply wpx_bind. apply exp_wpx_store; [lia|lia|].
  apply wpx_bind. apply exp_wpx_load; [lia|lia|].
  rewrite (rd_wr_other _ l _ (p + 16)) by lia.
  rewrite (rd_wr_other _ (p + 24) _ (p + 16)) by lia.
  assert (Hr : 0 <= lp < W) by (rewrite <- Hlp; apply rd_range).
  rewrite rd_wr_same by exact Hr.
  rewrite (wadd_small lp 8) by lia.
  apply exp_wpx_store; [lia|lia|]. exact HQ.
Qed.

(** ** The explicit list: blocks in memory *)

Lemma span_app l1 l2 : span (l1 ++ l2) = span l1 + span l2.
Proof.
  induction l1 as [|[sz al] r IH]; cbn [span app]; [reflexivity|].
  rewrite IH. lia.
Qed.

Lemma blocks_span m a pt bl nh : blocks m a pt bl nh -> 0 <= span bl.
Proof.
  revert a pt. induction bl as [|[sz al] r IH]; intros a pt H; cbn [span].
  - lia.
  - destruct H as (_ & _ & H0 & _ & _ & H). specialize (IH _ _ H). lia.
Qed.

Lemma blocks_span_mod m a pt bl nh : blocks m a pt bl nh -> span bl mod 16 = 0.
Proof.
  revert a pt. induction bl as [|[sz al] r IH]; intros a pt H; cbn [span].
  - reflexivity.
  - destruct H as (_ & _ & _ & H0 & _ & H). specialize (IH _ _ H). mlia.
Qed.

Lemma last_tag_app pt l1 l2 : last_tag pt (l1 ++ l2) = last_tag (last_tag pt l1) l2.
Proof.
  revert pt. induction l1 as [|[sz al] r IH]; intros pt; cbn [last_tag app];
    [reflexivity|apply IH].
Qed.

Lemma blocks_hd m a pt bl nh :
  blocks m a pt bl nh -> rd m a = pt /\ rd m (a + 8) = hd_tag bl nh.
Proof.
  destruct bl as [|[sz al] r]; cbn [blocks hd_tag]; intros H.
  - exact H.
  - destruct H as (H1 & H2 & _). split; assumption.
Qed.

Lemma blocks_end m a pt bl nh :
  blocks m a pt bl nh ->
  rd m (a + span bl) = last_tag pt bl /\ rd m (a + span bl + 8) = nh.
Proof.
  revert a pt. induction bl as [|[sz al] r IH]; intros a pt H; cbn [span last_tag].
  - rewrite Z.add_0_r. exact H.
  - destruct H as (_ & _ & _ & _ & _ & H). specialize (IH _ _ H).
    replace (a + (16 + sz + span r)) with (a + 16 + sz + span r) by lia. exact IH.
Qed.

Lemma blocks_app m a pt l1 l2 nh :
  blocks m a pt (l1 ++ l2) nh <->
  blocks m a pt l1 (hd_tag l2 nh) /\
  blocks m (a + span l1) (last_tag pt l1) l2 nh.
Proof.
  revert a pt. induction l1 as [|[sz al] r IH]; intros a pt;
    cbn [blocks span app last_tag].
  - rewrite Z.add_0_r. split.
    + intros H. split; [apply (blocks_hd _ _ _ _ _ H)|exact H].
    + intros [_ H]. exact H.
  - rewrite IH. replace (a + (16 + sz + span r)) with (a + 16 + sz + span r) by lia.
    tauto.
Qed.

Lemma bounds_range m a pt bl nh x :
  blocks m a pt bl nh -> In x (bounds a bl) ->
  a <= x <= a + span bl /\ (x - a) mod 16 = 0.
Proof.
  revert a pt. induction bl as [|[sz al] r IH]; intros a pt H Hx; cbn [bounds span] in *.
  - destruct Hx as [<-|[]]. split; [lia|]. rewrite Z.sub_diag. reflexivity.
  - destruct H as (_ & _ & H0 & H1 & _ & H). pose proof (blocks_span _ _ _ _ _ H).
    destruct Hx as [<-|Hx].
    + split; [lia|]. rewrite Z.sub_diag. reflexivity.
    + destruct (IH _ _ H Hx) as [Hr Hm]. split; [lia|]. mlia.
Qed.

Lemma bounds_app_in a l1 l2 x :
  In x (bounds a (l1 ++ l2)) <->
  In x (bounds a l1) \/ In x (bounds (a + span l1) l2).
Proof.
  revert a. induction l1 as [|[sz al] r IH]; intros a; cbn [bounds span app].
  - rewrite Z.add_0_r. split; [auto|]. intros [[<-|[]]|H]; [|exact H].
    destruct l2 as [|[sz al] r]; cbn [bounds]; left; reflexivity.
  - cbn [In]. rewrite IH.
    replace (a + (16 + sz + span r)) with (a + 16 + sz + span r) by lia. tauto.
Qed.

Lemma bounds_start a bl : In a (bounds a bl).
Proof. destruct bl as [|[sz al] r]; cbn [bounds]; left; reflexivity. Qed.

Lemma bounds_end a bl : In (a + span bl) (bounds a bl).
Proof.
  revert a. induction bl as [|[sz al] r IH]; intros a; cbn [bounds span].
  - left. lia.
  - right. replace (a + (16 + sz + span r)) with (a + 16 + sz + span r) by lia.
    apply IH.
Qed.

(** A write that stays clear of every header and footer. *)
Lemma blocks_wr m a pt bl nh w v :
  blocks m a pt bl nh ->
  (forall x, In x (bounds a bl) -> w + 8 <= x \/ x + 16 <= w) ->
  blocks (wr m w v) a pt bl nh.
Proof.
  revert a pt. induction bl as [|[sz al] r IH]; intros a pt H Hw; cbn [blocks bounds] in *.
  - destruct (Hw a (or_introl eq_refl)); destruct H as [H1 H2];
      split; rewrite rd_wr_other by lia; assumption.
  - destruct H as (H1 & H2 & H3 & H4 & H5 & H6).
    assert (Hwa := Hw a (or_introl eq_refl)).
    repeat split; try assumption.
    + rewrite rd_wr_other by lia. exact H1.
    + rewrite rd_wr_other by lia. exact H2.
    + apply IH; [exact H6|]. intros x Hx. apply Hw. right. exact Hx.
Qed.

Lemma blocks_wr_below m a pt bl nh w v :
  blocks m a pt bl nh -> w + 8 <= a -> blocks (wr m w v) a pt bl nh.
Proof.
  intros H Hw. apply blocks_wr; [exact H|]. intros x Hx.
  apply (bounds_range _ _ _ _ _ _ H) in Hx. lia.
Qed.

Lemma blocks_wr_above m a pt bl nh w v :
  blocks m a pt bl nh -> a + span bl + 16 <= w -> blocks (wr m w v) a pt bl nh.
Proof.
  intros H Hw. apply blocks_wr; [exact H|]. intros x Hx.
  apply (bounds_range _ _ _ _ _ _ H) in Hx. lia.
Qed.

(** Overwriting the header that follows the blocks, or the footer that
    precedes them. *)
Lemma blocks_set_nh m a pt bl nh v :
  blocks m a pt bl nh -> 0 <= v < W ->
  blocks (wr m (a + span bl + 8) v) a pt bl v.
Proof.
  revert a pt. induction bl as [|[sz al] r IH]; intros a pt H Hv; cbn [blocks span] in *.
  - rewrite Z.add_0_r. destruct H as [H1 H2]. split.
    + rewrite rd_wr_other by lia. exact H1.
    + apply rd_wr_same. exact Hv.
  - destruct H as (H1 & H2 & H3 & H4 & H5 & H6).
    pose proof (blocks_span _ _ _ _ _ H6).
    repeat split; try assumption.
    + rewrite rd_wr_other by lia. exact H1.
    + rewrite rd_wr_other by lia. exact H2.
    + replace (a + (16 + sz + span r) + 8) with (a + 16 + sz + span r + 8) by lia.
      apply IH; assumption.
Qed.

Lemma blocks_set_pt m a pt bl nh v :
  blocks m a pt bl nh -> 0 <= v < W ->
  blocks (wr m a v) a v bl nh.
Proof.
  intros H Hv. destruct bl as [|[sz al] r]; cbn [blocks] in *.
  - destruct H as [H1 H2]. split.
    + apply rd_wr_same. exact Hv.
    + rewrite rd_wr_other by lia. exact H2.
  - destruct H as (H1 & H2 & H3 & H4 & H5 & H6).
    repeat split; try assumption.
    + apply rd_wr_same. exact Hv.
    + rewrite rd_wr_other by lia. exact H2.
    + apply blocks_wr_below; [exact H6|lia].
Qed.

(** *** Free-list nodes among the blocks *)

Lemma free_nodes_app a l1 l2 :
  free_nodes a (l1 ++ l2) = free_nodes a l1 ++ free_nodes (a + span l1) l2.
Proof.
  revert a. induction l1 as [|[sz al] r IH]; intros a; cbn [free_nodes span app].
  - rewrite Z.add_0_r. reflexivity.
  - rewrite IH. replace (a + (16 + sz + span r)) with (a + 16 + sz + span r) by lia.
    destruct al; reflexivity.
Qed.

Lemma free_nodes_split a bl n :
  In n (free_nodes a bl) ->
  exists pre sz post, bl = pre ++ (sz, false) :: post /\ n = a + span pre + 16.
Proof.
  revert a. induction bl as [|[sz al] r IH]; intros a H; cbn [free_nodes] in H.
  - contradiction.
  - destruct al.
    + destruct (IH _ H) as (pre & sz' & post & -> & ->).
      exists ((sz, true) :: pre), sz', post. cbn [app span]. split; [reflexivity|lia].
    + destruct H as [<-|H].
      * exists [], sz, r. cbn [app span]. split; [reflexivity|lia].
      * destruct (IH _ H) as (pre & sz' & post & -> & ->).
        exists ((sz, false) :: pre), sz', post. cbn [app span]. split; [reflexivity|lia].
Qed.

Lemma free_nodes_mid a pre sz post :
  In (a + span pre + 16) (free_nodes a (pre ++ (sz, false) :: post)).
Proof.
  rewrite free_nodes_app. apply in_or_app. right. cbn [free_nodes]. left. reflexivity.
Qed.

(** The node of a free block keeps its distance from every tag. *)
Lemma mid_node_clear m a pt pre sz post nh x :
  blocks m a pt (pre ++ (sz, false) :: post) nh ->
  In x (bounds a (pre ++ (sz, false) :: post)) ->
  x + 16 <= a + span pre + 16 \/ a + span pre + 16 + 16 <= x.
Proof.
  intros H Hx. apply blocks_app in H. destruct H as [Hpre Hpost].
  apply bounds_app_in in Hx. destruct Hx as [Hx|Hx].
  - apply (bounds_range _ _ _ _ _ _ Hpre) in Hx. lia.
  - cbn [bounds blocks] in *. destruct Hpost as (_ & _ & _ & _ & H16 & Hpost).
    specialize (H16 eq_refl). destruct Hx as [<-|Hx]; [lia|].
    apply (bounds_range _ _ _ _ _ _ Hpost) in Hx. lia.
Qed.

Lemma free_nodes_node_ok m lo bl nh n :
  lo mod 16 = 0 ->
  blocks m (lo + 32) 1 bl nh -> In n (free_nodes (lo + 32) bl) -> node_ok lo bl n.
Proof.
  intros Hlo H Hn. destruct (free_nodes_split _ _ _ Hn) as (pre & sz & post & -> & ->).
  pose proof H as H'. apply blocks_app in H'. destruct H' as [Hpre Hpost].
  pose proof (blocks_span _ _ _ _ _ Hpre). pose proof (blocks_span_mod _ _ _ _ _ Hpre).
  cbn [blocks] in Hpost. destruct Hpost as (_ & _ & _ & _ & H16 & Hpost).
  specialize (H16 eq_refl). pose proof (blocks_span _ _ _ _ _ Hpost).
  unfold node_ok. rewrite span_app. cbn [span].
  split; [mlia|]. split; [lia|]. split; [lia|].
  intros x Hx. apply (mid_node_clear _ _ _ _ _ _ _ _ H Hx).
Qed.

Lemma free_nodes_lt m a pt bl nh n :
  blocks m a pt bl nh -> In n (free_nodes a bl) -> a + 16 <= n /\ n + 16 <= a + span bl.
Proof.
  intros H Hn. destruct (free_nodes_split _ _ _ Hn) as (pre & sz & post & -> & ->).
  apply blocks_app in H. destruct H as [Hpre Hpost].
  pose proof (blocks_span _ _ _ _ _ Hpre).
  cbn [blocks] in Hpost. destruct Hpost as (_ & _ & _ & _ & H16 & Hpost).
  specialize (H16 eq_refl). pose proof (blocks_span _ _ _ _ _ Hpost).
  rewrite span_app. cbn [span]. lia.
Qed.

Lemma free_nodes_NoDup m a pt bl nh :
  blocks m a pt bl nh -> NoDup (free_nodes a bl).
Proof.
  revert a pt. induction bl as [|[sz al] r IH]; intros a pt H; cbn [free_nodes].
  - constructor.
  - cbn [blocks] in H. destruct H as (_ & _ & H0 & _ & _ & H).
    destruct al; [exact (IH _ _ H)|]. constructor; [|exact (IH _ _ H)].
    intros Hin. apply (free_nodes_lt _ _ _ _ _ _ H) in Hin. lia.
Qed.

(** ** The explicit list: the doubly linked list in memory *)

Lemma dll_wr m prev fl lst w v :
  dll m prev fl lst ->
  (w + 8 <= prev + 8 \/ prev + 16 <= w) ->
  (w + 8 <= lst \/ lst + 8 <= w) ->
  (forall n, In n fl -> w + 8 <= n \/ n + 16 <= w) ->
  dll (wr m w v) prev fl lst.
Proof.
  revert prev. induction fl as [|n r IH]; intros prev H Hp Hl Hn; cbn [dll] in *.
  - destruct H as [H1 H2]. split; rewrite rd_wr_other by lia; assumption.
  - destruct H as (H1 & H2 & H3).
    assert (Hnn := Hn n (or_introl eq_refl)).
    split; [rewrite rd_wr_other by lia; exact H1|].
    split; [rewrite rd_wr_other by lia; exact H2|].
    apply IH; [exact H3|lia|exact Hl|]. intros x Hx. apply Hn. right. exact Hx.
Qed.

Lemma last_of_in d l : In (last_of d l) (d :: l).
Proof.
  revert d. induction l as [|x r IH]; intros d; cbn [last_of].
  - left. reflexivity.
  - right. apply IH.
Qed.

Lemma last_of_snoc d l x : last_of d (l ++ [x]) = x.
Proof.
  revert d. induction l as [|y r IH]; intros d; cbn [last_of app];
    [reflexivity|apply IH].
Qed.

Lemma last_of_app d l1 x l2 : last_of d (l1 ++ x :: l2) = last_of x l2.
Proof.
  revert d. induction l1 as [|y r IH]; intros d; cbn [last_of app];
    [reflexivity|apply IH].
Qed.

Lemma dll_last m prev fl lst : dll m prev fl lst -> rd m lst = last_of prev fl.
Proof.
  revert prev. induction fl as [|n r IH]; intros prev H; cbn [dll last_of] in *.
  - apply H.
  - apply IH. apply H.
Qed.

(** Appending a node in front of the tail sentinel. *)
Lemma dll_add m link lst : forall fl prev,
  dll m prev fl lst ->
  (forall x, In x (prev :: lst :: link :: fl) -> 0 <= x < W /\ x mod 16 = 0) ->
  prev <> lst -> prev <> link -> lst <> link ->
  (forall x, In x fl -> x <> prev /\ x <> lst /\ x <> link) ->
  NoDup fl ->
  dll (wr (wr (wr (wr m link (last_of prev fl)) (link + 8) lst) lst link)
          (last_of prev fl + 8) link)
      prev (fl ++ [link]) lst.
Proof.
  induction fl as [|n r IH]; intros prev H Hc Hpl Hpk Hlk Hd Hnd;
    cbn [dll last_of app] in *.
  - destruct H as [H1 H2].
    destruct (Hc prev (or_introl eq_refl)) as [Hr1 Hm1].
    destruct (Hc lst (or_intror (or_introl eq_refl))) as [Hr2 Hm2].
    destruct (Hc link (or_intror (or_intror (or_introl eq_refl)))) as [Hr3 Hm3].
    repeat split.
    + apply rd_wr_same. exact Hr3.
    + rewrite !(rd_wr_other _ _ _ link) by mlia. apply rd_wr_same. exact Hr1.
    + rewrite !(rd_wr_other _ _ _ (link + 8)) by mlia. apply rd_wr_same. exact Hr2.
    + rewrite (rd_wr_other _ _ _ lst) by mlia. apply rd_wr_same. exact Hr3.
  - destruct H as (H1 & H2 & H3).
    destruct (Hc prev (or_introl eq_refl)) as [Hr1 Hm1].
    destruct (Hc lst (or_intror (or_introl eq_refl))) as [Hr2 Hm2].
    destruct (Hc link (or_intror (or_intror (or_introl eq_refl)))) as [Hr3 Hm3].
    destruct (Hc n (or_intror (or_intror (or_intror (or_introl eq_refl))))) as [Hr4 Hm4].
    destruct (Hd n (or_introl eq_refl)) as (Hn1 & Hn2 & Hn3).
    apply NoDup_cons_iff in Hnd; destruct Hnd as [Hnin Hnd'].
    assert (Hlast : In (last_of n r) (n :: r)) by apply last_of_in.
    assert (Hlc : 0 <= last_of n r < W /\ last_of n r mod 16 = 0).
    { apply Hc. right. right. right. exact Hlast. }
    assert (Hlp : last_of n r <> prev).
    { destruct Hlast as [<-|Hin]; [exact Hn1|]. apply Hd. right. exact Hin. }
    destruct Hlc as [Hlr Hlm].
    split; [|split].
    + rewrite !(rd_wr_other _ _ _ (prev + 8)) by mlia. exact H1.
    + rewrite !(rd_wr_other _ _ _ n) by mlia. exact H2.
    + apply IH; try assumption.
      * intros x Hx. apply Hc. cbn [In] in *. tauto.
      * intros x Hx. split; [|apply Hd; right; exact Hx].
        intros ->. contradiction.
Qed.

(** Unlinking a node: its neighbours are linked to each other. *)
Lemma dll_del m n l2 lst : forall l1 prev,
  dll m prev (l1 ++ n :: l2) lst ->
  (forall x, In x (prev :: lst :: l1 ++ n :: l2) -> 0 <= x < W /\ x mod 16 = 0) ->
  prev <> lst ->
  (forall x, In x (l1 ++ n :: l2) -> x <> prev /\ x <> lst) ->
  NoDup (l1 ++ n :: l2) ->
  rd m n = last_of prev l1 /\ rd m (n + 8) = hd lst l2 /\
  dll (wr (wr m (last_of prev l1 + 8) (hd lst l2)) (hd lst l2) (last_of prev l1))
      prev (l1 ++ l2) lst.
Proof.
  induction l1 as [|n1 r IH]; intros prev H Hc Hpl Hd Hnd;
    cbn [dll last_of app] in *.
  - destruct H as (H1 & H2 & H3).
    destruct (Hc prev (or_introl eq_refl)) as [Hr1 Hm1].
    destruct (Hc lst (or_intror (or_introl eq_refl))) as [Hr2 Hm2].
    destruct (Hc n (or_intror (or_intror (or_introl eq_refl)))) as [Hr3 Hm3].
    destruct (Hd n (or_introl eq_refl)) as (Hn1 & Hn2).
    apply NoDup_cons_iff in Hnd; destruct Hnd as [Hnin Hnd'].
    split; [exact H2|].
    destruct l2 as [|n2 r2]; cbn [dll hd] in *.
    + destruct H3 as [H3 H4]. split; [exact H3|]. split.
      * rewrite rd_wr_other by mlia. apply rd_wr_same. exact Hr2.
      * apply rd_wr_same. exact Hr1.
    + destruct H3 as (H3 & H4 & H5). split; [exact H3|].
      destruct (Hc n2 (or_intror (or_intror (or_intror (or_introl eq_refl))))) as [Hr4 Hm4].
      destruct (Hd n2 (or_intror (or_introl eq_refl))) as (Hn21 & Hn22).
      apply NoDup_cons_iff in Hnd'; destruct Hnd' as [Hnin2 Hnd''].
      split; [|split].
      * rewrite rd_wr_other by mlia. apply rd_wr_same. exact Hr4.
      * apply rd_wr_same. exact Hr1.
      * apply dll_wr; [apply dll_wr|..]; try exact H5; try mlia.
        -- intros x Hx.
           assert (x <> prev) by (apply Hd; right; right; exact Hx).
           destruct (Hc x) as [_ Hxm]; [cbn [In]; tauto|]. mlia.
        -- intros x Hx.
           assert (x <> n2) by (intros ->; contradiction).
           destruct (Hc x) as [_ Hxm]; [cbn [In]; tauto|]. mlia.
  - destruct H as (H1 & H2 & H3).
    destruct (Hc prev (or_introl eq_refl)) as [Hr1 Hm1].
    destruct (Hc lst (or_intror (or_introl eq_refl))) as [Hr2 Hm2].
    destruct (Hc n1 (or_intror (or_intror (or_introl eq_refl)))) as [Hr3 Hm3].
    destruct (Hd n1 (or_introl eq_refl)) as (Hn1 & Hn2).
    apply NoDup_cons_iff in Hnd; destruct Hnd as [Hnin Hnd'].
    destruct (IH n1 H3) as (E1 & E2 & E3).
    { intros x Hx. apply Hc. cbn [In] in *. tauto. }
    { exact Hn2. }
    { intros x Hx. split; [|apply Hd; right; exact Hx]. intros ->. contradiction. }
    { exact Hnd'. }
    split; [exact E1|]. split; [exact E2|].
    assert (Hlast : In (last_of n1 r) (n1 :: r)) by apply last_of_in.
    assert (Hlc : 0 <= last_of n1 r < W /\ last_of n1 r mod 16 = 0).
    { apply Hc. right. right. destruct Hlast as [<-|Hin]; [left; reflexivity|].
      right. apply in_or_app. left. exact Hin. }
    assert (Hlp : last_of n1 r <> prev).
    { destruct Hlast as [<-|Hin]; [exact Hn1|].
      apply Hd. right. apply in_or_app. left. exact Hin. }
    assert (Hnx : In (hd lst l2) (lst :: l2)).
    { destruct l2; cbn [hd]; [left; reflexivity|right; left; reflexivity]. }
    assert (Hnc : 0 <= hd lst l2 < W /\ hd lst l2 mod 16 = 0).
    { apply Hc. right. destruct Hnx as [<-|Hin]; [left; reflexivity|].
      right. right. apply in_or_app. right. right. exact Hin. }
    assert (Hnp : hd lst l2 <> prev /\ hd lst l2 <> n1).
    { destruct Hnx as [<-|Hin]; [split; congruence|]. split.
      - apply Hd. right. apply in_or_app. right. right. exact Hin.
      - intros E. apply Hnin. rewrite <- E. apply in_or_app. right. right. exact Hin. }
    destruct Hlc as [Hlr Hlm]. destruct Hnc as [Hnr Hnm]. destruct Hnp as [Hnp1 Hnp2].
    split; [|split; [|exact E3]].
    + rewrite !(rd_wr_other _ _ _ (prev + 8)) by mlia. exact H1.
    + rewrite !(rd_wr_other _ _ _ n1) by mlia. exact H2.
Qed.

(** ** The explicit list: blocks and list together *)

Lemma node_ok_cell lo bl n : 0 < lo -> lo + 32 + span bl + 16 < W ->
  node_ok lo bl n -> 0 <= n < W /\ n mod 16 = 0.
Proof. intros Hlo Hw (H1 & H2 & H3 & _). split; [lia|exact H1]. Qed.

Lemma cfg_cells m lo bl fl x :
  cfg m lo bl fl -> In x (lo :: lo + 16 :: fl) -> 0 <= x < W /\ x mod 16 = 0.
Proof.
  intros (Hlo & Hal & Hw & Hb & _ & _ & Hok) Hx.
  pose proof (blocks_span _ _ _ _ _ Hb).
  destruct Hx as [<-|[<-|Hx]].
  - split; [lia|exact Hal].
  - split; [lia|mlia].
  - apply (node_ok_cell lo bl); [exact Hlo|exact Hw|apply Hok; exact Hx].
Qed.

Lemma cfg_sentinels m lo bl fl x :
  cfg m lo bl fl -> In x fl -> x <> lo /\ x <> lo + 16.
Proof.
  intros (_ & _ & _ & _ & _ & _ & Hok) Hx. destruct (Hok x Hx) as (_ & H & _). lia.
Qed.

(** Writing a header or footer leaves the list alone. *)
Lemma dll_wr_tag m lo bl fl w v x :
  dll m lo fl (lo + 16) -> (forall n, In n fl -> node_ok lo bl n) ->
  In x (bounds (lo + 32) bl) -> lo + 32 <= x -> w = x \/ w = x + 8 ->
  dll (wr m w v) lo fl (lo + 16).
Proof.
  intros Hd Hok Hx Hlx Hw. apply dll_wr; [exact Hd|lia|lia|].
  intros n Hn. destruct (Hok n Hn) as (_ & _ & _ & Hc). specialize (Hc x Hx). lia.
Qed.

(** Writing a link leaves the blocks alone. *)
Lemma blocks_wr_node m lo bl nh w v n :
  blocks m (lo + 32) 1 bl nh ->
  n = lo \/ n = lo + 16 \/ node_ok lo bl n -> w = n \/ w = n + 8 ->
  blocks (wr m w v) (lo + 32) 1 bl nh.
Proof.
  intros Hb Hn Hw. destruct Hn as [->|[->|Hn]].
  - apply blocks_wr_below; [exact Hb|lia].
  - apply blocks_wr_below; [exact Hb|lia].
  - apply blocks_wr; [exact Hb|]. intros x Hx.
    destruct Hn as (_ & _ & _ & Hc). specialize (Hc x Hx). lia.
Qed.

Lemma node_ok_incl lo bl bl' n :
  span bl' = span bl ->
  (forall x, In x (bounds (lo + 32) bl') -> In x (bounds (lo + 32) bl)) ->
  node_ok lo bl n -> node_ok lo bl' n.
Proof.
  intros Hs Hi (H1 & H2 & H3 & H4). unfold node_ok. rewrite Hs.
  repeat split; try assumption. intros x Hx. apply H4. apply Hi. exact Hx.
Qed.

(** Reading the tags around one block. *)
Lemma blocks_mid m a pt pre sz al post nh :
  blocks m a pt (pre ++ (sz, al) :: post) nh ->
  rd m (a + span pre) = last_tag pt pre /\
  rd m (a + span pre + 8) = tag sz al /\
  rd m (a + span pre + 16 + sz) = tag sz al /\
  rd m (a + span pre + 16 + sz + 8) = hd_tag post nh /\
  0 <= sz /\ sz mod 16 = 0 /\ (al = false -> 16 <= sz) /\
  0 <= span pre /\ 0 <= span post /\ span pre mod 16 = 0.
Proof.
  intros H. apply blocks_app in H. destruct H as [Hpre Hpost].
  pose proof (blocks_span _ _ _ _ _ Hpre). pose proof (blocks_span_mod _ _ _ _ _ Hpre).
  cbn [blocks] in Hpost. destruct Hpost as (H1 & H2 & H3 & H4 & H5 & H6).
  pose proof (blocks_span _ _ _ _ _ H6). destruct (blocks_hd _ _ _ _ _ H6) as [Hf Hh].
  repeat split; assumption.
Qed.

Lemma clear_wr_tag lo bl fl x m w v c :
  clear lo bl fl x -> In c (bounds (lo + 32) bl) -> w = c \/ w = c + 8 ->
  wr m w v x = m x.
Proof.
  intros (_ & Hc & _) Hin Hw. specialize (Hc c Hin). apply wr_out. lia.
Qed.

Lemma clear_wr_node lo bl fl x m w v n :
  clear lo bl fl x -> In n (lo :: lo + 16 :: fl) -> w = n \/ w = n + 8 ->
  wr m w v x = m x.
Proof.
  intros (Hlo & _ & Hn) Hin Hw. apply wr_out.
  destruct Hin as [<-|[<-|Hin]]; [lia|lia|]. specialize (Hn n Hin). lia.
Qed.

Lemma clear_incl lo bl fl bl' fl' x :
  (forall c, In c (bounds (lo + 32) bl') -> In c (bounds (lo + 32) bl)) ->
  (forall n, In n fl' -> In n fl) ->
  clear lo bl fl x -> clear lo bl' fl' x.
Proof.
  intros Hb Hf (H1 & H2 & H3). split; [exact H1|split].
  - intros c Hc. apply H2. apply Hb. exact Hc.
  - intros n Hn. apply H3. apply Hf. exact Hn.
Qed.

Lemma bounds_merge_incl a pre mid post al c :
  mid <> [] ->
  In c (bounds a (pre ++ (span mid - 16, al) :: post)) ->
  In c (bounds a (pre ++ mid ++ post)).
Proof.
  intros Hne Hx. apply bounds_app_in in Hx. apply bounds_app_in.
  destruct Hx as [Hx|Hx]; [left; exact Hx|right].
  apply bounds_app_in. cbn [bounds] in Hx. destruct Hx as [<-|Hx].
  - left. apply bounds_start.
  - right. replace (a + span pre + span mid)
      with (a + span pre + 16 + (span mid - 16)) by lia. exact Hx.
Qed.

(** Merging the blocks [mid] into one block, or re-tagging a block. *)
Lemma cfg_retag m lo pre mid post fl al :
  cfg m lo (pre ++ mid ++ post) fl -> mid <> [] ->
  (al = false -> 32 <= span mid) ->
  cfg (wr (wr m (lo + 32 + span pre + 8) (tag (span mid - 16) al))
          (lo + 32 + span pre + span mid) (tag (span mid - 16) al))
      lo (pre ++ (span mid - 16, al) :: post) fl /\
  forall x, clear lo (pre ++ mid ++ post) fl x ->
    wr (wr m (lo + 32 + span pre + 8) (tag (span mid - 16) al))
       (lo + 32 + span pre + span mid) (tag (span mid - 16) al) x = m x.
Proof.
  intros (Hlo & Hal & Hw & Hb & Hd & Hnd & Hok) Hne Hfree.
  split.
  2:{ intros x Hx.
      rewrite (clear_wr_tag _ _ _ _ _ _ _ (lo + 32 + span pre + span mid) Hx);
        [|apply bounds_app_in; right; apply bounds_app_in; left; apply bounds_end
         |left; reflexivity].
      apply (clear_wr_tag _ _ _ _ _ _ _ (lo + 32 + span pre) Hx);
        [apply bounds_app_in; right; apply bounds_start|right; reflexivity]. }
  pose proof Hb as Hb0.
  apply blocks_app in Hb. destruct Hb as [Hpre Hrest].
  apply blocks_app in Hrest. destruct Hrest as [Hmid Hpost].
  pose proof (blocks_span _ _ _ _ _ Hpre) as Hs1.
  pose proof (blocks_span _ _ _ _ _ Hpost) as Hs3.
  pose proof (blocks_span_mod _ _ _ _ _ Hmid) as Hm2.
  assert (Hs2 : 16 <= span mid).
  { destruct mid as [|[sz0 al0] r0]; [contradiction|]. cbn [blocks span] in *.
    destruct Hmid as (_ & _ & H0 & _ & _ & H). pose proof (blocks_span _ _ _ _ _ H). lia. }
  rewrite !span_app in Hw.
  set (b0 := lo + 32 + span pre) in *.
  set (t := tag (span mid - 16) al).
  assert (Ht : 0 <= t < W) by (apply tag_range; lia).
  assert (Hspan : span (pre ++ (span mid - 16, al) :: post) = span (pre ++ mid ++ post)).
  { rewrite !span_app. cbn [span]. lia. }
  assert (Hincl : forall x, In x (bounds (lo + 32) (pre ++ (span mid - 16, al) :: post)) ->
                            In x (bounds (lo + 32) (pre ++ mid ++ post))).
  { intros x Hx. apply bounds_app_in in Hx. apply bounds_app_in.
    destruct Hx as [Hx|Hx]; [left; exact Hx|right]. fold b0 in Hx |- *.
    apply bounds_app_in. cbn [bounds] in Hx. destruct Hx as [<-|Hx].
    - left. apply bounds_start.
    - right. replace (b0 + span mid) with (b0 + 16 + (span mid - 16)) by lia. exact Hx. }
  unfold cfg. rewrite Hspan. rewrite !span_app.
  split; [exact Hlo|]. split; [exact Hal|]. split; [exact Hw|]. split; [|split; [|split]].
  - apply blocks_app. split.
    + cbn [hd_tag]. fold t. apply blocks_wr_above; [|fold b0; lia].
      replace (b0 + 8) with (lo + 32 + span pre + 8) by (unfold b0; lia).
      eapply blocks_set_nh; [exact Hpre|exact Ht].
    + fold b0. cbn [blocks]. fold t.
      destruct (blocks_hd _ _ _ _ _ Hmid) as [Hh1 _]. fold b0 in Hh1.
      split; [rewrite !rd_wr_other by lia; exact Hh1|].
      split; [rewrite rd_wr_other by lia; apply rd_wr_same; exact Ht|].
      split; [lia|]. split; [mlia|]. split; [intros E; specialize (Hfree E); lia|].
      replace (b0 + 16 + (span mid - 16)) with (b0 + span mid) by lia.
      eapply blocks_set_pt; [|exact Ht].
      apply blocks_wr_below; [exact Hpost|lia].
  - apply (dll_wr_tag _ lo (pre ++ mid ++ post) fl _ _ (b0 + span mid)).
    + apply (dll_wr_tag _ lo (pre ++ mid ++ post) fl _ _ b0); try assumption.
      * apply bounds_app_in. right. apply bounds_start.
      * unfold b0. lia.
      * right. reflexivity.
    + exact Hok.
    + apply bounds_app_in. right. fold b0. apply bounds_app_in. left. apply bounds_end.
    + unfold b0. lia.
    + left. reflexivity.
  - exact Hnd.
  - intros n Hn. apply (node_ok_incl lo (pre ++ mid ++ post)); [exact Hspan|exact Hincl|].
    apply Hok. exact Hn.
Qed.

(** Linking a node in front of the tail sentinel. *)
Lemma cfg_add m lo bl fl link :
  cfg m lo bl fl -> node_ok lo bl link -> ~ In link fl ->
  cfg (wr (wr (wr (wr m link (last_of lo fl)) (link + 8) (lo + 16)) (lo + 16) link)
          (last_of lo fl + 8) link)
      lo bl (fl ++ [link]) /\
  forall x, clear lo bl (link :: fl) x ->
    wr (wr (wr (wr m link (last_of lo fl)) (link + 8) (lo + 16)) (lo + 16) link)
       (last_of lo fl + 8) link x = m x.
Proof.
  intros Hc Hlk Hnin. pose proof Hc as (Hlo & Hal & Hw & Hb & Hd & Hnd & Hok).
  split.
  2:{ intros x Hx.
      rewrite (clear_wr_node _ _ _ _ _ _ _ (last_of lo fl) Hx);
        [|destruct (last_of_in lo fl) as [E|Hin];
          [left; exact E|right; right; right; exact Hin]
         |right; reflexivity].
      rewrite (clear_wr_node _ _ _ _ _ _ _ (lo + 16) Hx);
        [|right; left; reflexivity|left; reflexivity].
      rewrite (clear_wr_node _ _ _ _ _ _ _ link Hx);
        [|right; right; left; reflexivity|right; reflexivity].
      apply (clear_wr_node _ _ _ _ _ _ _ link Hx);
        [right; right; left; reflexivity|left; reflexivity]. }
  assert (Hlast : last_of lo fl = lo \/ last_of lo fl = lo + 16 \/
                  node_ok lo bl (last_of lo fl)).
  { destruct (last_of_in lo fl) as [<-|Hin]; [left; reflexivity|].
    right. right. apply Hok. exact Hin. }
  unfold cfg. split; [exact Hlo|]. split; [exact Hal|]. split; [exact Hw|].
  split; [|split; [|split]].
  - eapply blocks_wr_node; [|exact Hlast|right; reflexivity].
    eapply blocks_wr_node; [|right; left; reflexivity|left; reflexivity].
    eapply blocks_wr_node; [|right; right; exact Hlk|right; reflexivity].
    eapply blocks_wr_node; [exact Hb|right; right; exact Hlk|left; reflexivity].
  - destruct (node_ok_cell lo bl link Hlo Hw Hlk) as [Hr Hm].
    destruct Hlk as (_ & Hl48 & _).
    apply dll_add; try assumption; try lia.
    + intros x Hx. destruct Hx as [<-|[<-|[<-|Hx]]].
      * apply (cfg_cells _ _ _ _ _ Hc). left. reflexivity.
      * apply (cfg_cells _ _ _ _ _ Hc). right. left. reflexivity.
      * split; assumption.
      * apply (cfg_cells _ _ _ _ _ Hc). right. right. exact Hx.
    + intros x Hx. destruct (cfg_sentinels _ _ _ _ _ Hc Hx) as [H1 H2].
      repeat split; try assumption. intros ->. contradiction.
  - apply NoDup_app; [exact Hnd|constructor; [intros []|constructor]|].
    intros x Hx [<-|[]]. contradiction.
  - intros n Hn. apply in_app_or in Hn. destruct Hn as [Hn|[<-|[]]];
      [apply Hok; exact Hn|exact Hlk].
Qed.

(** Unlinking a node. *)
Lemma cfg_del m lo bl l1 n l2 :
  cfg m lo bl (l1 ++ n :: l2) ->
  rd m n = last_of lo l1 /\ rd m (n + 8) = hd (lo + 16) l2 /\
  cfg (wr (wr m (last_of lo l1 + 8) (hd (lo + 16) l2)) (hd (lo + 16) l2) (last_of lo l1))
      lo bl (l1 ++ l2) /\
  forall x, clear lo bl (l1 ++ n :: l2) x ->
    wr (wr m (last_of lo l1 + 8) (hd (lo + 16) l2)) (hd (lo + 16) l2) (last_of lo l1) x
    = m x.
Proof.
  intros Hc. pose proof Hc as (Hlo & Hal & Hw & Hb & Hd & Hnd & Hok).
  assert (Hfr : forall x, clear lo bl (l1 ++ n :: l2) x ->
    wr (wr m (last_of lo l1 + 8) (hd (lo + 16) l2)) (hd (lo + 16) l2) (last_of lo l1) x
    = m x).
  { intros x Hx.
    rewrite (clear_wr_node _ _ _ _ _ _ _ (hd (lo + 16) l2) Hx);
      [|destruct l2 as [|n2 r2]; cbn [hd];
        [right; left; reflexivity
        |right; right; apply in_or_app; right; right; left; reflexivity]
       |left; reflexivity].
    apply (clear_wr_node _ _ _ _ _ _ _ (last_of lo l1) Hx);
      [destruct (last_of_in lo l1) as [E|Hin];
        [left; exact E|right; right; apply in_or_app; left; exact Hin]
      |right; reflexivity]. }
  destruct (dll_del m n l2 (lo + 16) l1 lo Hd) as (E1 & E2 & E3).
  { intros x Hx. apply (cfg_cells _ _ _ _ _ Hc). exact Hx. }
  { lia. }
  { intros x Hx. apply (cfg_sentinels _ _ _ _ _ Hc Hx). }
  { exact Hnd. }
  split; [exact E1|]. split; [exact E2|]. split; [|exact Hfr].
  assert (Hlast : last_of lo l1 = lo \/ last_of lo l1 = lo + 16 \/
                  node_ok lo bl (last_of lo l1)).
  { destruct (last_of_in lo l1) as [<-|Hin]; [left; reflexivity|].
    right. right. apply Hok. apply in_or_app. left. exact Hin. }
  assert (Hnext : hd (lo + 16) l2 = lo \/ hd (lo + 16) l2 = lo + 16 \/
                  node_ok lo bl (hd (lo + 16) l2)).
  { destruct l2 as [|n2 r2]; cbn [hd]; [right; left; reflexivity|].
    right. right. apply Hok. apply in_or_app. right. right. left. reflexivity. }
  unfold cfg. split; [exact Hlo|]. split; [exact Hal|]. split; [exact Hw|].
  split; [|split; [|split]].
  - eapply blocks_wr_node; [|exact Hnext|left; reflexivity].
    eapply blocks_wr_node; [exact Hb|exact Hlast|right; reflexivity].
  - exact E3.
  - apply NoDup_remove_1 in Hnd. exact Hnd.
  - intros x Hx. apply Hok. apply in_app_or in Hx. apply in_or_app.
    destruct Hx as [Hx|Hx]; [left; exact Hx|right; right; exact Hx].
Qed.

(** ** The explicit list: neighbours and nodes of a changed block list *)

Lemma naf_cons2 sz al sz' al' r :
  no_adjacent_free ((sz, al) :: (sz', al') :: r) =
  (al || al') && no_adjacent_free ((sz', al') :: r).
Proof. reflexivity. Qed.

Lemma naf_app l1 l2 :
  no_adjacent_free (l1 ++ l2) =
  no_adjacent_free l1 && no_adjacent_free l2 && (ends_alloc l1 || starts_alloc l2).
Proof.
  induction l1 as [|[sz al] r IH]; cbn [app].
  - cbn [no_adjacent_free ends_alloc]. rewrite andb_true_r. reflexivity.
  - destruct r as [|[sz' al'] r'].
    + cbn [app no_adjacent_free ends_alloc starts_alloc].
      destruct l2 as [|[sz2 al2] r2]; cbn [starts_alloc].
      * rewrite orb_true_r. reflexivity.
      * destruct al, al2; cbn [orb andb]; rewrite ?andb_true_r, ?andb_false_r; reflexivity.
    + cbn [app] in IH |- *. rewrite !naf_cons2. rewrite IH.
      change (ends_alloc ((sz, al) :: (sz', al') :: r'))
        with (ends_alloc ((sz', al') :: r')).
      rewrite !andb_assoc. reflexivity.
Qed.

Lemma ends_alloc_snoc l sz al : ends_alloc (l ++ [(sz, al)]) = al.
Proof.
  induction l as [|[sz' al'] r IH]; cbn [app ends_alloc]; [reflexivity|].
  destruct (r ++ [(sz, al)]) eqn:E; [destruct r; discriminate|]. exact IH.
Qed.

Lemma ends_alloc_tag l : exists psz pal,
  last_tag 1 l = tag psz pal /\ ends_alloc l = pal /\
  ((l = [] /\ psz = 0) \/ exists l', l = l' ++ [(psz, pal)]).
Proof.
  destruct l as [|b0 r] using rev_ind.
  - exists 0, true. split; [reflexivity|]. split; [reflexivity|]. left. split; reflexivity.
  - destruct b0 as [psz pal]. exists psz, pal.
    rewrite last_tag_app. cbn [last_tag]. split; [reflexivity|].
    split; [apply ends_alloc_snoc|]. right. exists r. reflexivity.
Qed.

Lemma starts_alloc_tag l : exists nsz nal,
  hd_tag l 1 = tag nsz nal /\ starts_alloc l = nal /\
  ((l = [] /\ nsz = 0 /\ nal = true) \/ exists l', l = (nsz, nal) :: l').
Proof.
  destruct l as [|[nsz nal] r].
  - exists 0, true. split; [reflexivity|]. split; [reflexivity|]. left. repeat split.
  - exists nsz, nal. split; [reflexivity|]. split; [reflexivity|]. right.
    exists r. reflexivity.
Qed.

Lemma alloc_not_free_node m a pt pre sz post nh :
  blocks m a pt (pre ++ (sz, true) :: post) nh ->
  ~ In (a + span pre + 16) (free_nodes a (pre ++ (sz, true) :: post)).
Proof.
  intros H Hin. apply blocks_app in H. destruct H as [Hpre Hpost].
  rewrite free_nodes_app in Hin. apply in_app_or in Hin. destruct Hin as [Hin|Hin].
  - apply (free_nodes_lt _ _ _ _ _ _ Hpre) in Hin. lia.
  - cbn [free_nodes blocks] in *. destruct Hpost as (_ & _ & H0 & _ & _ & Hpost).
    apply (free_nodes_lt _ _ _ _ _ _ Hpost) in Hin. lia.
Qed.

Lemma NoDup_mid_in {A} (l1 l2 : list A) q x :
  NoDup (l1 ++ q :: l2) -> (In x (l1 ++ l2) <-> In x (l1 ++ q :: l2) /\ x <> q).
Proof.
  intros Hnd. pose proof (NoDup_remove_2 _ _ _ Hnd) as Hq. split.
  - intros Hx. split.
    + apply in_app_or in Hx. apply in_or_app. destruct Hx; [left|right; right]; assumption.
    + intros ->. contradiction.
  - intros [Hx Hne]. apply in_app_or in Hx. apply in_or_app.
    destruct Hx as [Hx|[Hx|Hx]]; [left; exact Hx|congruence|right; exact Hx].
Qed.

(** ** The explicit list: coalescing *)

Lemma prev_info m a pre rest nh :
  blocks m a 1 (pre ++ rest) nh ->
  exists psz pal,
    last_tag 1 pre = tag psz pal /\ ends_alloc pre = pal /\
    0 <= psz /\ psz mod 16 = 0 /\ (pal = false -> 16 <= psz) /\
    ((pre = [] /\ psz = 0 /\ pal = true) \/ exists pre', pre = pre' ++ [(psz, pal)]).
Proof.
  intros Hb. destruct (ends_alloc_tag pre) as (psz & pal & Hlt & Hea & Hpre).
  exists psz, pal. split; [exact Hlt|]. split; [exact Hea|].
  destruct Hpre as [[-> ->]|[pre' ->]].
  - cbn in Hea. subst pal. split; [lia|]. split; [reflexivity|].
    split; [discriminate|]. left. repeat split.
  - rewrite <- app_assoc in Hb. cbn [app] in Hb.
    destruct (blocks_mid _ _ _ _ _ _ _ _ Hb) as (_ & _ & _ & _ & H0 & Hm & H16 & _).
    split; [exact H0|]. split; [exact Hm|]. split; [exact H16|].
    right. exists pre'. reflexivity.
Qed.

Lemma next_info m a pt post :
  blocks m a pt post 1 ->
  exists nsz nal,
    hd_tag post 1 = tag nsz nal /\ starts_alloc post = nal /\
    0 <= nsz /\ nsz mod 16 = 0 /\ (nal = false -> 16 <= nsz) /\
    ((post = [] /\ nsz = 0 /\ nal = true) \/ exists post', post = (nsz, nal) :: post').
Proof.
  intros Hb. destruct post as [|[nsz nal] post'].
  - exists 0, true. split; [reflexivity|]. split; [reflexivity|]. split; [lia|].
    split; [reflexivity|]. split; [discriminate|]. left. repeat split.
  - exists nsz, nal. cbn [blocks] in Hb. destruct Hb as (_ & _ & H0 & Hm & H16 & _).
    split; [reflexivity|]. split; [reflexivity|]. split; [exact H0|].
    split; [exact Hm|]. split; [exact H16|]. right. exists post'. reflexivity.
Qed.

Lemma cfg_node_arena m lo bl fl x max :
  cfg m lo bl fl -> lo + 32 + span bl + 16 <= max ->
  In x (lo :: lo + 16 :: fl) -> lo <= x /\ x + 16 <= max /\ 0 <= x.
Proof.
  intros (Hlo & Hal & Hw & Hb & _ & _ & Hok) Hmax Hx.
  pose proof (blocks_span _ _ _ _ _ Hb).
  destruct Hx as [<-|[<-|Hx]]; [lia|lia|].
  destruct (Hok x Hx) as (_ & H1 & H2 & _). lia.
Qed.

Lemma last_of_mem d l : In (last_of d l) (d :: l).
Proof. apply last_of_in. Qed.

Lemma hd_mem (d : Z) l : In (hd d l) (d :: l).
Proof. destruct l; cbn [hd]; [left|right; left]; reflexivity. Qed.

(** The block at [b0] has just been marked free and linked; the block
    before it is allocated, the block after it is free: the two are
    merged and the node of the second is unlinked. *)
Lemma coalesce_next b m lo brk max pre sz nsz post l1 l2 :
  let b0 := lo + 32 + span pre in
  let q := b0 + 16 + sz + 16 in
  let t := tag (sz + nsz + 16) false in
  let pv := last_of lo l1 in
  let nx := hd (lo + 16) l2 in
  cfg m lo (pre ++ (sz, false) :: (nsz, false) :: post) (l1 ++ q :: l2) ->
  ends_alloc pre = true ->
  lo + 32 + span (pre ++ (sz, false) :: (nsz, false) :: post) + 16 <= max -> max < W ->
  wpx b (coalesce b0 sz)
    (fun _ s' => exists m',
       s' = St m' lo brk max lo (lo + 16) /\
       cfg m' lo (pre ++ (sz + nsz + 16, false) :: post) (l1 ++ l2) /\
       forall x, clear lo (pre ++ (sz, false) :: (nsz, false) :: post) (l1 ++ q :: l2) x ->
                 m' x = m x)
    (St m lo brk max lo (lo + 16)).
Proof.
  intros b0 q t pv nx Hc Hpa Hmax HW.
  pose proof Hc as (Hlo & Hal & Hw & Hb & Hd & Hnd & Hok).
  destruct (blocks_mid _ _ _ _ _ _ _ _ Hb)
    as (Hpt & Hhd & Hft & Hnh & Hsz0 & Hszm & Hsz16 & Hsp & Hspo & Hspm).
  specialize (Hsz16 eq_refl). cbn [hd_tag] in Hnh. fold b0 in Hpt, Hhd, Hft, Hnh.
  pose proof Hb as Hb'. rewrite (app_cons_assoc pre (sz, false)) in Hb'.
  destruct (blocks_mid _ _ _ _ _ _ _ _ Hb')
    as (_ & _ & Hnft & _ & Hn0 & Hnm & Hn16 & _ & Hspo' & _).
  specialize (Hn16 eq_refl). clear Hb'.
  rewrite span_app in Hnft. cbn [span] in Hnft. fold b0 in Hnft.
  rewrite span_app in Hmax. cbn [span] in Hmax, Hspo. fold b0 in Hmax.
  destruct (prev_info _ _ _ _ _ Hb) as (psz & pal & Hlt & Hea & Hpsz0 & Hpszm16 & _).
  rewrite Hpa in Hea. subst pal. rewrite Hlt in Hpt.
  assert (Hpszm : psz mod 2 = 0) by mlia.
  unfold coalesce.
  apply wpx_bind. eapply wpx_is_previous_allocated; [exact Hlo|exact HW|lia|lia|exact Hpt|exact Hpszm|].
  cbn [negb].
  apply wpx_bind. eapply (wpx_is_next_allocated b m lo brk max _ _ b0 sz false nsz false);
    [exact Hlo|exact HW|lia|lia|lia|exact Hhd|lia|mlia|exact Hnh|lia|mlia|lia|].
  cbn [negb].
  apply wpx_bind. eapply (wpx_get_next_block b m lo brk max _ _ b0 sz false);
    [exact Hlo|exact HW|lia|lia|lia|exact Hhd|lia|mlia|].
  apply wpx_bind. eapply (exp_wpx_get_size b m lo brk max _ _ (b0 + 16 + sz) nsz false);
    [exact Hlo|exact HW|lia|lia|lia|exact Hnh|lia|mlia|].
  rewrite ALIGNMENT_eq. rewrite (wadd_small nsz 16) by lia. rewrite wadd_small by lia.
  replace (sz + (nsz + 16)) with (sz + nsz + 16) by lia.
  apply wpx_bind. eapply wpx_set_header_footer; [exact Hlo|exact HW|lia|lia|lia|lia|mlia|].
  fold t.
  (* the merged tags *)
  pose proof (cfg_retag m lo pre [(sz, false); (nsz, false)] post (l1 ++ q :: l2) false) as Hre.
  cbn [span app] in Hre.
  replace (16 + sz + (16 + nsz + 0) - 16) with (sz + nsz + 16) in Hre by lia.
  replace (lo + 32 + span pre + (16 + sz + (16 + nsz + 0)))
    with (b0 + 16 + (sz + nsz + 16)) in Hre by (unfold b0; lia).
  fold b0 t in Hre.
  specialize (Hre Hc ltac:(discriminate) ltac:(intros _; lia)).
  destruct Hre as [Hre Hfr1].
  destruct (cfg_del _ _ _ _ _ _ Hre) as (Epv & Enx & Hfin & Hfr2).
  fold pv nx in Epv, Enx, Hfin, Hfr2.
  destruct (cfg_node_arena _ _ _ _ pv max Hre) as (Hpv1 & Hpv2 & Hpv3).
  { rewrite span_app. cbn [span]. fold b0. lia. }
  { destruct (last_of_mem lo l1) as [E|Hin]; [left; exact E|].
    right. right. apply in_or_app. left. exact Hin. }
  destruct (cfg_node_arena _ _ _ _ nx max Hre) as (Hnx1 & Hnx2 & Hnx3).
  { rewrite span_app. cbn [span]. fold b0. lia. }
  { destruct (hd_mem (lo + 16) l2) as [E|Hin]; [right; left; exact E|].
    right. right. apply in_or_app. right. right. exact Hin. }
  assert (Hpvq : pv <> q /\ pv mod 16 = 0).
  { split.
    - intros E. destruct (last_of_mem lo l1) as [E'|Hin].
      + fold pv in E'. unfold q, b0 in E. lia.
      + fold pv in Hin. rewrite E in Hin. apply NoDup_remove_2 in Hnd.
        apply Hnd. apply in_or_app. left. exact Hin.
    - apply (cfg_cells _ _ _ _ pv Hre).
      destruct (last_of_mem lo l1) as [E|Hin]; [left; exact E|].
      right. right. apply in_or_app. left. exact Hin. }
  destruct Hpvq as [Hpvq Hpvm].
  assert (Hqm : q mod 16 = 0) by (unfold q, b0; mlia).
  eapply (wpx_delete_linked_node b _ lo brk max _ _ (b0 + 16 + sz) pv nx).
  - exact Hlo.
  - exact HW.
  - lia.
  - lia.
  - lia.
  - exact Epv.
  - replace (b0 + 16 + sz + 24) with (q + 8) by (unfold q; lia). exact Enx.
  - lia.
  - lia.
  - lia.
  - lia.
  - unfold q in *. mlia.
  - eexists. split; [reflexivity|]. split; [exact Hfin|].
    intros x Hx. rewrite Hfr2; [apply Hfr1; exact Hx|].
    revert Hx. apply clear_incl; [|auto].
    intros c Hc'.
    apply (bounds_merge_incl (lo + 32) pre [(sz, false); (nsz, false)] post false c);
      [discriminate|]. cbn [span].
    replace (16 + sz + (16 + nsz + 0) - 16) with (sz + nsz + 16) by lia. exact Hc'.
Qed.

Lemma node_apart m lo bl fl n c :
  cfg m lo bl fl -> In n (lo :: lo + 16 :: fl) -> In c (bounds (lo + 32) bl) ->
  n + 16 <= c \/ c + 16 <= n.
Proof.
  intros (Hlo & Hal & Hw & Hb & _ & _ & Hok) Hn Hc.
  pose proof (bounds_range _ _ _ _ _ _ Hb Hc) as [Hr _].
  destruct Hn as [<-|[<-|Hn]]; [lia|lia|].
  destruct (Hok n Hn) as (_ & _ & _ & H). specialize (H c Hc). lia.
Qed.

(** The block at [b0] has just been marked free and linked; the block
    before it is free: the two are merged and the node of [b0] is
    unlinked again; if the block after it is free as well, it is merged
    in and its node unlinked. *)
Lemma coalesce_prev b m lo brk max pre' psz sz post fl :
  let pb := lo + 32 + span pre' in
  let b0 := pb + 16 + psz in
  let q := b0 + 16 + sz + 16 in
  let bl := pre' ++ (psz, false) :: (sz, false) :: post in
  cfg m lo bl (fl ++ [b0 + 16]) ->
  lo + 32 + span bl + 16 <= max -> max < W ->
  (starts_alloc post = false -> In q fl) ->
  wpx b (coalesce b0 sz)
    (fun _ s' => exists m',
       s' = St m' lo brk max lo (lo + 16) /\
       (forall x, clear lo bl (fl ++ [b0 + 16]) x -> m' x = m x) /\
       ((starts_alloc post = true /\
         cfg m' lo (pre' ++ (psz + sz + 16, false) :: post) fl) \/
        (exists nsz post' l1 l2,
           post = (nsz, false) :: post' /\ fl = l1 ++ q :: l2 /\
           cfg m' lo (pre' ++ (psz + sz + nsz + 32, false) :: post') (l1 ++ l2))))
    (St m lo brk max lo (lo + 16)).
Proof.
  intros pb b0 q bl Hc Hmax HW Hq.
  pose proof Hc as (Hlo & Hal & Hw & Hb & Hd & Hnd & Hok).
  unfold bl in Hb.
  destruct (blocks_mid _ _ _ _ _ _ _ _ Hb)
    as (_ & Hphd & Hpft & Hhd & Hp0 & Hpm & Hp16 & Hsp & _ & Hspm).
  specialize (Hp16 eq_refl). cbn [hd_tag] in Hhd. fold pb in Hphd, Hpft, Hhd.
  fold b0 in Hpft. replace (pb + 16 + psz + 8) with (b0 + 8) in Hhd by (unfold b0; lia).
  pose proof Hb as Hb'. rewrite (app_cons_assoc pre' (psz, false)) in Hb'.
  destruct (blocks_mid _ _ _ _ _ _ _ _ Hb')
    as (_ & _ & Hft & Hnh & Hs0 & Hsm & Hs16 & _ & Hspo & _).
  specialize (Hs16 eq_refl).
  rewrite span_app in Hft, Hnh. cbn [span] in Hft, Hnh.
  replace (lo + 32 + (span pre' + (16 + psz + 0)) + 16 + sz) with (b0 + 16 + sz)
    in Hft, Hnh by (unfold b0, pb; lia).
  apply blocks_app in Hb'. destruct Hb' as [_ Hb'].
  cbn [blocks] in Hb'. destruct Hb' as (_ & _ & _ & _ & _ & Hpost).
  destruct (next_info _ _ _ _ Hpost) as (nsz & nal & Hnt & Hsa & Hn0 & Hnm & Hn16 & Hnpost).
  rewrite Hnt in Hnh. clear Hpost.
  unfold bl in Hmax. rewrite span_app in Hmax. cbn [span] in Hmax. fold pb in Hmax.
  set (pv := last_of lo fl).
  assert (Hpvin : In pv (lo :: lo + 16 :: fl ++ [b0 + 16])).
  { destruct (last_of_mem lo fl) as [E|Hin]; [left; exact E|].
    right. right. apply in_or_app. left. exact Hin. }
  destruct (cfg_node_arena _ _ _ _ pv max Hc) as (Hpv1 & Hpv2 & Hpv3);
    [unfold bl; rewrite span_app; cbn [span]; fold pb; lia|exact Hpvin|].
  destruct (cfg_cells _ _ _ _ pv Hc Hpvin) as [_ Hpvm].
  assert (Hpvb : pv + 16 <= b0 \/ b0 + 16 <= pv).
  { apply (node_apart _ _ _ _ pv b0 Hc Hpvin). unfold bl.
    rewrite (app_cons_assoc pre' (psz, false)). apply bounds_app_in. right.
    rewrite span_app. cbn [span]. replace (lo + 32 + (span pre' + (16 + psz + 0))) with b0
      by (unfold b0, pb; lia). apply bounds_start. }
  assert (Hpvp : pv <> b0 + 16).
  { intros E. destruct (last_of_mem lo fl) as [E'|Hin].
    - fold pv in E'. unfold b0, pb in E. lia.
    - fold pv in Hin. rewrite E in Hin. apply NoDup_remove_2 in Hnd.
      apply Hnd. rewrite app_nil_r. exact Hin. }
  unfold coalesce.
  apply wpx_bind. eapply wpx_is_previous_allocated;
    [exact Hlo|exact HW|lia|lia|exact Hpft|mlia|].
  cbn [negb].
  apply wpx_bind. eapply wpx_get_previous_size;
    [exact Hlo|exact HW|lia|lia|exact Hpft|lia|mlia|].
  rewrite ALIGNMENT_eq. rewrite (wadd_small psz 16) by lia. rewrite wadd_small by lia.
  apply wpx_bind. eapply wpx_get_previous_block;
    [exact Hlo|exact HW|lia|lia|exact Hpft|lia|mlia|unfold b0, pb; lia|].
  replace (b0 - psz - 16) with pb by (unfold b0; lia).
  replace (sz + (psz + 16)) with (psz + sz + 16) by lia.
  apply wpx_bind. eapply wpx_set_header_footer;
    [exact Hlo|exact HW|unfold pb; lia|lia|unfold pb; lia|lia|mlia|].
  set (t1 := tag (psz + sz + 16) false).
  pose proof (cfg_retag m lo pre' [(psz, false); (sz, false)] post (fl ++ [b0 + 16]) false)
    as Hre.
  cbn [span app] in Hre.
  replace (16 + psz + (16 + sz + 0) - 16) with (psz + sz + 16) in Hre by lia.
  replace (lo + 32 + span pre' + (16 + psz + (16 + sz + 0)))
    with (pb + 16 + (psz + sz + 16)) in Hre by (unfold pb; lia).
  fold pb t1 in Hre.
  specialize (Hre Hc ltac:(discriminate) ltac:(intros _; lia)).
  destruct Hre as [Hre Hfr1].
  set (m1 := wr (wr m (pb + 8) t1) (pb + 16 + (psz + sz + 16)) t1) in *.
  destruct (cfg_del _ _ _ _ _ _ Hre) as (Epv & Enx & Hc2 & Hfr2).
  fold pv in Epv, Hc2, Hfr2. cbn [hd] in Enx, Hc2, Hfr2. rewrite app_nil_r in Hc2.
  set (m2 := wr (wr m1 (pv + 8) (lo + 16)) (lo + 16) pv) in *.
  apply wpx_bind.
  eapply (wpx_delete_linked_node b m1 lo brk max _ _ b0 pv (lo + 16));
    [exact Hlo|exact HW|unfold b0, pb; lia|lia|unfold b0, pb; lia|exact Epv
    |replace (b0 + 24) with (b0 + 16 + 8) by lia; exact Enx
    |lia|lia|lia|lia|mlia|].
  fold m2.
  (* the stale header and footer of the absorbed block are still there *)
  assert (Hst8 : rd m2 (b0 + 8) = tag sz false).
  { unfold m2, m1. rewrite !rd_wr_other by (unfold b0 in *; lia). exact Hhd. }
  assert (Hst0 : rd m2 b0 = tag psz false).
  { unfold m2, m1. rewrite !rd_wr_other by (unfold b0 in *; lia). exact Hpft. }
  pose proof Hc2 as (_ & _ & _ & Hb2 & _ & _ & _).
  destruct (blocks_mid _ _ _ _ _ _ _ _ Hb2) as (_ & _ & _ & Hnh2 & _).
  fold pb in Hnh2. rewrite Hnt in Hnh2.
  replace (pb + 16 + (psz + sz + 16) + 8) with (b0 + 16 + sz + 8) in Hnh2
    by (unfold b0; lia).
  assert (Hfr12 : forall x, clear lo bl (fl ++ [b0 + 16]) x -> m2 x = m x).
  { intros x Hx. unfold m2. rewrite Hfr2; [apply Hfr1; exact Hx|].
    revert Hx. apply clear_incl; [|auto]. intros c Hc'.
    apply (bounds_merge_incl (lo + 32) pre' [(psz, false); (sz, false)] post false c);
      [discriminate|]. cbn [span].
    replace (16 + psz + (16 + sz + 0) - 16) with (psz + sz + 16) by lia. exact Hc'. }
  assert (Hspo' : 0 <= span post) by lia.
  apply wpx_bind.
  eapply (wpx_is_next_allocated b m2 lo brk max _ _ b0 sz false nsz nal);
    [exact Hlo|exact HW|unfold b0, pb; lia|lia|unfold b0, pb; lia|exact Hst8|lia|mlia
    |exact Hnh2|lia|mlia| |].
  { intros E. destruct nal; [reflexivity|]. specialize (Hn16 eq_refl). lia. }
  destruct nal; cbn [negb].
  - (* the block after is allocated *)
    apply wpx_ret. exists m2. split; [reflexivity|]. split; [exact Hfr12|].
    left. split; [exact Hsa|exact Hc2].
  - (* the block after is free too *)
    specialize (Hn16 eq_refl).
    destruct Hnpost as [(_ & _ & E)|[post' ->]]; [discriminate|].
    cbn [span] in Hmax.
    assert (Hspo2 : 0 <= span post').
    { pose proof Hb2 as Hb2'. rewrite (app_cons_assoc pre' (psz + sz + 16, false)) in Hb2'.
      destruct (blocks_mid _ _ _ _ _ _ _ _ Hb2') as (_ & _ & _ & _ & _ & _ & _ & _ & H & _).
      exact H. }
    destruct (in_split q fl (Hq Hsa)) as (l1 & l2 & ->).
    apply wpx_bind.
    eapply (wpx_get_next_block b m2 lo brk max _ _ b0 sz false);
      [exact Hlo|exact HW|unfold b0, pb; lia|lia|unfold b0, pb; lia|exact Hst8|lia|mlia|].
    apply wpx_bind.
    eapply (exp_wpx_get_size b m2 lo brk max _ _ (b0 + 16 + sz) nsz false);
      [exact Hlo|exact HW|unfold b0, pb; lia|lia|unfold b0, pb; lia|exact Hnh2|lia|mlia|].
    rewrite (wadd_small nsz 16) by lia. rewrite wadd_small by lia.
    apply wpx_bind. eapply wpx_get_previous_block;
      [exact Hlo|exact HW|unfold b0, pb; lia|lia|exact Hst0|lia|mlia|unfold b0, pb; lia|].
    replace (b0 - psz - 16) with pb by (unfold b0; lia).
    replace (psz + sz + 16 + (nsz + 16)) with (psz + sz + nsz + 32) by lia.
    apply wpx_bind. eapply wpx_set_header_footer;
      [exact Hlo|exact HW|unfold pb; lia|lia|unfold pb; lia|lia|mlia|].
    set (t2 := tag (psz + sz + nsz + 32) false).
    pose proof (cfg_retag m2 lo pre' [(psz + sz + 16, false); (nsz, false)] post'
                  (l1 ++ q :: l2) false) as Hre3.
    cbn [span app] in Hre3.
    replace (16 + (psz + sz + 16) + (16 + nsz + 0) - 16) with (psz + sz + nsz + 32)
      in Hre3 by lia.
    replace (lo + 32 + span pre' + (16 + (psz + sz + 16) + (16 + nsz + 0)))
      with (pb + 16 + (psz + sz + nsz + 32)) in Hre3 by (unfold pb; lia).
    fold pb t2 in Hre3.
    specialize (Hre3 Hc2 ltac:(discriminate) ltac:(intros _; lia)).
    destruct Hre3 as [Hre3 Hfr3].
    set (m3 := wr (wr m2 (pb + 8) t2) (pb + 16 + (psz + sz + nsz + 32)) t2) in *.
    destruct (cfg_del _ _ _ _ _ _ Hre3) as (Epv4 & Enx4 & Hc4 & Hfr4).
    set (pv4 := last_of lo l1) in *. set (nx4 := hd (lo + 16) l2) in *.
    assert (Hpv4in : In pv4 (lo :: lo + 16 :: l1 ++ q :: l2)).
    { destruct (last_of_mem lo l1) as [E|Hin]; [left; exact E|].
      right. right. apply in_or_app. left. exact Hin. }
    assert (Hnx4in : In nx4 (lo :: lo + 16 :: l1 ++ q :: l2)).
    { destruct (hd_mem (lo + 16) l2) as [E|Hin]; [right; left; exact E|].
      right. right. apply in_or_app. right. right. exact Hin. }
    destruct (cfg_node_arena _ _ _ _ pv4 max Hre3) as (Hp41 & Hp42 & Hp43);
      [rewrite span_app; cbn [span]; fold pb; lia|exact Hpv4in|].
    destruct (cfg_node_arena _ _ _ _ nx4 max Hre3) as (Hn41 & Hn42 & Hn43);
      [rewrite span_app; cbn [span]; fold pb; lia|exact Hnx4in|].
    destruct (cfg_cells _ _ _ _ pv4 Hre3 Hpv4in) as [_ Hpv4m].
    assert (Hpv4q : pv4 <> q).
    { intros E. destruct (last_of_mem lo l1) as [E'|Hin].
      - fold pv4 in E'. unfold q, b0, pb in E. lia.
      - fold pv4 in Hin. rewrite E in Hin.
        pose proof Hre3 as (_ & _ & _ & _ & _ & Hnd3 & _).
        apply NoDup_remove_2 in Hnd3. apply Hnd3. apply in_or_app. left. exact Hin. }
    assert (Hqm : q mod 16 = 0) by (unfold q, b0, pb; mlia).
    eapply (wpx_delete_linked_node b m3 lo brk max _ _ (b0 + 16 + sz) pv4 nx4);
      [exact Hlo|exact HW|unfold b0, pb; lia|lia|unfold b0, pb; lia|exact Epv4
      |replace (b0 + 16 + sz + 24) with (q + 8) by (unfold q; lia); exact Enx4
      |lia|lia|lia|lia|unfold q in *; mlia|].
    eexists. split; [reflexivity|]. split.
    + intros x Hx. rewrite Hfr4.
      * rewrite Hfr3; [apply Hfr12; exact Hx|].
        revert Hx. apply clear_incl.
        -- intros c Hc'.
           apply (bounds_merge_incl (lo + 32) pre' [(psz, false); (sz, false)]
                    ((nsz, false) :: post') false c); [discriminate|]. cbn [span].
           replace (16 + psz + (16 + sz + 0) - 16) with (psz + sz + 16) by lia. exact Hc'.
        -- intros n Hn. apply in_or_app. left. exact Hn.
      * revert Hx. apply clear_incl.
        -- intros c Hc'.
           apply (bounds_merge_incl (lo + 32) pre'
                    [(psz, false); (sz, false); (nsz, false)] post' false c);
             [discriminate|]. cbn [span].
           replace (16 + psz + (16 + sz + (16 + nsz + 0)) - 16)
             with (psz + sz + nsz + 32) by lia. exact Hc'.
        -- intros n Hn. apply in_or_app. left. exact Hn.
    + right. exists nsz, post', l1, l2. split; [reflexivity|]. split; [reflexivity|].
      exact Hc4.
Qed.

(** ** The explicit list: release *)

Lemma naf_split pre x post :
  no_adjacent_free (pre ++ x :: post) = true ->
  no_adjacent_free pre = true /\ no_adjacent_free post = true /\
  (snd x = false -> ends_alloc pre = true /\ starts_alloc post = true).
Proof.
  destruct x as [s al]. rewrite naf_app. change ((s, al) :: post) with ([(s, al)] ++ post).
  rewrite naf_app. cbn [no_adjacent_free ends_alloc starts_alloc app snd].
  destruct (no_adjacent_free pre), (no_adjacent_free post), (ends_alloc pre),
    (starts_alloc post), al; cbn; intros H; try discriminate; repeat split;
    try reflexivity; intros; discriminate.
Qed.

Lemma naf_insert pre s al post :
  no_adjacent_free pre = true -> no_adjacent_free post = true ->
  (al = true \/ (ends_alloc pre = true /\ starts_alloc post = true)) ->
  no_adjacent_free (pre ++ (s, al) :: post) = true.
Proof.
  intros H1 H2 H3. rewrite naf_app. change ((s, al) :: post) with ([(s, al)] ++ post).
  rewrite naf_app. cbn [no_adjacent_free ends_alloc starts_alloc app].
  rewrite H1, H2. destruct H3 as [->|[-> ->]]; [|destruct al; reflexivity].
  cbn. rewrite orb_true_r. reflexivity.
Qed.

Lemma add_node_iff (fl A B : list Z) p :
  (forall n, In n fl <-> In n (A ++ B)) ->
  forall n, In n (fl ++ [p]) <-> In n (A ++ p :: B).
Proof.
  intros H n. rewrite in_app_iff, (H n), !in_app_iff. cbn [In]. tauto.
Qed.

Lemma remove_node_iff (l1 l2 A B : list Z) q :
  NoDup (l1 ++ q :: l2) -> NoDup (A ++ q :: B) ->
  (forall n, In n (l1 ++ q :: l2) <-> In n (A ++ q :: B)) ->
  forall n, In n (l1 ++ l2) <-> In n (A ++ B).
Proof.
  intros N1 N2 H n. rewrite (NoDup_mid_in _ _ _ _ N1), (NoDup_mid_in _ _ _ _ N2).
  rewrite (H n). tauto.
Qed.

Lemma swap_node_iff (l1 l2 A B : list Z) q p :
  NoDup (l1 ++ q :: l2) -> NoDup (A ++ q :: B) ->
  (forall n, In n (l1 ++ q :: l2) <-> In n (A ++ q :: B)) ->
  forall n, In n (l1 ++ l2 ++ [p]) <-> In n (A ++ p :: B).
Proof.
  intros N1 N2 H n. rewrite app_assoc. apply add_node_iff.
  apply (remove_node_iff _ _ _ _ q N1 N2 H).
Qed.

Lemma exp_heap_inv_intro m lo brk max bl fl :
  cfg m lo bl fl ->
  (forall n, In n fl <-> In n (free_nodes (lo + 32) bl)) ->
  no_adjacent_free bl = true ->
  brk <= max -> max < W ->
  (brk = lo + 32 + span bl + 16 \/ (lo + 32 + span bl + 16 <= brk /\ max < brk + 8)) ->
  heap_inv (St m lo brk max lo (lo + 16)) bl fl.
Proof.
  intros. unfold heap_inv. cbn [ar mem mem_lo mem_brk mem_max first last].
  split; [reflexivity|]. split; [reflexivity|]. repeat (split; [assumption|]).
  assumption.
Qed.

Lemma exp_free_spec b m lo brk max f l pre sz post fl :
  let bl := pre ++ (sz, true) :: post in
  let p := lo + 32 + span pre + 16 in
  heap_inv (St m lo brk max f l) bl fl -> 16 <= sz ->
  wpx b (mm_free p)
    (fun _ s' => exists m' bl' fl',
       s' = St m' lo brk max lo (lo + 16) /\
       heap_inv s' bl' fl' /\
       free_result lo pre sz post fl bl' fl' /\
       forall x, clear lo bl (p :: fl) x -> m' x = m x)
    (St m lo brk max f l).
Proof.
  intros bl p Hinv H16.
  destruct Hinv as (Hf & Hl & Hc & Hfl & Hnaf & Hbrk & HW & Hend).
  cbn [ar mem mem_lo mem_brk mem_max first last] in *. subst f l.
  pose proof Hc as (Hlo & Hal & Hw & Hb & Hd & Hnd & Hok).
  assert (Hmax : lo + 32 + span bl + 16 <= max) by lia.
  unfold bl in Hb, Hmax, Hw.
  destruct (blocks_mid _ _ _ _ _ _ _ _ Hb)
    as (Hpt & Hhd & Hft & Hnh & _ & Hszm & _ & Hsp & Hspo & Hspm).
  rewrite span_app in Hmax, Hw. cbn [span] in Hmax, Hw.
  set (b0 := lo + 32 + span pre) in *.
  assert (Hp : p = b0 + 16) by reflexivity.
  destruct (naf_split _ _ _ Hnaf) as (Hnpre & Hnpost & _).
  (* the nodes of the free blocks, before and after *)
  assert (HFN : free_nodes (lo + 32) bl
                = free_nodes (lo + 32) pre ++ free_nodes (b0 + 16 + sz) post).
  { unfold bl. rewrite free_nodes_app. cbn [free_nodes]. reflexivity. }
  assert (HFN1 : free_nodes (lo + 32) (pre ++ (sz, false) :: post)
                = free_nodes (lo + 32) pre ++ p :: free_nodes (b0 + 16 + sz) post).
  { rewrite free_nodes_app. cbn [free_nodes]. reflexivity. }
  assert (Hpnin : ~ In p fl).
  { intros Hin. apply Hfl in Hin. revert Hin. apply (alloc_not_free_node _ _ _ _ _ _ _ Hb). }
  unfold mm_free.
  replace (p =? NULL) with false by (symmetry; apply Z.eqb_neq; unfold NULL; lia).
  unfold block_from_payload. rewrite ALIGNMENT_eq. rewrite wsub_small by lia.
  replace (p - 16) with b0 by lia.
  apply wpx_bind. eapply (exp_wpx_get_size b m lo brk max _ _ b0 sz true);
    [exact Hlo|exact HW|unfold b0; lia|lia|unfold b0; lia|exact Hhd|lia|mlia|].
  apply wpx_bind. eapply wpx_set_header_footer;
    [exact Hlo|exact HW|unfold b0; lia|lia|unfold b0; lia|lia|mlia|].
  pose proof (cfg_retag m lo pre [(sz, true)] post fl false) as Hre.
  cbn [span app] in Hre. replace (16 + sz + 0 - 16) with sz in Hre by lia.
  replace (lo + 32 + span pre + (16 + sz + 0)) with (b0 + 16 + sz) in Hre
    by (unfold b0; lia).
  fold b0 in Hre. specialize (Hre Hc ltac:(discriminate) ltac:(intros _; lia)).
  destruct Hre as [Hc1 Hfr1].
  set (m1 := wr (wr m (b0 + 8) (tag sz false)) (b0 + 16 + sz) (tag sz false)) in *.
  pose proof Hc1 as (_ & _ & _ & Hb1 & Hd1 & _ & _).
  set (lp := last_of lo fl).
  assert (Hlpin : In lp (lo :: lo + 16 :: fl)).
  { destruct (last_of_mem lo fl) as [E|Hin]; [left; exact E|right; right; exact Hin]. }
  destruct (cfg_node_arena _ _ _ _ lp max Hc1) as (Hlp1 & Hlp2 & Hlp3);
    [rewrite span_app; cbn [span]; fold b0; lia|exact Hlpin|].
  assert (Hpok : node_ok lo (pre ++ (sz, false) :: post) p).
  { apply (free_nodes_node_ok _ _ _ _ _ Hal Hb1). apply free_nodes_mid. }
  destruct (cfg_add _ _ _ _ p Hc1 Hpok Hpnin) as [Hc2 Hfr2].
  fold lp in Hc2, Hfr2.
  apply wpx_bind.
  eapply (wpx_add_linked_node b m1 lo brk max lo (lo + 16) b0 lp);
    [exact Hlo|exact HW|unfold b0; lia|lia|unfold b0; lia|lia|lia
    |apply (dll_last _ _ _ _ Hd1)|lia|lia|unfold b0; lia|].
  rewrite Hp in Hc2, Hfr2. replace (b0 + 16 + 8) with (b0 + 24) in Hc2, Hfr2 by lia.
  set (m2 := wr (wr (wr (wr m1 (b0 + 16) lp) (b0 + 24) (lo + 16)) (lo + 16) (b0 + 16))
                (lp + 8) (b0 + 16)) in *.
  rewrite <- Hp in Hc2, Hfr2.
  assert (Hfr12 : forall x, clear lo bl (p :: fl) x -> m2 x = m x).
  { intros x Hx. rewrite Hfr2.
    - apply Hfr1. revert Hx. apply clear_incl; [auto|]. intros n Hn. right. exact Hn.
    - revert Hx. apply clear_incl; [|auto]. intros c Hc'.
      apply (bounds_merge_incl (lo + 32) pre [(sz, true)] post false c); [discriminate|].
      cbn [span]. replace (16 + sz + 0 - 16) with sz by lia. exact Hc'. }
  pose proof Hc2 as (_ & _ & _ & Hb2 & _ & _ & _).
  destruct (blocks_mid _ _ _ _ _ _ _ _ Hb2) as (Hpt2 & Hhd2 & _ & Hnh2 & _).
  fold b0 in Hpt2, Hhd2, Hnh2.
  destruct (prev_info _ _ _ _ _ Hb) as (psz & pal & Hlt & Hea & Hps0 & Hpsm & Hps16 & Hpre).
  rewrite Hlt in Hpt2.
  apply blocks_app in Hb. destruct Hb as [_ Hbpost]. cbn [blocks] in Hbpost.
  destruct Hbpost as (_ & _ & _ & _ & _ & Hbpost).
  destruct (next_info _ _ _ _ Hbpost) as (nsz & nal & Hnt & Hsa & Hn0 & Hnm & Hn16 & Hnpost').
  rewrite Hnt in Hnh2. clear Hbpost.
  apply wpx_bind. eapply wpx_is_previous_allocated;
    [exact Hlo|exact HW|unfold b0; lia|lia|exact Hpt2|mlia|].
  assert (Hspan1 : span (pre ++ (sz, false) :: post) = span bl).
  { unfold bl. rewrite !span_app. reflexivity. }
  destruct pal; cbn [negb].
  - (* the block before is allocated *)
    apply wpx_bind.
    eapply (wpx_is_next_allocated b m2 lo brk max _ _ b0 sz false nsz nal);
      [exact Hlo|exact HW|unfold b0; lia|lia|unfold b0; lia|exact Hhd2|lia|mlia
      |exact Hnh2|lia|mlia| |].
    { intros E. destruct nal; [reflexivity|]. specialize (Hn16 eq_refl). lia. }
    destruct nal; cbn [negb orb].
    + (* ... and so is the block after: nothing to merge *)
      apply wpx_ret. exists m2, (pre ++ (sz, false) :: post), (fl ++ [p]).
      split; [reflexivity|]. split; [|split; [|exact Hfr12]].
      * apply exp_heap_inv_intro; try assumption.
        -- rewrite HFN1. apply add_node_iff. rewrite <- HFN. exact Hfl.
        -- apply naf_insert; try assumption. right. split; assumption.
        -- rewrite Hspan1. exact Hend.
      * left. repeat split; assumption.
    + (* ... the block after is free *)
      specialize (Hn16 eq_refl).
      destruct Hnpost' as [(_ & _ & E)|[post' ->]]; [discriminate|].
      assert (Hqin : In (p + sz + 16) fl).
      { apply Hfl. rewrite HFN. apply in_or_app. right. cbn [free_nodes]. left.
        unfold p. fold b0. lia. }
      destruct (in_split _ _ Hqin) as (l1 & l2 & Hfleq).
      apply wpx_bind. eapply (exp_wpx_get_size b m2 lo brk max _ _ b0 sz false);
        [exact Hlo|exact HW|unfold b0; lia|lia|unfold b0; lia|exact Hhd2|lia|mlia|].
      assert (Hc2' : cfg m2 lo (pre ++ (sz, false) :: (nsz, false) :: post')
                       (l1 ++ (b0 + 16 + sz + 16) :: (l2 ++ [p]))).
      { replace (b0 + 16 + sz + 16) with (p + sz + 16) by lia.
        change (l1 ++ (p + sz + 16) :: l2 ++ [p]) with (l1 ++ ((p + sz + 16) :: l2) ++ [p]).
        rewrite app_assoc. rewrite <- Hfleq. exact Hc2. }
      eapply wpx_conseq.
      { apply (coalesce_next b m2 lo brk max pre sz nsz post' l1 (l2 ++ [p]) Hc2').
        - exact Hea.
        - rewrite span_app. cbn [span]. fold b0. cbn [span] in Hmax. lia.
        - exact HW. }
      cbv beta. intros _ s' (m' & -> & Hc' & Hfr').
      exists m', (pre ++ (sz + nsz + 16, false) :: post'), (l1 ++ l2 ++ [p]).
      split; [reflexivity|]. split; [|split].
      * destruct (naf_split [] (nsz, false) post' Hnpost) as (_ & Hnp' & Hsp').
        specialize (Hsp' eq_refl). destruct Hsp' as [_ Hsp'].
        apply exp_heap_inv_intro; try assumption.
        -- rewrite free_nodes_app. cbn [free_nodes]. fold b0.
           rewrite HFN in Hfl. cbn [free_nodes] in Hfl.
           replace (b0 + 16 + (sz + nsz + 16)) with (b0 + 16 + sz + 16 + nsz) by lia.
           replace (b0 + 16) with p by lia.
           apply (swap_node_iff l1 l2 _ _ (p + sz + 16) p).
           ++ rewrite <- Hfleq. exact Hnd.
           ++ replace (p + sz + 16) with (b0 + 16 + sz + 16) by lia.
              pose proof (free_nodes_NoDup _ _ _ _ _ Hb1) as Hn1.
              revert Hn1. clear. rewrite free_nodes_app. cbn [free_nodes].
              intros Hn1. apply NoDup_remove_1 in Hn1. exact Hn1.
           ++ rewrite <- Hfleq. replace (p + sz + 16) with (b0 + 16 + sz + 16) by lia.
              exact Hfl.
        -- apply naf_insert; try assumption. right. split; assumption.
        -- replace (span (pre ++ (sz + nsz + 16, false) :: post')) with (span bl);
             [exact Hend|]. unfold bl. rewrite !span_app. cbn [span]. lia.
      * right. left. split; [exact Hea|]. exists nsz, post', l1, l2.
        repeat split; try reflexivity. exact Hfleq.
      * intros x Hx. rewrite Hfr'; [apply Hfr12; exact Hx|].
        revert Hx. apply clear_incl.
        -- intros c Hc''.
           apply (bounds_merge_incl (lo + 32) pre [(sz, true)] ((nsz, false) :: post') false c);
             [discriminate|]. cbn [span]. replace (16 + sz + 0 - 16) with sz by lia.
           exact Hc''.
        -- intros n Hn. rewrite Hfleq.
           apply in_app_or in Hn. destruct Hn as [Hn|[<-|Hn]].
           ++ right. apply in_or_app. left. exact Hn.
           ++ right. apply in_or_app. right. left. lia.
           ++ apply in_app_or in Hn. destruct Hn as [Hn|[<-|[]]].
              ** right. apply in_or_app. right. right. exact Hn.
              ** left. reflexivity.
  - (* the block before is free *)
    specialize (Hps16 eq_refl).
    destruct Hpre as [(_ & _ & E)|[pre' Hpre']]; [discriminate|].
    apply wpx_bind, wpx_ret. cbn [negb orb].
    apply wpx_bind. eapply (exp_wpx_get_size b m2 lo brk max _ _ b0 sz false);
      [exact Hlo|exact HW|unfold b0; lia|lia|unfold b0; lia|exact Hhd2|lia|mlia|].
    assert (Hb0 : b0 = lo + 32 + span pre' + 16 + psz).
    { unfold b0. rewrite Hpre', span_app. cbn [span]. lia. }
    assert (Hc2' : cfg m2 lo (pre' ++ (psz, false) :: (sz, false) :: post)
                     (fl ++ [lo + 32 + span pre' + 16 + psz + 16])).
    { rewrite <- Hb0, <- Hp. rewrite (app_cons_assoc pre' (psz, false)).
      rewrite <- Hpre'. exact Hc2. }
    rewrite Hb0. eapply wpx_conseq.
    { apply (coalesce_prev b m2 lo brk max pre' psz sz post fl Hc2').
      - rewrite span_app. cbn [span].
        rewrite Hpre', span_app in Hmax. cbn [span] in Hmax. lia.
      - exact HW.
      - intros Hs. rewrite <- Hb0. apply Hfl. rewrite HFN. apply in_or_app. right.
        rewrite Hs in Hsa. subst nal. specialize (Hn16 eq_refl).
        destruct Hnpost' as [(_ & _ & E)|[post' ->]]; [discriminate|].
        cbn [free_nodes]. left. reflexivity. }
    cbv beta. rewrite <- Hb0, <- Hp.
    intros _ s' (m' & -> & Hfr' & Hres).
    assert (Hfr'' : forall x, clear lo bl (p :: fl) x -> m' x = m x).
    { intros x Hx. rewrite Hfr'; [apply Hfr12; exact Hx|].
      revert Hx. apply clear_incl.
      - intros c Hc''. rewrite (app_cons_assoc pre' (psz, false)) in Hc''.
        rewrite <- Hpre' in Hc''.
        apply (bounds_merge_incl (lo + 32) pre [(sz, true)] post false c); [discriminate|].
        cbn [span]. replace (16 + sz + 0 - 16) with sz by lia. exact Hc''.
      - intros n Hn. apply in_app_or in Hn. destruct Hn as [Hn|[<-|[]]];
          [right; exact Hn|left; reflexivity]. }
    assert (Hnpre' : no_adjacent_free pre' = true /\ ends_alloc pre' = true).
    { rewrite Hpre' in Hnpre. change (pre' ++ [(psz, false)])
        with (pre' ++ (psz, false) :: []) in Hnpre.
      destruct (naf_split _ _ _ Hnpre) as (H1 & _ & H2). split; [exact H1|].
      apply H2. reflexivity. }
    destruct Hnpre' as [Hnpre' Heapre'].
    assert (HFNpre : free_nodes (lo + 32) pre
                     = free_nodes (lo + 32) pre' ++ [b0 - psz]).
    { rewrite Hpre', free_nodes_app. cbn [free_nodes]. f_equal. f_equal. lia. }
    destruct Hres as [[Hsa' Hc']|(nsz' & post' & l1 & l2 & Hpost' & Hfleq & Hc')].
    + exists m', (pre' ++ (psz + sz + 16, false) :: post), fl.
      split; [reflexivity|]. split; [|split; [|exact Hfr'']].
      * apply exp_heap_inv_intro; try assumption.
        -- intros n. rewrite (Hfl n), HFN, HFNpre.
           rewrite free_nodes_app. cbn [free_nodes].
           replace (lo + 32 + span pre' + 16 + (psz + sz + 16)) with (b0 + 16 + sz) by lia.
           replace (lo + 32 + span pre' + 16) with (b0 - psz) by lia.
           rewrite <- app_assoc. reflexivity.
        -- apply naf_insert; try assumption. right. split; assumption.
        -- replace (span (pre' ++ (psz + sz + 16, false) :: post)) with (span bl);
             [exact Hend|]. unfold bl. rewrite Hpre', !span_app. cbn [span]. lia.
      * right. right. left. exists pre', psz. repeat split; assumption.
    + subst post. cbn [starts_alloc] in Hsa. subst nal. specialize (Hn16 eq_refl).
      assert (nsz' = nsz) by (destruct Hnpost' as [(E & _)|[? E]]; congruence).
      subst nsz'.
      exists m', (pre' ++ (psz + sz + nsz + 32, false) :: post'), (l1 ++ l2).
      split; [reflexivity|]. split; [|split; [|exact Hfr'']].
      * destruct (naf_split [] (nsz, false) post' Hnpost) as (_ & Hnp'' & Hsp'').
        specialize (Hsp'' eq_refl). destruct Hsp'' as [_ Hsp''].
        apply exp_heap_inv_intro; try assumption.
        -- rewrite free_nodes_app. cbn [free_nodes].
           rewrite HFN, HFNpre in Hfl. cbn [free_nodes] in Hfl.
           replace (lo + 32 + span pre' + 16 + (psz + sz + nsz + 32))
             with (b0 + 16 + sz + 16 + nsz) by lia.
           replace (lo + 32 + span pre' + 16) with (b0 - psz) by lia.
           change (free_nodes (lo + 32) pre' ++ (b0 - psz) :: free_nodes (b0 + 16 + sz + 16 + nsz) post')
             with (free_nodes (lo + 32) pre' ++ [b0 - psz] ++ free_nodes (b0 + 16 + sz + 16 + nsz) post').
           rewrite app_assoc.
           apply (remove_node_iff l1 l2 _ _ (b0 + 16 + sz + 16)).
           ++ replace (b0 + 16 + sz + 16) with (p + sz + 16) by lia.
              rewrite <- Hfleq. exact Hnd.
           ++ pose proof (free_nodes_NoDup _ _ _ _ _ Hb1) as Hn1.
              rewrite free_nodes_app in Hn1. cbn [free_nodes] in Hn1. fold b0 in Hn1.
              apply NoDup_remove_1 in Hn1. rewrite HFNpre in Hn1. exact Hn1.
           ++ replace (b0 + 16 + sz + 16) with (p + sz + 16) by lia.
              rewrite <- Hfleq. exact Hfl.
        -- apply naf_insert; try assumption. right. split; assumption.
        -- replace (span (pre' ++ (psz + sz + nsz + 32, false) :: post')) with (span bl);
             [exact Hend|]. unfold bl. rewrite Hpre', !span_app. cbn [span]. lia.
      * right. right. right. exists pre', psz, nsz, post', l1, l2.
        repeat split; try reflexivity; try assumption.
Qed.

(** ** The explicit list: unlinking and linking under the invariant *)

Lemma wpx_unlink b m lo brk max bl l1 n l2 (Q : unit -> state -> Prop) :
  cfg m lo bl (l1 ++ n :: l2) ->
  lo + 32 + span bl + 16 <= max -> max < W ->
  (forall m', cfg m' lo bl (l1 ++ l2) ->
              (forall x, clear lo bl (l1 ++ n :: l2) x -> m' x = m x) ->
              Q tt (St m' lo brk max lo (lo + 16))) ->
  wpx b (delete_linked_node_from_block (n - 16)) Q (St m lo brk max lo (lo + 16)).
Proof.
  intros Hc Hmax HW HQ.
  pose proof Hc as (Hlo & Hal & Hw & Hb & Hd & Hnd & Hok).
  destruct (cfg_del _ _ _ _ _ _ Hc) as (Epv & Enx & Hfin & Hfr).
  set (pv := last_of lo l1) in *. set (nx := hd (lo + 16) l2) in *.
  assert (Hpvin : In pv (lo :: lo + 16 :: l1 ++ n :: l2)).
  { destruct (last_of_mem lo l1) as [E|Hin]; [left; exact E|].
    right. right. apply in_or_app. left. exact Hin. }
  assert (Hnxin : In nx (lo :: lo + 16 :: l1 ++ n :: l2)).
  { destruct (hd_mem (lo + 16) l2) as [E|Hin]; [right; left; exact E|].
    right. right. apply in_or_app. right. right. exact Hin. }
  assert (Hnin : In n (lo :: lo + 16 :: l1 ++ n :: l2)).
  { right. right. apply in_or_app. right. left. reflexivity. }
  destruct (cfg_node_arena _ _ _ _ pv max Hc Hmax Hpvin) as (Hpv1 & Hpv2 & Hpv3).
  destruct (cfg_node_arena _ _ _ _ nx max Hc Hmax Hnxin) as (Hnx1 & Hnx2 & Hnx3).
  destruct (cfg_node_arena _ _ _ _ n max Hc Hmax Hnin) as (Hn1 & Hn2 & Hn3).
  destruct (cfg_cells _ _ _ _ pv Hc Hpvin) as [_ Hpvm].
  destruct (cfg_cells _ _ _ _ n Hc Hnin) as [_ Hnm].
  assert (Hnlo : n <> lo /\ n <> lo + 16).
  { apply (cfg_sentinels _ _ _ _ n Hc). apply in_or_app. right. left. reflexivity. }
  assert (Hn48 : lo + 48 <= n).
  { apply (Hok n). apply in_or_app. right. left. reflexivity. }
  assert (Hpvn : pv <> n).
  { intros E. destruct (last_of_mem lo l1) as [E'|Hin].
    - fold pv in E'. lia.
    - fold pv in Hin. rewrite E in Hin. apply NoDup_remove_2 in Hnd.
      apply Hnd. apply in_or_app. left. exact Hin. }
  eapply (wpx_delete_linked_node b m lo brk max _ _ (n - 16) pv nx).
  - exact Hlo.
  - exact HW.
  - lia.
  - lia.
  - lia.
  - replace (n - 16 + 16) with n by lia. exact Epv.
  - replace (n - 16 + 24) with (n + 8) by lia. exact Enx.
  - lia.
  - lia.
  - lia.
  - lia.
  - mlia.
  - apply HQ; assumption.
Qed.

Lemma wpx_link b m lo brk max bl fl link (Q : unit -> state -> Prop) :
  cfg m lo bl fl -> node_ok lo bl link -> ~ In link fl ->
  lo + 32 + span bl + 16 <= max -> max < W ->
  (forall m', cfg m' lo bl (fl ++ [link]) ->
              (forall x, clear lo bl (link :: fl) x -> m' x = m x) ->
              Q tt (St m' lo brk max lo (lo + 16))) ->
  wpx b (add_linked_node_to_block (link - 16)) Q (St m lo brk max lo (lo + 16)).
Proof.
  intros Hc Hlk Hnin Hmax HW HQ.
  pose proof Hc as (Hlo & Hal & Hw & Hb & Hd & Hnd & Hok).
  destruct (cfg_add _ _ _ _ link Hc Hlk Hnin) as [Hc2 Hfr2].
  set (lp := last_of lo fl) in *.
  assert (Hlpin : In lp (lo :: lo + 16 :: fl)).
  { destruct (last_of_mem lo fl) as [E|Hin]; [left; exact E|right; right; exact Hin]. }
  destruct (cfg_node_arena _ _ _ _ lp max Hc Hmax Hlpin) as (Hlp1 & Hlp2 & Hlp3).
  destruct Hlk as (Hk1 & Hk2 & Hk3 & Hk4).
  pose proof (blocks_span _ _ _ _ _ Hb) as Hsp.
  eapply (wpx_add_linked_node b m lo brk max lo (lo + 16) (link - 16) lp);
    [exact Hlo|exact HW|lia|lia|lia|lia|lia
    |apply (dll_last _ _ _ _ Hd)|lia|lia|lia|].
  replace (link - 16 + 16) with link by lia.
  replace (link - 16 + 24) with (link + 8) by lia.
  apply HQ; assumption.
Qed.

(** ** The explicit list: splitting a block *)

(** The tags [block_split] writes: the block of [bsz] bytes becomes an
    allocated block of [size] bytes and a free block of the rest.  The
    node of the block is still linked and stays clear of the new tags. *)
Lemma cfg_split m lo pre bsz al post fl size :
  let fb := lo + 32 + span pre in
  let nb := fb + 16 + size in
  let t1 := tag size true in
  let t2 := tag (bsz - size - 16) false in
  cfg m lo (pre ++ (bsz, al) :: post) fl ->
  16 <= size -> size mod 16 = 0 -> size + 32 <= bsz ->
  (forall x, In x fl -> x = fb + 16 \/ x + 16 <= fb \/ fb + 16 + bsz + 16 <= x) ->
  cfg (wr (wr (wr (wr m (fb + 8) t1) nb t1) (nb + 8) t2) (fb + 16 + bsz) t2)
      lo (pre ++ (size, true) :: (bsz - size - 16, false) :: post) fl /\
  forall x, clear lo (pre ++ (bsz, al) :: post) fl x ->
            (x < fb + 16 \/ fb + 16 + bsz <= x) ->
    wr (wr (wr (wr m (fb + 8) t1) nb t1) (nb + 8) t2) (fb + 16 + bsz) t2 x = m x.
Proof.
  intros fb nb t1 t2 (Hlo & Hal & Hw & Hb & Hd & Hnd & Hok) H16 Hsm Hfit Hout.
  pose proof Hb as Hb0.
  destruct (blocks_mid _ _ _ _ _ _ _ _ Hb)
    as (Hpt & Hhd & Hft & Hnh & Hb0' & Hbm & _ & Hsp & Hspo & Hspm).
  fold fb in Hpt, Hhd, Hft, Hnh.
  apply blocks_app in Hb. destruct Hb as [Hpre Hrest].
  cbn [blocks] in Hrest. destruct Hrest as (_ & _ & _ & _ & _ & Hpost). fold fb in Hpost.
  rewrite span_app in Hw. cbn [span] in Hw. fold fb in Hw.
  assert (Ht1 : 0 <= t1 < W) by (apply tag_range; lia).
  assert (Ht2 : 0 <= t2 < W) by (apply tag_range; lia).
  assert (Hspan : span (pre ++ (size, true) :: (bsz - size - 16, false) :: post)
                  = span (pre ++ (bsz, al) :: post)).
  { rewrite !span_app. cbn [span]. lia. }
  split.
  2:{ intros x (Hx1 & Hx2 & Hx3) Hx.
      assert (Hfbx := Hx2 fb).
      assert (Hex := Hx2 (fb + 16 + bsz)).
      rewrite !wr_out; [reflexivity|..].
      - cut (x < fb \/ fb + 16 <= x); [lia|]. apply Hfbx.
        apply bounds_app_in. right. apply bounds_start.
      - unfold nb. lia.
      - unfold nb. lia.
      - cut (x < fb + 16 + bsz \/ fb + 16 + bsz + 16 <= x); [lia|]. apply Hex.
        apply bounds_app_in. right. cbn [bounds]. right. apply bounds_start. }
  unfold cfg. rewrite Hspan. rewrite span_app. cbn [span]. fold fb.
  split; [exact Hlo|]. split; [exact Hal|]. split; [exact Hw|]. split; [|split; [|split]].
  - apply blocks_app. split.
    + cbn [hd_tag]. fold t1.
      apply blocks_wr_above; [|fold fb; lia].
      apply blocks_wr_above; [|fold fb; unfold nb; lia].
      apply blocks_wr_above; [|fold fb; unfold nb; lia].
      replace (fb + 8) with (lo + 32 + span pre + 8) by (unfold fb; lia).
      eapply blocks_set_nh; [exact Hpre|exact Ht1].
    + fold fb. cbn [blocks]. fold t1 t2. fold nb.
      split; [rewrite !rd_wr_other by (unfold nb; lia); exact Hpt|].
      split; [rewrite !rd_wr_other by (unfold nb; lia); apply rd_wr_same; exact Ht1|].
      split; [lia|]. split; [exact Hsm|]. split; [discriminate|].
      split; [rewrite !rd_wr_other by (unfold nb; lia); apply rd_wr_same; exact Ht1|].
      split; [rewrite rd_wr_other by (unfold nb; lia); apply rd_wr_same; exact Ht2|].
      split; [lia|]. split; [mlia|]. split; [intros _; lia|].
      replace (nb + 16 + (bsz - size - 16)) with (fb + 16 + bsz) by (unfold nb; lia).
      eapply blocks_set_pt; [|exact Ht2].
      apply blocks_wr_below; [|unfold nb; lia].
      apply blocks_wr_below; [|unfold nb; lia].
      apply blocks_wr_below; [exact Hpost|lia].
  - apply (dll_wr_tag _ lo (pre ++ (bsz, al) :: post) fl _ _ (fb + 16 + bsz));
      [|exact Hok
       |apply bounds_app_in; right; cbn [bounds]; right; fold fb; apply bounds_start
       |unfold fb; lia|left; reflexivity].
    apply dll_wr; [|unfold nb, fb; lia|unfold nb, fb; lia|].
    2:{ intros n Hn. specialize (Hout n Hn). unfold nb. lia. }
    apply dll_wr; [|unfold nb, fb; lia|unfold nb, fb; lia|].
    2:{ intros n Hn. specialize (Hout n Hn). unfold nb. lia. }
    apply (dll_wr_tag _ lo (pre ++ (bsz, al) :: post) fl _ _ fb);
      [exact Hd|exact Hok|apply bounds_app_in; right; apply bounds_start
      |unfold fb; lia|right; reflexivity].
  - exact Hnd.
  - intros n Hn. destruct (Hok n Hn) as (Hn1 & Hn2 & Hn3 & Hn4).
    unfold node_ok. rewrite Hspan. split; [exact Hn1|]. split; [exact Hn2|].
    split; [exact Hn3|]. intros c Hc.
    apply bounds_app_in in Hc. destruct Hc as [Hc|Hc].
    + apply Hn4. apply bounds_app_in. left. exact Hc.
    + fold fb in Hc. cbn [bounds] in Hc. destruct Hc as [<-|[<-|Hc]].
      * apply Hn4. apply bounds_app_in. right. apply bounds_start.
      * specialize (Hout n Hn). lia.
      * apply Hn4. apply bounds_app_in. right. fold fb. cbn [bounds]. right.
        replace (fb + 16 + bsz) with (fb + 16 + size + 16 + (bsz - size - 16)) by lia.
        exact Hc.
Qed.

(** ** The explicit list: finding a fit *)

Lemma snoc_case {A} (l : list A) : l = [] \/ exists l' x, l = l' ++ [x].
Proof.
  destruct l as [|a r]; [left; reflexivity|right].
  destruct (exists_last (l := a :: r)) as (l' & x & E); [discriminate|].
  exists l', x. exact E.
Qed.

Lemma dll_prev m lst n l2 : forall l1 prev,
  dll m prev (l1 ++ n :: l2) lst -> rd m n = last_of prev l1.
Proof.
  induction l1 as [|x r IH]; intros prev Hd; cbn [app dll last_of] in *.
  - destruct Hd as (_ & H & _). exact H.
  - destruct Hd as (_ & _ & Hd). apply IH. exact Hd.
Qed.

(** A run that ends in [ret x] returns [x] if it returns at all. *)
Lemma wpx_then_ret {S A B} (c : M S A) (x : B) (Q : B -> S -> Prop) s :
  (forall s', Q x s') -> wpx false (c ;; ret x) Q s.
Proof.
  intros H. unfold wpx, bind. destruct (c s) as [[a s']| |]; [apply H|reflexivity..].
Qed.

Lemma node_block m lo bl fl n :
  cfg m lo bl fl ->
  (forall x, In x fl <-> In x (free_nodes (lo + 32) bl)) -> In n fl ->
  exists pre bsz post,
    bl = pre ++ (bsz, false) :: post /\ n = lo + 32 + span pre + 16 /\
    rd m (n - 8) = tag bsz false /\ node_size m n = bsz /\
    16 <= bsz /\ bsz mod 16 = 0 /\ 0 <= span pre /\ 0 <= span post.
Proof.
  intros (Hlo & Hal & Hw & Hb & _) Hfl Hn. apply Hfl in Hn.
  destruct (free_nodes_split _ _ _ Hn) as (pre & bsz & post & -> & ->).
  destruct (blocks_mid _ _ _ _ _ _ _ _ Hb)
    as (_ & Hhd & _ & _ & H0 & Hm & H16 & Hsp & Hspo & _).
  specialize (H16 eq_refl).
  replace (lo + 32 + span pre + 16 - 8) with (lo + 32 + span pre + 8) by lia.
  exists pre, bsz, post. repeat split; try assumption.
  unfold node_size.
  replace (lo + 32 + span pre + 16 - 8) with (lo + 32 + span pre + 8) by lia.
  rewrite Hhd. unfold tag. apply tag_size; [lia| |mlia].
  apply (tag_bound m (lo + 32 + span pre + 8) bsz false); [exact Hhd|lia|mlia].
Qed.

Lemma wmul_2_ALIGNMENT : wmul 2 ALIGNMENT = 32.
Proof. reflexivity. Qed.

Lemma bounds_split_in a pre size bsz al post c :
  In c (bounds a (pre ++ (size, true) :: (bsz - size - 16, false) :: post)) ->
  In c (bounds a (pre ++ (bsz, al) :: post)) \/ c = a + span pre + 16 + size.
Proof.
  intros Hc. apply bounds_app_in in Hc. destruct Hc as [Hc|Hc].
  - left. apply bounds_app_in. left. exact Hc.
  - cbn [bounds] in Hc. destruct Hc as [<-|[<-|Hc]].
    + left. apply bounds_app_in. right. apply bounds_start.
    + right. reflexivity.
    + left. apply bounds_app_in. right. cbn [bounds]. right.
      replace (a + span pre + 16 + bsz)
        with (a + span pre + 16 + size + 16 + (bsz - size - 16)) by lia.
      exact Hc.
Qed.

(** Where the nodes on the list lie with respect to one free block. *)
Lemma nodes_around m lo pre bsz post fl x :
  cfg m lo (pre ++ (bsz, false) :: post) fl ->
  (forall n, In n fl <-> In n (free_nodes (lo + 32) (pre ++ (bsz, false) :: post))) ->
  In x fl ->
  let fb := lo + 32 + span pre in
  x = fb + 16 \/ x + 16 <= fb \/ fb + 16 + bsz + 16 <= x.
Proof.
  intros (_ & _ & _ & Hb & _) Hfl Hx fb. apply Hfl in Hx.
  rewrite free_nodes_app in Hx. cbn [free_nodes] in Hx.
  apply blocks_app in Hb. destruct Hb as [Hpre Hrest].
  cbn [blocks] in Hrest. destruct Hrest as (_ & _ & _ & _ & _ & Hpost).
  apply in_app_or in Hx. destruct Hx as [Hx|[Hx|Hx]].
  - right. left. pose proof (free_nodes_lt _ _ _ _ _ _ Hpre Hx). unfold fb. lia.
  - left. unfold fb. lia.
  - right. right. pose proof (free_nodes_lt _ _ _ _ _ _ Hpost Hx). unfold fb. lia.
Qed.

(** The body of [find_fit] once a block is chosen. *)
Lemma exp_take_spec b m lo brk max pre bsz post l1 l2 size :
  let fb := lo + 32 + span pre in
  let bl := pre ++ (bsz, false) :: post in
  let fl := l1 ++ (fb + 16) :: l2 in
  heap_inv (St m lo brk max lo (lo + 16)) bl fl ->
  16 <= size -> size mod 16 = 0 -> size <= bsz ->
  wpx b (sz <- get_size fb ;;
         set_header_footer fb sz true ;;
         if bsz <? wadd size (wmul 2 ALIGNMENT) then
           delete_linked_node_from_block fb ;; ret fb
         else
           block_split fb bsz size ;; ret fb)
    (fun r s' => r = fb /\ exists m' bl' fl',
       s' = St m' lo brk max lo (lo + 16) /\
       heap_inv s' bl' fl' /\
       take_result lo pre bsz post l1 l2 size bl' fl' /\
       forall x, clear lo bl fl x -> x < fb + 16 \/ fb + 16 + bsz <= x -> m' x = m x)
    (St m lo brk max lo (lo + 16)).
Proof.
  intros fb bl fl Hinv H16 Hsm Hfit.
  destruct Hinv as (_ & _ & Hc & Hfl & Hnaf & Hbrk & HW & Hend).
  cbn [ar mem mem_lo mem_brk mem_max first last] in *.
  pose proof Hc as (Hlo & Hal & Hw & Hb & Hd & Hnd & Hok).
  assert (Hmax : lo + 32 + span bl + 16 <= max) by lia.
  unfold bl in Hb, Hmax, Hw.
  destruct (blocks_mid _ _ _ _ _ _ _ _ Hb)
    as (Hpt & Hhd & Hft & Hnh & Hb0 & Hbm & Hb16 & Hsp & Hspo & Hspm).
  specialize (Hb16 eq_refl).
  rewrite span_app in Hmax, Hw. cbn [span] in Hmax, Hw. fold fb in Hmax, Hw, Hhd.
  destruct (naf_split _ _ _ Hnaf) as (Hnpre & Hnpost & Hnb).
  destruct (Hnb eq_refl) as [Hea Hsa].
  assert (Hout := fun x Hx => nodes_around m lo pre bsz post fl x Hc Hfl Hx).
  cbv zeta in Hout. fold fb in Hout.
  assert (HFN : free_nodes (lo + 32) bl
                = free_nodes (lo + 32) pre ++ (fb + 16) :: free_nodes (fb + 16 + bsz) post).
  { unfold bl. rewrite free_nodes_app. cbn [free_nodes]. reflexivity. }
  assert (HND : NoDup (free_nodes (lo + 32) bl)) by apply (free_nodes_NoDup _ _ _ _ _ Hb).
  rewrite HFN in HND.
  apply wpx_bind. eapply (exp_wpx_get_size b m lo brk max _ _ fb bsz false);
    [exact Hlo|exact HW|unfold fb; lia|lia|unfold fb; lia|exact Hhd|lia|mlia|].
  apply wpx_bind. eapply wpx_set_header_footer;
    [exact Hlo|exact HW|unfold fb; lia|lia|unfold fb; lia|lia|mlia|].
  pose proof (cfg_retag m lo pre [(bsz, false)] post fl true) as Hre.
  cbn [span app] in Hre. replace (16 + bsz + 0 - 16) with bsz in Hre by lia.
  replace (lo + 32 + span pre + (16 + bsz + 0)) with (fb + 16 + bsz) in Hre
    by (unfold fb; lia).
  fold fb in Hre. specialize (Hre Hc ltac:(discriminate) ltac:(discriminate)).
  destruct Hre as [Hc1 Hfr1].
  set (m1 := wr (wr m (fb + 8) (tag bsz true)) (fb + 16 + bsz) (tag bsz true)) in *.
  set (bl1 := pre ++ (bsz, true) :: post) in *.
  assert (Hspan1 : span bl1 = span bl).
  { unfold bl1, bl. rewrite !span_app. reflexivity. }
  assert (Hcl1 : forall x, clear lo bl fl x -> clear lo bl1 fl x).
  { intros x. apply clear_incl; [|auto]. intros c Hc'.
    apply (bounds_merge_incl (lo + 32) pre [(bsz, false)] post true c); [discriminate|].
    cbn [span]. replace (16 + bsz + 0 - 16) with bsz by lia. exact Hc'. }
  rewrite wmul_2_ALIGNMENT. rewrite wadd_small by (unfold fb in Hw; lia).
  destruct (Z.ltb_spec bsz (size + 32)) as [Hsmall|Hbig].
  - (* the block is taken whole *)
    apply wpx_bind. replace fb with (fb + 16 - 16) at 1 by lia.
    apply (wpx_unlink b m1 lo brk max bl1 l1 (fb + 16) l2);
      [exact Hc1|rewrite Hspan1; unfold bl; rewrite span_app; cbn [span]; fold fb; lia
      |exact HW|].
    intros m2 Hc2 Hfr2. apply wpx_ret. split; [reflexivity|].
    exists m2, bl1, (l1 ++ l2). split; [reflexivity|].
    split; [|split].
    + apply exp_heap_inv_intro; try assumption.
      * unfold bl1. rewrite free_nodes_app. cbn [free_nodes]. fold fb.
        apply (remove_node_iff l1 l2 _ _ (fb + 16)); [exact Hnd|exact HND|].
        rewrite <- HFN. exact Hfl.
      * apply naf_insert; try assumption. left. reflexivity.
      * rewrite Hspan1. exact Hend.
    + left. split; [lia|]. split; reflexivity.
    + intros x Hx _. rewrite Hfr2 by (apply Hcl1; exact Hx). apply Hfr1. exact Hx.
  - (* the block is split *)
    set (nb := fb + 16 + size). set (rest := bsz - size - 16).
    apply wpx_bind. unfold block_split.
    apply wpx_bind. eapply wpx_set_header_footer;
      [exact Hlo|exact HW|unfold fb; lia|lia|unfold fb; lia|lia|mlia|].
    assert (Ht1 : 0 <= tag size true < W) by (apply tag_range; unfold fb in Hw; lia).
    apply wpx_bind. eapply (wpx_get_next_block b _ lo brk max _ _ fb size true);
      [exact Hlo|exact HW|unfold fb; lia|lia|unfold fb; lia
      |rewrite rd_wr_other by lia; apply rd_wr_same; exact Ht1|lia|mlia|].
    fold nb. rewrite ALIGNMENT_eq. rewrite (wsub_small bsz size) by (unfold fb in Hw; lia).
    rewrite wsub_small by (unfold fb in Hw; lia). fold rest.
    apply wpx_bind. eapply wpx_set_header_footer;
      [exact Hlo|exact HW|unfold nb, fb; lia|unfold nb, rest; lia|unfold nb, fb; lia
      |unfold rest; lia|unfold rest; mlia|].
    replace (nb + 16 + rest) with (fb + 16 + bsz) by (unfold nb, rest; lia).
    destruct (cfg_split m1 lo pre bsz true post fl size Hc1 H16 Hsm Hbig) as [Hc3 Hfr3].
    { intros x Hx. apply Hout. exact Hx. }
    fold fb nb rest in Hc3, Hfr3.
    set (m3 := wr (wr (wr (wr m1 (fb + 8) (tag size true)) nb (tag size true))
                      (nb + 8) (tag rest false)) (fb + 16 + bsz) (tag rest false)) in *.
    set (bl3 := pre ++ (size, true) :: (rest, false) :: post) in *.
    assert (Hspan3 : span bl3 = span bl).
    { unfold bl3, bl, rest. rewrite !span_app. cbn [span]. lia. }
    assert (Hmax3 : lo + 32 + span bl3 + 16 <= max).
    { rewrite Hspan3. unfold bl. rewrite span_app. cbn [span]. fold fb. lia. }
    assert (Hcl3 : forall x, clear lo bl fl x -> x < fb + 16 \/ fb + 16 + bsz <= x ->
                             clear lo bl3 fl x).
    { intros x (Hx1 & Hx2 & Hx3) Hx. split; [exact Hx1|]. split; [|exact Hx3].
      intros c Hc'. apply (bounds_split_in _ _ _ _ false) in Hc'.
      destruct Hc' as [Hc' | ->]; [apply Hx2; exact Hc'|]. fold fb. lia. }
    apply wpx_bind. replace fb with (fb + 16 - 16) at 1 by lia.
    apply (wpx_unlink b m3 lo brk max bl3 l1 (fb + 16) l2); [exact Hc3|exact Hmax3|exact HW|].
    intros m4 Hc4 Hfr4.
    pose proof Hc4 as (_ & _ & _ & Hb4 & _ & _ & _).
    assert (Hlk : node_ok lo bl3 (nb + 16)).
    { apply (free_nodes_node_ok _ _ _ _ _ Hal Hb4). unfold bl3.
      rewrite (app_cons_assoc pre (size, true)).
      replace (nb + 16) with (lo + 32 + span (pre ++ [(size, true)]) + 16)
        by (rewrite span_app; cbn [span]; unfold nb, fb; lia).
      apply free_nodes_mid. }
    assert (Hnin : ~ In (nb + 16) (l1 ++ l2)).
    { intros Hin. assert (Hin' : In (nb + 16) fl).
      { unfold fl. apply in_app_or in Hin. apply in_or_app.
        destruct Hin as [Hin|Hin]; [left; exact Hin|right; right; exact Hin]. }
      specialize (Hout _ Hin'). unfold nb in Hout. lia. }
    replace nb with (nb + 16 - 16) at 1 by lia.
    apply (wpx_link b m4 lo brk max bl3 (l1 ++ l2) (nb + 16));
      [exact Hc4|exact Hlk|exact Hnin|exact Hmax3|exact HW|].
    intros m5 Hc5 Hfr5. apply wpx_ret. split; [reflexivity|].
    exists m5, bl3, (l1 ++ l2 ++ [nb + 16]). split; [reflexivity|].
    split; [|split].
    + apply exp_heap_inv_intro; try assumption.
      * rewrite app_assoc. exact Hc5.
      * unfold bl3. rewrite free_nodes_app. cbn [free_nodes]. fold fb. fold nb.
        replace (nb + 16 + rest) with (fb + 16 + bsz) by (unfold nb, rest; lia).
        apply (swap_node_iff l1 l2 _ _ (fb + 16)); [exact Hnd|exact HND|].
        rewrite <- HFN. exact Hfl.
      * unfold bl3. rewrite (app_cons_assoc pre (size, true)).
        apply naf_insert; [|exact Hnpost|].
        -- apply naf_insert; [exact Hnpre|reflexivity|left; reflexivity].
        -- right. split; [apply ends_alloc_snoc|exact Hsa].
      * rewrite Hspan3. exact Hend.
    + right. split; [lia|]. split; [reflexivity|]. fold fb. fold nb. reflexivity.
    + intros x Hx Hxo. pose proof (Hcl3 x Hx Hxo) as Hx3.
      rewrite Hfr5.
      2:{ destruct Hx3 as (Hx1 & Hx2 & Hx3). split; [exact Hx1|]. split; [exact Hx2|].
          intros n [<-|Hn]; [unfold nb; lia|]. apply Hx3. unfold fl.
          apply in_app_or in Hn. apply in_or_app.
          destruct Hn as [Hn|Hn]; [left; exact Hn|right; right; exact Hn]. }
      rewrite Hfr4 by exact Hx3.
      rewrite Hfr3; [|apply Hcl1; exact Hx|exact Hxo].
      apply Hfr1. exact Hx.
Qed.

Lemma wpx_bind_any {S A B} (c : M S A) (k : A -> M S B) (Q : B -> S -> Prop) s :
  (forall x s', wpx false (k x) Q s') -> wpx false (bind c k) Q s.
Proof.
  intros H. unfold wpx, bind. destruct (c s) as [[x s']| |]; [apply H|reflexivity..].
Qed.

(** The loop of [find_fit]: the nodes [l2] nearer to the tail sentinel
    have been passed over, the nodes [l1] are still to be looked at, the
    last of them first. *)
Lemma exp_find_fit_from_spec b size m lo brk max bl fl :
  heap_inv (St m lo brk max lo (lo + 16)) bl fl ->
  0 <= size -> size mod 16 = 0 ->
  forall fuel l1 l2, fl = l1 ++ l2 ->
    (forall x, In x l2 -> node_size m x < size) ->
    (b = true -> 16 <= size /\ (length l1 < fuel)%nat) ->
    wpx b (find_fit_from fuel size (last_of lo l1))
      (find_fit_result m lo brk max bl fl size)
      (St m lo brk max lo (lo + 16)).
Proof.
  intros Hinv Hs0 Hsm. induction fuel as [|fuel IH]; intros l1 l2 Hfl Hrej Hb.
  - cbn [find_fit_from]. destruct b; [destruct (Hb eq_refl); lia|reflexivity].
  - cbn [find_fit_from]. apply wpx_bind, wpx_gets. cbn [first].
    destruct (snoc_case l1) as [->|(l1' & n & ->)].
    + cbn [last_of]. rewrite Z.eqb_refl. cbn [negb]. apply wpx_ret. left.
      split; [reflexivity|]. split; [reflexivity|]. rewrite Hfl. exact Hrej.
    + rewrite last_of_snoc. rewrite <- app_assoc in Hfl. cbn [app] in Hfl.
      assert (Hn : In n fl).
      { rewrite Hfl. apply in_or_app. right. left. reflexivity. }
      pose proof Hinv as (_ & _ & Hc & Hflb & Hnaf & Hbrk & HW & Hend).
      cbn [ar mem mem_lo mem_brk mem_max first last] in *.
      pose proof Hc as (Hlo & Hal & Hw & Hbk & Hd & Hnd & Hok).
      destruct (node_block m lo bl fl n Hc Hflb Hn)
        as (pre & bsz & post & Ebl & En & Hrd & Hns & Hb16 & Hbm & Hsp & Hspo).
      destruct (cfg_sentinels _ _ _ _ n Hc Hn) as [Hnlo _].
      assert (Hspan : span bl = span pre + 16 + bsz + span post).
      { rewrite Ebl, span_app. cbn [span]. lia. }
      assert (Hnm : n mod 16 = 0) by (apply (Hok n Hn)).
      replace (n =? lo) with false by (symmetry; apply Z.eqb_neq; exact Hnlo).
      cbn [negb]. unfold get_block_from_linked_node. rewrite ALIGNMENT_eq.
      rewrite wsub_small by lia.
      assert (Hrd' : rd m (n - 16 + 8) = tag bsz false).
      { replace (n - 16 + 8) with (n - 8) by lia. exact Hrd. }
      apply wpx_bind. eapply (exp_wpx_get_size b m lo brk max _ _ (n - 16) bsz false);
        [exact Hlo|exact HW|lia|lia|lia|exact Hrd'|lia|mlia|].
      destruct (Z.leb_spec size bsz) as [Hfit|Hno].
      * (* this block fits *)
        assert (Hpost : forall r s', r = n - 16 ->
          (16 <= size -> exists m' bl' fl',
             s' = St m' lo brk max lo (lo + 16) /\ heap_inv s' bl' fl' /\
             take_result lo pre bsz post l1' l2 size bl' fl' /\
             forall x, clear lo bl fl x -> x < n \/ n + bsz <= x -> m' x = m x) ->
          find_fit_result m lo brk max bl fl size r s').
        { intros r s' Er Hres. right. exists l1', n, l2, pre, bsz, post.
          split; [exact Hfl|]. split; [exact Er|]. split; [exact Hnm|].
          split; [lia|]. split; [lia|]. split; [exact Hrej|].
          split; [exact Ebl|]. split; [exact En|]. split; [exact Hns|]. exact Hres. }
        destruct (Z.le_gt_cases 16 size) as [H16|H16].
        -- eapply wpx_conseq.
           ++ replace (n - 16) with (lo + 32 + span pre) by lia.
              apply (exp_take_spec b m lo brk max pre bsz post l1' l2 size);
                [|exact H16|exact Hsm|exact Hfit].
              replace (lo + 32 + span pre + 16) with n by lia.
              rewrite <- Ebl, <- Hfl. exact Hinv.
           ++ cbv beta. intros r s' (Er & m' & bl' & fl' & Es & Hi & Ht & Hfr).
              apply Hpost; [lia|]. intros _. exists m', bl', fl'.
              split; [exact Es|]. split; [exact Hi|]. split; [exact Ht|].
              intros x Hx Hxo. apply Hfr; [rewrite <- Ebl, <- En, <- Hfl; exact Hx|lia].
        -- destruct b; [destruct (Hb eq_refl); lia|].
           apply wpx_bind_any. intros sz s1. apply wpx_bind_any. intros u s2.
           destruct (bsz <? _); apply wpx_then_ret;
             intros s'; (apply Hpost; [reflexivity|lia]).
      * (* it does not: on to the node before it *)
        unfold off_prev. rewrite wadd_small by lia. rewrite Z.add_0_r.
        apply wpx_bind. apply exp_wpx_load; [lia|lia|].
        rewrite Hfl in Hd. rewrite (dll_prev _ _ _ _ _ _ Hd).
        apply (IH l1' (n :: l2)); [exact Hfl| |].
        -- intros x [<-|Hx]; [lia|apply Hrej; exact Hx].
        -- intros E. destruct (Hb E) as [H1 H2]. split; [exact H1|].
           rewrite length_app in H2. cbn [length] in H2. lia.
Qed.

Lemma exp_find_fit_spec b fuel size m lo brk max bl fl :
  heap_inv (St m lo brk max lo (lo + 16)) bl fl ->
  0 <= size -> size mod 16 = 0 ->
  (b = true -> 16 <= size /\ (length fl < fuel)%nat) ->
  wpx b (find_fit fuel size) (find_fit_result m lo brk max bl fl size)
    (St m lo brk max lo (lo + 16)).
Proof.
  intros Hinv Hs0 Hsm Hb.
  pose proof Hinv as (_ & _ & Hc & _ & _ & Hbrk & HW & Hend).
  cbn [ar mem mem_lo mem_brk mem_max first last] in *.
  pose proof Hc as (Hlo & Hal & Hw & Hbk & Hd & Hnd & Hok).
  pose proof (blocks_span _ _ _ _ _ Hbk) as Hsp.
  unfold find_fit. apply wpx_bind, wpx_gets. cbn [last].
  unfold off_prev. rewrite wadd_small by lia. rewrite Z.add_0_r.
  apply wpx_bind. apply exp_wpx_load; [lia|lia|].
  rewrite (dll_last _ _ _ _ Hd).
  apply (exp_find_fit_from_spec b size m lo brk max bl fl Hinv Hs0 Hsm fuel fl []).
  - symmetry. apply app_nil_r.
  - intros x [].
  - exact Hb.
Qed.

(** ** The explicit list: growing the heap *)

(** The tags [mm_malloc] writes after growing the heap: a new epilogue,
    the header in place of the old epilogue, the footer. *)
Lemma cfg_grow m lo bl fl size :
  let e := lo + 32 + span bl in
  let t := tag size true in
  cfg m lo bl fl -> 0 <= size -> size mod 16 = 0 -> e + 16 + size + 16 < W ->
  cfg (wr (wr (wr m (e + 16 + size + 8) 1) (e + 8) t) (e + 16 + size) t)
      lo (bl ++ [(size, true)]) fl /\
  forall x, x < e + 8 ->
    wr (wr (wr m (e + 16 + size + 8) 1) (e + 8) t) (e + 16 + size) t x = m x.
Proof.
  intros e t (Hlo & Hal & Hw & Hb & Hd & Hnd & Hok) Hs0 Hsm Hw'.
  pose proof (blocks_span _ _ _ _ _ Hb) as Hsp.
  assert (Ht : 0 <= t < W) by (apply tag_range; unfold e in Hw'; lia).
  split.
  2:{ intros x Hx. rewrite !wr_out by lia. reflexivity. }
  unfold cfg. rewrite span_app. cbn [span].
  split; [exact Hlo|]. split; [exact Hal|]. split; [fold e; lia|].
  split; [|split; [|split]].
  - apply blocks_app. split.
    + cbn [hd_tag]. fold t.
      apply blocks_wr_above; [|fold e; lia].
      eapply blocks_set_nh; [|exact Ht].
      apply blocks_wr_above; [exact Hb|fold e; lia].
    + fold e. cbn [blocks]. fold t.
      destruct (blocks_end _ _ _ _ _ Hb) as [Hend _]. fold e in Hend.
      split; [rewrite !rd_wr_other by lia; exact Hend|].
      split; [rewrite rd_wr_other by lia; apply rd_wr_same; exact Ht|].
      split; [exact Hs0|]. split; [exact Hsm|]. split; [discriminate|].
      split; [apply rd_wr_same; exact Ht|].
      rewrite !rd_wr_other by lia. apply rd_wr_same. unfold W. lia.
  - assert (Hn : forall n, In n fl -> n + 16 <= e).
    { intros n Hn. destruct (Hok n Hn) as (_ & _ & H & _). exact H. }
    apply dll_wr; [|lia|lia|intros n Hi; specialize (Hn n Hi); lia].
    apply dll_wr; [|lia|lia|intros n Hi; specialize (Hn n Hi); lia].
    apply dll_wr; [exact Hd|lia|lia|intros n Hi; specialize (Hn n Hi); lia].
  - exact Hnd.
  - intros n Hn. destruct (Hok n Hn) as (H1 & H2 & H3 & H4).
    unfold node_ok. rewrite span_app. cbn [span].
    split; [exact H1|]. split; [exact H2|]. split; [lia|].
    intros x Hx. apply bounds_app_in in Hx. destruct Hx as [Hx|Hx].
    + apply H4. exact Hx.
    + fold e in Hx. cbn [bounds] in Hx. destruct Hx as [<-|[<-|[]]]; fold e in H3; lia.
Qed.

(** ** The explicit list: allocation *)

Lemma exp_malloc_spec b fuel n m lo brk max bl fl :
  let size := round_up n ALIGNMENT in
  heap_inv (St m lo brk max lo (lo + 16)) bl fl -> max + 16 <= W ->
  (b = true -> 16 <= size /\ (length fl < fuel)%nat /\ brk + size + 16 <= max) ->
  wpx b (mm_malloc fuel n)
    (fun p s' =>
       (p = NULL \/ p mod 16 = 0) /\
       (16 <= size -> exists m' brk' bl' fl',
          s' = St m' lo brk' max lo (lo + 16) /\ heap_inv s' bl' fl' /\
          ((p = NULL /\ m' = m /\ bl' = bl /\ fl' = fl /\ max < brk + size + 8 /\
            forall x, In x fl -> node_size m x < size) \/
           (p <> NULL /\ alloc_result m lo bl fl size p m' bl' fl'))))
    (St m lo brk max lo (lo + 16)).
Proof.
  intros size Hinv HmaxW Hb.
  pose proof Hinv as (_ & _ & Hc & Hfl & Hnaf & Hbrk & HW & Hend).
  cbn [ar mem mem_lo mem_brk mem_max first last] in *.
  pose proof Hc as (Hlo & Hal & Hw & Hbk & Hd & Hnd & Hok).
  pose proof (blocks_span _ _ _ _ _ Hbk) as Hsp.
  pose proof (blocks_span_mod _ _ _ _ _ Hbk) as Hspm.
  assert (Hs0 : 0 <= size < W) by apply wrap_range.
  assert (Hsm : size mod 16 = 0) by apply round_up_mod16.
  set (e := lo + 32 + span bl) in *.
  unfold mm_malloc. cbv zeta. fold size.
  apply wpx_bind. eapply wpx_conseq.
  { apply (exp_find_fit_spec b fuel size m lo brk max bl fl Hinv); [lia|exact Hsm|].
    intros E. destruct (Hb E) as (H1 & H2 & _). split; assumption. }
  cbv beta. intros r s1 Hr.
  destruct Hr as [(-> & -> & Hrej)
                 |(k1 & nd & k2 & pre & bsz & post & Efl & Er & Hndm & Hr16 & Hfit & Hrej
                   & Ebl & End & Hns & Hres)].
  - (* nothing on the list fits: the heap grows *)
    rewrite Z.eqb_refl. cbn [negb].
    apply wpx_bind. apply exp_wpx_sbrk; intros HA.
    + rewrite ALIGNMENT_eq. rewrite wsub_small by lia. unfold sizeof_size_t.
      apply wpx_bind. apply exp_wpx_sbrk; intros HA1.
      * replace (brk + size =? MINUS1) with false
          by (symmetry; apply Z.eqb_neq; rewrite MINUS1_eq; lia).
        replace (brk - 16 =? MINUS1) with false
          by (symmetry; apply Z.eqb_neq; rewrite MINUS1_eq; lia).
        apply wpx_bind. apply exp_wpx_sbrk; intros HA1a.
        -- change (Z.lor 0 (Z.b2z true)) with 1.
           apply wpx_bind. apply exp_wpx_store; [lia|lia|].
           assert (Hbrk_eq : brk = e + 16) by (destruct Hend as [E|[_ E]]; [exact E|lia]).
           apply wpx_bind. eapply wpx_set_header_footer;
             [exact Hlo|exact HW|lia|lia|lia|lia|mlia|].
           apply wpx_ret. unfold payload, off_payload.
           change (wmul 2 sizeof_size_t) with 16. rewrite wadd_small by lia.
           replace (brk - 16 + 16 + size) with (e + 16 + size) by lia.
           replace (brk - 16 + 8) with (e + 8) by lia.
           replace (brk - 16 + 16) with brk by lia.
           replace (wr m (brk + size + 8) 1) with (wr m (e + 16 + size + 8) 1)
             by (f_equal; lia).
           split; [right; rewrite Hbrk_eq; unfold e; mlia|].
           intros H16.
           destruct (cfg_grow m lo bl fl size Hc) as [Hc' Hfr];
             [lia|exact Hsm|fold e; lia|].
           fold e in Hc', Hfr.
           eexists _, _, (bl ++ [(size, true)]), fl. split; [reflexivity|]. split.
           ++ apply exp_heap_inv_intro; try assumption.
              ** rewrite free_nodes_app. cbn [free_nodes]. rewrite app_nil_r. exact Hfl.
              ** apply naf_insert; [exact Hnaf|reflexivity|left; reflexivity].
              ** left. rewrite span_app. cbn [span]. fold e. lia.
           ++ right. split; [unfold NULL; lia|]. right.
              split; [lia|]. split; [reflexivity|]. split; [reflexivity|].
              split; [exact Hrej|exact Hfr].
        -- apply wpx_bind. apply exp_wpx_store_cases.
           ++ intros E. destruct (Hb E) as (_ & _ & H). lia.
           ++ intros H1 H2. exfalso. rewrite MINUS1_eq in H2. lia.
      * rewrite Z.eqb_refl. apply wpx_ret. split; [left; reflexivity|].
        intros H16. exists m, (brk + size), bl, fl. split; [reflexivity|]. split.
        -- apply exp_heap_inv_intro; try assumption. right. fold e. split; [|lia].
           destruct Hend as [E|[E _]]; lia.
        -- left. repeat split; try reflexivity; [lia|exact Hrej].
    + rewrite ALIGNMENT_eq.
      assert (E : wsub MINUS1 16 = W - 17) by reflexivity. rewrite E. clear E.
      unfold sizeof_size_t.
      apply wpx_bind. apply exp_wpx_sbrk; intros HB1.
      * destruct b; [destruct (Hb eq_refl) as (_ & _ & H); lia|].
        replace (brk =? MINUS1) with false
          by (symmetry; apply Z.eqb_neq; rewrite MINUS1_eq; lia).
        change (W - 17 =? MINUS1) with false. cbv iota.
        apply wpx_bind. apply exp_wpx_sbrk; intros HB1a;
          (apply wpx_bind; apply exp_wpx_store_cases; [discriminate|intros H1 H2]).
        -- unfold set_header_footer. apply wpx_bind. apply wpx_bind.
           apply exp_wpx_store_cases; [discriminate|intros H3 H4; exfalso].
           change (wadd (W - 17) off_header) with (W - 9) in H4. lia.
        -- exfalso. rewrite MINUS1_eq in H2. lia.
      * rewrite Z.eqb_refl. apply wpx_ret. split; [left; reflexivity|].
        intros H16. exists m, brk, bl, fl. split; [reflexivity|]. split; [exact Hinv|].
        left. repeat split; try reflexivity; [lia|exact Hrej].
  - (* a block on the list fits *)
    replace (r =? NULL) with false by (symmetry; apply Z.eqb_neq; unfold NULL; lia).
    cbn [negb]. apply wpx_ret.
    assert (Hndr : 0 <= nd < W).
    { apply (cfg_cells m lo bl fl nd Hc). right. right. rewrite Efl.
      apply in_or_app. right. left. reflexivity. }
    unfold payload, off_payload. change (wmul 2 sizeof_size_t) with 16.
    rewrite wadd_small by lia. replace (r + 16) with nd by lia.
    split; [right; exact Hndm|]. intros H16.
    destruct (Hres H16) as (m' & bl' & fl' & Es & Hi & Ht & Hfr).
    exists m', brk, bl', fl'. split; [exact Es|]. split; [exact Hi|].
    right. split; [unfold NULL; lia|]. left.
    exists k1, k2, pre, bsz, post. repeat split; try assumption. lia.
Qed.

(** ** The explicit list: start *)

Lemma exp_init_spec b m lo max f l :
  0 < lo -> lo mod 16 = 0 -> max < W ->
  wpx b mm_init
    (fun r s' =>
       (r = true /\ lo + 48 <= max /\ exists m',
          s' = St m' lo (lo + 48) max lo (lo + 16) /\ heap_inv s' [] [] /\
          forall x, x < lo \/ lo + 48 <= x -> m' x = m x) \/
       (r = false /\ max < lo + 48))
    (St m lo lo max f l).
Proof.
  intros Hlo Hal HW. unfold mm_init.
  rewrite ALIGNMENT_eq. unfold sizeof_size_t, set_first, set_last.
  apply wpx_bind. apply exp_wpx_sbrk; intros H1;
    (apply wpx_bind; apply wpx_modify; cbn [ar first last]).
  2:{ apply wpx_bind. apply exp_wpx_sbrk; intros H2; [lia|].
      apply wpx_bind. apply wpx_modify. rewrite Z.eqb_refl. cbn [orb].
      apply wpx_ret. right. split; [reflexivity|lia]. }
  apply wpx_bind. apply exp_wpx_sbrk; intros H2;
    (apply wpx_bind; apply wpx_modify; cbn [ar first last]).
  2:{ rewrite Z.eqb_refl. rewrite orb_true_r.
      apply wpx_ret. right. split; [reflexivity|lia]. }
  replace (lo =? MINUS1) with false by (symmetry; apply Z.eqb_neq; rewrite MINUS1_eq; lia).
  replace (lo + 16 =? MINUS1) with false
    by (symmetry; apply Z.eqb_neq; rewrite MINUS1_eq; lia).
  cbn [orb]. unfold off_prev, off_next, sizeof_size_t.
  rewrite !(wadd_small lo) by lia. rewrite !(wadd_small (lo + 16)) by lia.
  rewrite !Z.add_0_r. replace (lo + 16 + 8) with (lo + 24) by lia.
  apply wpx_bind. apply exp_wpx_store; [lia|lia|].
  apply wpx_bind. apply exp_wpx_store; [lia|lia|].
  apply wpx_bind. apply exp_wpx_store; [lia|lia|].
  apply wpx_bind. apply exp_wpx_store; [lia|lia|].
  apply wpx_bind. apply exp_wpx_sbrk; intros H3.
  2:{ apply wpx_bind. apply exp_wpx_sbrk; intros H4; [lia|].
      rewrite Z.eqb_refl. rewrite orb_true_r.
      apply wpx_ret. right. split; [reflexivity|lia]. }
  apply wpx_bind. apply exp_wpx_sbrk; intros H4.
  2:{ rewrite Z.eqb_refl. rewrite orb_true_r.
      apply wpx_ret. right. split; [reflexivity|lia]. }
  replace (lo + 16 + 16 =? MINUS1) with false
    by (symmetry; apply Z.eqb_neq; rewrite MINUS1_eq; lia).
  replace (lo + 16 + 16 + 8 =? MINUS1) with false
    by (symmetry; apply Z.eqb_neq; rewrite MINUS1_eq; lia).
  cbn [orb]. change (Z.lor 0 (Z.b2z true)) with 1.
  apply wpx_bind. apply exp_wpx_store; [lia|lia|].
  apply wpx_bind. apply exp_wpx_store; [lia|lia|].
  apply wpx_ret. left. split; [reflexivity|]. split; [lia|].
  replace (lo + 16 + 16 + 8 + 8) with (lo + 48) by lia.
  replace (lo + 16 + 16 + 8) with (lo + 40) by lia.
  replace (lo + 16 + 16) with (lo + 32) by lia.
  eexists. split; [reflexivity|]. split.
  - assert (H1' : 0 <= 1 < W) by (unfold W; lia).
    apply exp_heap_inv_intro.
    + unfold cfg. cbn [span blocks dll].
      split; [exact Hlo|]. split; [exact Hal|]. split; [lia|].
      split; [|split; [|split; [constructor|intros n []]]].
      * split; [rewrite rd_wr_other by lia; apply rd_wr_same; exact H1'|].
        replace (lo + 32 + 8) with (lo + 40) by lia. apply rd_wr_same. exact H1'.
      * split.
        -- rewrite !(rd_wr_other _ _ _ (lo + 8)) by lia. apply rd_wr_same. lia.
        -- rewrite !(rd_wr_other _ _ _ (lo + 16)) by lia. apply rd_wr_same. lia.
    + intros n. cbn [free_nodes]. tauto.
    + reflexivity.
    + lia.
    + exact HW.
    + left. cbn [span]. lia.
  - intros x Hx. rewrite !wr_out by lia. reflexivity.
Qed.

(** ** The explicit list: the claims *)

Lemma last_fit_unique {A} (n n' : A) l2 k2 : forall l1 k1,
  l1 ++ n :: l2 = k1 ++ n' :: k2 -> ~ In n' l2 -> ~ In n k2 ->
  l1 = k1 /\ n = n' /\ l2 = k2.
Proof.
  induction l1 as [|a l1 IH]; intros [|x k1] E H1 H2; cbn [app] in E.
  - injection E as E1 E2. repeat split; assumption.
  - injection E as E1 E2. exfalso. apply H1. rewrite E2.
    apply in_or_app. right. left. reflexivity.
  - injection E as E1 E2. exfalso. apply H2. rewrite <- E2.
    apply in_or_app. right. left. reflexivity.
  - injection E as E1 E2. destruct (IH k1 E2 H1 H2) as (-> & -> & ->).
    subst x. repeat split; reflexivity.
Qed.




(** ** The explicit list: an example heap *)

Lemma demo_inv : heap_inv demo demo_blocks demo_list.
Proof.
  assert (E1 : mem_lo (ar demo) = 65536) by (vm_compute; reflexivity).
  assert (E2 : mem_brk (ar demo) = 65712) by (vm_compute; reflexivity).
  assert (E3 : mem_max (ar demo) = 69632) by (vm_compute; reflexivity).
  unfold heap_inv. cbv zeta. rewrite E1, E2, E3.
  split; [vm_compute; reflexivity|]. split; [vm_compute; reflexivity|].
  split; [|split; [|split; [|split; [|split]]]].
  - unfold cfg, demo_blocks, demo_list. cbn [span blocks dll].
    split; [lia|]. split; [reflexivity|]. split; [reflexivity|].
    split; [|split; [|split]].
    + repeat split; try discriminate; try (vm_compute; reflexivity);
        try (intros _; lia); try lia.
    + repeat split; vm_compute; reflexivity.
    + repeat constructor; cbn [In]; lia.
    + intros n [<-|[<-|[]]]; unfold node_ok; cbn [span bounds In];
        (split; [reflexivity|]); (split; [lia|]); (split; [lia|]); intros x Hx; lia.
  - intros n. unfold demo_list, demo_blocks. cbn [free_nodes In]. lia.
  - reflexivity.
  - lia.
  - unfold W. lia.
  - left. reflexivity.
Qed.



End ExplicitProofs.

(** * Both lists: alignment of the payloads *)

Lemma wpx_value {S A} b (c : M S A) (Q : A -> S -> Prop) s x :
  wpx b c Q s -> value (c s) = Ok x -> exists s', Q x s'.
Proof.
  unfold wpx, value. destruct (c s) as [[y s']| |]; intros H E; try discriminate.
  injection E as <-. exists s'. exact H.
Qed.

Lemma imp_demo_inv : ImplicitSpec.heap_inv ImplicitSpec.demo ImplicitSpec.demo_blocks.
Proof.
  assert (E1 : mem_lo (Implicit.ar ImplicitSpec.demo) = 65536) by (vm_compute; reflexivity).
  assert (E2 : mem_brk (Implicit.ar ImplicitSpec.demo) = 65576) by (vm_compute; reflexivity).
  assert (E3 : mem_max (Implicit.ar ImplicitSpec.demo) = 69632) by (vm_compute; reflexivity).
  assert (E4 : Implicit.mm_heap_first ImplicitSpec.demo = 65544) by (vm_compute; reflexivity).
  assert (E5 : Implicit.mm_heap_last ImplicitSpec.demo = 65560) by (vm_compute; reflexivity).
  unfold ImplicitSpec.heap_inv, ImplicitSpec.demo_blocks. cbv zeta.
  rewrite E1, E2, E3, E4, E5. cbn [ImplicitSpec.total ImplicitSpec.blocks_at].
  split; [lia|]. split; [reflexivity|]. split; [unfold W; lia|]. split; [lia|].
  split; [reflexivity|]. split; [|split].
  - repeat split; try (vm_compute; reflexivity); lia.
  - discriminate.
  - intros _. lia.
Qed.

(** C5.  In a heap that satisfies the invariant of its list, a call of
    [mm_malloc] that returns a pointer other than [NULL] returns a
    multiple of [ALIGNMENT = 2 * sizeof(size_t)], whatever the size asked
    for: in the implicit list, and in the explicit list (whose arena
    ends at least 16 bytes below the top of the address space). *)
Theorem malloc_aligned :
  (forall (s : Implicit.state) bl fuel n p,
     ImplicitSpec.heap_inv s bl ->
     value (Implicit.mm_malloc fuel n s) = Ok p -> p <> NULL ->
     p mod ALIGNMENT = 0) /\
  (forall (s : Explicit.state) bl fl fuel n p,
     ExplicitSpec.heap_inv s bl fl -> mem_max (Explicit.ar s) + 16 <= W ->
     value (Explicit.mm_malloc fuel n s) = Ok p -> p <> NULL ->
     p mod ALIGNMENT = 0).
Proof.
  split.
  - intros [[m lo brk max] f l] bl fuel n p Hinv Hrun Hp.
    destruct (wpx_value false _ _ _ p
                (ImplicitProofs.imp_malloc_spec false fuel n m lo brk max f l bl Hinv
                   ltac:(discriminate)) Hrun) as (s' & [E|E] & _).
    + contradiction.
    + rewrite ALIGNMENT_eq. exact E.
  - intros [[m lo brk max] f l] bl fl fuel n p Hinv Hmax Hrun Hp.
    pose proof Hinv as (Hf & Hl & _).
    cbn [Explicit.ar Explicit.first Explicit.last mem_lo mem_max] in Hf, Hl, Hmax.
    subst f l.
    destruct (wpx_value false _ _ _ p
                (ExplicitProofs.exp_malloc_spec false fuel n m lo brk max bl fl Hinv Hmax
                   ltac:(discriminate)) Hrun) as (s' & [E|E] & _).
    + contradiction.
    + rewrite ALIGNMENT_eq. exact E.
Qed.

Lemma malloc_aligned_witness :
  (ImplicitSpec.heap_inv ImplicitSpec.demo ImplicitSpec.demo_blocks /\
   value (Implicit.mm_malloc 8 20 ImplicitSpec.demo) = Ok 65584 /\ 65584 <> NULL /\
   65584 mod ALIGNMENT = 0) /\
  (ExplicitSpec.heap_inv ExplicitSpec.demo ExplicitSpec.demo_blocks ExplicitSpec.demo_list /\
   mem_max (Explicit.ar ExplicitSpec.demo) + 16 <= W /\
   value (Explicit.mm_malloc 8 5 ExplicitSpec.demo) = Ok 65648 /\ 65648 <> NULL /\
   65648 mod ALIGNMENT = 0).
Proof.
  split.
  - split; [exact imp_demo_inv|]. split; [vm_compute; reflexivity|].
    split; [discriminate|].
    apply (proj1 malloc_aligned ImplicitSpec.demo ImplicitSpec.demo_blocks 8%nat 20 65584);
      [exact imp_demo_inv|vm_compute; reflexivity|discriminate].
  - split; [exact ExplicitProofs.demo_inv|]. split; [vm_compute; discriminate|].
    split; [vm_compute; reflexivity|]. split; [discriminate|].
    apply (proj2 malloc_aligned ExplicitSpec.demo ExplicitSpec.demo_blocks
             ExplicitSpec.demo_list 8%nat 5 65648);
      [exact ExplicitProofs.demo_inv|vm_compute; discriminate|vm_compute; reflexivity
      |discriminate].
Defined.

(** * Further properties of the code *)

(** ** Rounding and pointer arithmetic *)

Lemma run_ok {S A} (c : M S A) s x : value (c s) = Ok x -> c s = Ok (x, after c s).
Proof.
  unfold value, after. destruct (c s) as [[y s']| |]; intros E; try discriminate.
  injection E as <-. reflexivity.
Qed.

(** X1.  [round_up size ALIGNMENT] (both files): for a size that is at
    least 15 below [2^64] the result is the least multiple of
    [ALIGNMENT = 16] that is not below the size. *)
Theorem round_up_least_multiple n :
  0 <= n -> n + 15 < W ->
  round_up n ALIGNMENT mod ALIGNMENT = 0 /\
  n <= round_up n ALIGNMENT < n + ALIGNMENT /\
  forall k, k mod ALIGNMENT = 0 -> n <= k -> round_up n ALIGNMENT <= k.
Proof.
  intros H0 H1. rewrite round_up_16 by assumption. rewrite ALIGNMENT_eq.
  split; [apply Z.mod_mul; lia|]. split.
  - pose proof (Z.div_mod (n + 15) 16 ltac:(lia)) as E.
    pose proof (Z.mod_pos_bound (n + 15) 16 ltac:(lia)). lia.
  - intros k Hk Hnk.
    pose proof (Z.div_mod (n + 15) 16 ltac:(lia)) as E.
    pose proof (Z.mod_pos_bound (n + 15) 16 ltac:(lia)) as B.
    pose proof (Z.div_mod k 16 ltac:(lia)) as Ek. rewrite Hk in Ek. lia.
Qed.

Lemma round_up_least_multiple_witness :
  0 <= 20 /\ 20 + 15 < W /\
  round_up 20 ALIGNMENT mod ALIGNMENT = 0 /\
  20 <= round_up 20 ALIGNMENT < 20 + ALIGNMENT.
Proof.
  split; [lia|]. split; [reflexivity|].
  destruct (round_up_least_multiple 20 ltac:(lia) ltac:(reflexivity)) as (H1 & H2 & _).
  split; [exact H1|exact H2].
Defined.

(** X2.  [round_up] does not check for overflow: a size within 15 of
    [2^64] is rounded to [0]. *)
Theorem round_up_wraps n : W - 15 <= n < W -> round_up n ALIGNMENT = 0.
Proof.
  intros H. unfold round_up. rewrite ALIGNMENT_eq.
  change (wsub 16 1) with 15. unfold wadd, wrap.
  replace ((n + 15) mod W) with (n + 15 - W).
  - rewrite Z.div_small by lia. reflexivity.
  - apply Z.mod_unique with (q := 1); unfold W in *; lia.
Qed.

Lemma round_up_wraps_witness :
  W - 15 <= W - 8 < W /\ round_up (W - 8) ALIGNMENT = 0.
Proof.
  split; [split; [apply Z.leb_le|apply Z.ltb_lt]; reflexivity|].
  apply (round_up_wraps (W - 8)).
  split; [apply Z.leb_le|apply Z.ltb_lt]; reflexivity.
Defined.

(** X3.  Block pointers and payload pointers convert back and forth: in
    both files [block_from_payload] undoes [payload] (the address of
    [block->payload]) and the other way round, and in the explicit list
    [get_block_from_linked_node] undoes [get_linked_node_from_block],
    for every 64-bit address, wrap-around included. *)
Theorem payload_round_trip b :
  0 <= b < W ->
  Implicit.block_from_payload (Implicit.payload b) = b /\
  Implicit.payload (Implicit.block_from_payload b) = b /\
  Explicit.block_from_payload (Explicit.payload b) = b /\
  Explicit.payload (Explicit.block_from_payload b) = b /\
  Explicit.get_block_from_linked_node (Explicit.get_linked_node_from_block b) = b /\
  Explicit.get_linked_node_from_block (Explicit.get_block_from_linked_node b) = b.
Proof.
  intros H.
  assert (A : forall k, wsub (wadd b k) k = b).
  { intros k. unfold wsub, wadd, wrap. rewrite Zminus_mod_idemp_l.
    replace (b + k - k) with b by lia. apply Z.mod_small. exact H. }
  assert (B : forall k, wadd (wsub b k) k = b).
  { intros k. unfold wsub, wadd, wrap. rewrite Zplus_mod_idemp_l.
    replace (b - k + k) with b by lia. apply Z.mod_small. exact H. }
  unfold Implicit.block_from_payload, Implicit.payload, Explicit.block_from_payload,
    Explicit.payload, Explicit.get_block_from_linked_node,
    Explicit.get_linked_node_from_block, Explicit.off_payload.
  change (wmul 2 sizeof_size_t) with ALIGNMENT.
  repeat split; first [apply A|apply B].
Qed.

Lemma payload_round_trip_witness :
  0 <= 65568 < W /\
  Explicit.block_from_payload (Explicit.payload 65568) = 65568.
Proof.
  split; [split; [apply Z.leb_le|apply Z.ltb_lt]; reflexivity|].
  apply (payload_round_trip 65568).
  split; [apply Z.leb_le|apply Z.ltb_lt]; reflexivity.
Defined.

(** ** The implicit list *)

Module MoreImplicit.
Import Implicit ImplicitSpec ImplicitProofs.

(** X4.  Header words (implicit list): after [set_header block size
    flag] with an even size, [get_size block] gives the size back and
    [is_allocated block] the flag; no byte outside the header word
    changes. *)
Theorem imp_header_round_trip (s : state) block size al :
  in_arena (ar s) block 8 = true -> 0 <= size < W -> size mod 2 = 0 ->
  exists s',
    set_header block size al s = Ok (tt, s') /\
    get_size block s' = Ok (size, s') /\
    is_allocated block s' = Ok (al, s') /\
    forall x, x < block \/ block + 8 <= x -> mem (ar s') x = mem (ar s) x.
Proof.
  destruct s as [[m lo brk max] f l]. cbn [ar]. intros Hin Hs Hev.
  assert (Hs1 : size + 1 < W) by (unfold W in *; mlia).
  assert (Hv : 0 <= size + Z.b2z al < W) by (destruct al; cbn [Z.b2z]; lia).
  unfold set_header, lift, store64. cbn [ar]. rewrite Hin.
  eexists. split; [reflexivity|].
  unfold get_size, is_allocated, bind, lift, load64, set_mem.
  cbn [ar mem mem_lo mem_brk mem_max mm_heap_first mm_heap_last].
  change (in_arena (mkArena (wr m block (Z.lor size (Z.b2z al))) lo brk max) block 8)
    with (in_arena (mkArena m lo brk max) block 8).
  rewrite Hin. rewrite lor_b2z by exact Hev. rewrite rd_wr_same by exact Hv.
  unfold ret. rewrite tag_size by lia. rewrite tag_alloc by exact Hev.
  split; [reflexivity|]. split; [reflexivity|].
  intros x Hx. apply wr_out. exact Hx.
Qed.

Lemma imp_header_round_trip_witness :
  in_arena (ar (fresh 65536 4096)) 65544 8 = true /\ 0 <= 32 < W /\ 32 mod 2 = 0 /\
  exists s',
    set_header 65544 32 true (fresh 65536 4096) = Ok (tt, s') /\
    get_size 65544 s' = Ok (32, s') /\
    is_allocated 65544 s' = Ok (true, s').
Proof.
  split; [reflexivity|]. split; [split; [lia|reflexivity]|]. split; [reflexivity|].
  destruct (imp_header_round_trip (fresh 65536 4096) 65544 32 true)
    as (s' & H1 & H2 & H3 & _); [reflexivity|split; [lia|reflexivity]|reflexivity|].
  exists s'. split; [exact H1|]. split; [exact H2|exact H3].
Defined.

(** X5.  [mm_init] (implicit list) on an arena whose mark is at its
    16-aligned bottom: with 8 bytes of room it returns [true], moves the
    mark up by 8 (so that payloads are 16-aligned) and leaves a heap
    with no blocks that satisfies the invariant; with less room it
    returns [false] and changes nothing.  It never touches memory. *)
Theorem imp_init_establishes (s : state) :
  let lo := mem_lo (ar s) in
  mem_brk (ar s) = lo -> 0 < lo -> lo mod 16 = 0 -> mem_max (ar s) < W ->
  (lo + 8 <= mem_max (ar s) ->
   exists s', mm_init s = Ok (true, s') /\ heap_inv s' [] /\
              mem (ar s') = mem (ar s) /\ mem_brk (ar s') = lo + 8 /\
              mm_heap_first s' = NULL /\ mm_heap_last s' = NULL) /\
  (mem_max (ar s) < lo + 8 -> mm_init s = Ok (false, s)).
Proof.
  destruct s as [[m lo brk max] f l]. cbn [ar mem mem_lo mem_brk mem_max].
  intros -> Hlo Hal HW. unfold mm_init, bind, lift, mem_sbrk.
  cbn [ar mem mem_lo mem_brk mem_max mm_heap_first mm_heap_last].
  change (wsub ALIGNMENT sizeof_block_t) with 8.
  split; intros H.
  - replace (lo + 8 <=? max) with true by (symmetry; apply Z.leb_le; lia).
    replace (lo =? MINUS1) with false
      by (symmetry; apply Z.eqb_neq; rewrite MINUS1_eq; lia).
    eexists. split; [reflexivity|]. cbn [ar mem mem_brk mm_heap_first mm_heap_last].
    split; [|repeat split].
    apply heap_inv_nil; try assumption; cbn [total]; lia.
  - replace (lo + 8 <=? max) with false by (symmetry; apply Z.leb_gt; lia).
    rewrite Z.eqb_refl. reflexivity.
Qed.

Lemma imp_init_establishes_witness :
  mem_brk (ar (fresh 65536 4096)) = mem_lo (ar (fresh 65536 4096)) /\
  0 < 65536 /\ 65536 mod 16 = 0 /\ 69632 < W /\ 65536 + 8 <= 69632 /\
  exists s', mm_init (fresh 65536 4096) = Ok (true, s') /\ heap_inv s' [].
Proof.
  split; [reflexivity|]. split; [lia|]. split; [reflexivity|]. split; [reflexivity|].
  split; [lia|].
  destruct (imp_init_establishes (fresh 65536 4096)) as [H _];
    [reflexivity|reflexivity|reflexivity|reflexivity|].
  destruct H as (s' & H1 & H2 & _); [cbn; lia|].
  exists s'. split; [exact H1|exact H2].
Defined.

(** X6.  [mm_free] (implicit list) of an allocated block, in a heap that
    satisfies the invariant: the call returns, the block is marked free
    with its size kept, the invariant holds for the new block list, and
    no byte outside the block's header word changes (the payload of the
    freed block included).  Neighbouring free blocks are not merged. *)
Theorem imp_free_marks_block (s : state) pre sz post :
  let lo := mem_lo (ar s) in
  heap_inv s (pre ++ (sz, true) :: post) ->
  exists s',
    mm_free (lo + 8 + total pre + 8) s = Ok (tt, s') /\
    heap_inv s' (pre ++ (sz, false) :: post) /\
    mem_brk (ar s') = mem_brk (ar s) /\
    forall x, x < lo + 8 + total pre \/ lo + 8 + total pre + 8 <= x ->
              mem (ar s') x = mem (ar s) x.
Proof.
  destruct s as [[m lo brk max] f l]. cbn [ar mem mem_lo mem_brk]. intros Hinv.
  destruct (wpx_total _ _ _ (imp_free_spec true m lo brk max f l pre sz post Hinv))
    as ([] & s' & Hrun & -> & Hinv').
  eexists. split; [exact Hrun|]. split; [exact Hinv'|].
  cbn [ar mem mem_brk]. split; [reflexivity|].
  intros x Hx. apply wr_out. exact Hx.
Qed.

Lemma imp_free_marks_block_witness :
  heap_inv demo ([(16, false)] ++ (16, true) :: []) /\
  exists s',
    mm_free (mem_lo (ar demo) + 8 + total [(16, false)] + 8) demo = Ok (tt, s') /\
    heap_inv s' ([(16, false)] ++ (16, false) :: []).
Proof.
  split; [exact imp_demo_inv|].
  destruct (imp_free_marks_block demo [(16, false)] 16 [] imp_demo_inv)
    as (s' & H1 & H2 & _).
  exists s'. split; [exact H1|exact H2].
Defined.

(** X7.  The sweep [coalesce] (implicit list) is safe: in a heap that
    satisfies the invariant it returns (given fuel for every block), the
    invariant holds for the new block list, which has no more blocks
    than before, and every byte of an allocated block is still in an
    allocated block and unchanged. *)
Theorem imp_coalesce_safe (s : state) bl fuel :
  heap_inv s bl -> (length bl < fuel)%nat ->
  exists s' bl',
    coalesce fuel s = Ok (tt, s') /\ heap_inv s' bl' /\
    (length bl' <= length bl)%nat /\
    mem_brk (ar s') = mem_brk (ar s) /\
    (forall x, in_allocated (mem_lo (ar s) + 8) bl x ->
               in_allocated (mem_lo (ar s) + 8) bl' x /\
               mem (ar s') x = mem (ar s) x).
Proof.
  destruct s as [[m lo brk max] f l]. cbn [ar mem mem_lo mem_brk]. intros Hinv Hfuel.
  destruct (wpx_total _ _ _
              (coalesce_spec true fuel m lo brk max f l bl Hinv (fun _ => Hfuel)))
    as ([] & s' & Hrun & m' & bl' & -> & Hinv' & [Hp1 Hp2] & Hlen).
  exists (St m' lo brk max f l), bl'. split; [exact Hrun|]. split; [exact Hinv'|].
  split; [exact Hlen|]. split; [reflexivity|].
  intros x Hx. split; [apply Hp1; exact Hx|apply Hp2; exact Hx].
Qed.

Lemma imp_coalesce_safe_witness :
  heap_inv demo demo_blocks /\ (length demo_blocks < 8)%nat /\
  exists s' bl', coalesce 8 demo = Ok (tt, s') /\ heap_inv s' bl'.
Proof.
  split; [exact imp_demo_inv|]. split; [cbn; lia|].
  destruct (imp_coalesce_safe demo demo_blocks 8 imp_demo_inv) as (s' & bl' & H1 & H2 & _);
    [cbn; lia|].
  exists s', bl'. split; [exact H1|exact H2].
Defined.

(** X8.  [mm_malloc] (implicit list) for a request whose block size does
    not overflow ([n + 23 < 2^64]), in a heap that satisfies the
    invariant: the call returns; the invariant holds afterwards; every
    byte of a block that was allocated stays allocated and unchanged;
    and when the result is not [NULL] it is 16-aligned and the [n] bytes
    of the new payload (with the header word in front) lie in a block
    that is allocated now and was in no allocated block before. *)
Theorem imp_malloc_fresh_block (s : state) bl fuel n :
  heap_inv s bl -> 0 <= n -> n + 23 < W -> (length bl < fuel)%nat ->
  exists p s' bl',
    mm_malloc fuel n s = Ok (p, s') /\ heap_inv s' bl' /\
    (forall x, in_allocated (mem_lo (ar s) + 8) bl x ->
               in_allocated (mem_lo (ar s) + 8) bl' x /\
               mem (ar s') x = mem (ar s) x) /\
    mem_lo (ar s') = mem_lo (ar s) /\
    (p <> NULL ->
     p mod 16 = 0 /\
     forall x, p - 8 <= x < p + n ->
               in_allocated (mem_lo (ar s) + 8) bl' x /\
               ~ in_allocated (mem_lo (ar s) + 8) bl x).
Proof.
  destruct s as [[m lo brk max] f l]. cbn [ar mem mem_lo]. intros Hinv Hn0 Hn Hfuel.
  assert (Hsz : n + 8 <= block_size_for n /\ 16 <= block_size_for n).
  { unfold block_size_for, sizeof_block_t, sizeof_size_t.
    rewrite wadd_small by lia.
    rewrite round_up_16 by lia. mlia. }
  destruct Hsz as [Hsz H16].
  destruct (wpx_total _ _ _
              (imp_malloc_spec true fuel n m lo brk max f l bl Hinv
                 (fun _ => conj Hfuel H16)))
    as (p & s' & Hrun & Hal & Hres).
  destruct (Hres H16) as [(-> & m' & bl' & -> & Hinv' & [Hp1 Hp2])
                         |(Hp & m' & brk' & f' & l' & bl' & -> & Hinv' & [Hp1 Hp2] & Hnew)].
  - exists NULL, (St m' lo brk max f l), bl'. split; [exact Hrun|]. split; [exact Hinv'|].
    cbn [ar mem mem_lo]. split; [intros x Hx; split; [apply Hp1|apply Hp2]; exact Hx|].
    split; [reflexivity|]. intros E. exfalso. apply E. reflexivity.
  - exists p, (St m' lo brk' max f' l'), bl'. split; [exact Hrun|]. split; [exact Hinv'|].
    cbn [ar mem mem_lo]. split; [intros x Hx; split; [apply Hp1|apply Hp2]; exact Hx|].
    split; [reflexivity|]. intros _. split.
    + destruct Hal as [E|E]; [contradiction|exact E].
    + intros x Hx. apply Hnew. lia.
Qed.

Lemma imp_malloc_fresh_block_witness :
  heap_inv demo demo_blocks /\ 0 <= 20 /\ 20 + 23 < W /\ (length demo_blocks < 8)%nat /\
  exists p s' bl', mm_malloc 8 20 demo = Ok (p, s') /\ heap_inv s' bl'.
Proof.
  split; [exact imp_demo_inv|]. split; [lia|]. split; [reflexivity|]. split; [cbn; lia|].
  destruct (imp_malloc_fresh_block demo demo_blocks 8 20 imp_demo_inv)
    as (p & s' & bl' & H1 & H2 & _); [lia|reflexivity|cbn; lia|].
  exists p, s', bl'. split; [exact H1|exact H2].
Defined.

Lemma find_fit_from_first size lo brk max f l :
  let rej := fun b : Z * bool => snd b || (fst b <? size) in
  forall fuel done todo m,
    heap_inv (St m lo brk max f l) (done ++ todo) ->
    forallb rej done = true ->
    wpx false (find_fit_from fuel size (lo + 8 + total done))
      (fun r _ =>
         (r = NULL /\ exists d t, done ++ todo = d ++ t /\ forallb rej d = true /\
            (l = NULL \/ l < lo + 8 + total d)) \/
         (exists pre sz post,
            done ++ todo = pre ++ (sz, false) :: post /\ r = lo + 8 + total pre /\
            size <= sz /\ r <= l /\ forallb rej pre = true))
      (St m lo brk max f l).
Proof.
  intros rej. induction fuel as [|fuel IH]; intros done todo m Hinv Hrej.
  - reflexivity.
  - cbn [find_fit_from]. apply wpx_bind, wpx_gets. cbn [mm_heap_last].
    destruct (Z.eqb_spec l NULL) as [Hl0|Hl0]; cbn [negb andb].
    { apply wpx_ret. left. split; [reflexivity|]. exists done, todo.
      split; [reflexivity|]. split; [exact Hrej|left; exact Hl0]. }
    destruct (Z.leb_spec (lo + 8 + total done) l) as [Hle|Hgt].
    2:{ apply wpx_ret. left. split; [reflexivity|]. exists done, todo.
        split; [reflexivity|]. split; [exact Hrej|right; exact Hgt]. }
    pose proof Hinv as Hinv0.
    destruct Hinv as (Hlo & Hal & Hmax & Hbrk & Hbe & Hbl & Hnil & Hcons).
    cbn [ar mem mem_lo mem_brk mem_max mm_heap_first mm_heap_last] in *.
    assert (Hne : done ++ todo <> []).
    { intros E. destruct (Hnil E) as [_ E']. contradiction. }
    destruct (Hcons Hne) as (Hfirst & Hl1 & Hl2).
    rewrite total_app in Hbe.
    apply blocks_at_app in Hbl. destruct Hbl as [Hbd Hbt].
    destruct todo as [|[sz al] r].
    { cbn [total] in Hbe. lia. }
    cbn [blocks_at total] in Hbt, Hbe. destruct Hbt as (Htag & Hsz & Hmod & Hr).
    pose proof (blocks_at_total _ _ _ Hr) as Htot.
    pose proof (blocks_at_total _ _ _ Hbd) as Htotd.
    pose proof (mod16_even _ Hmod) as Hev.
    set (curr := lo + 8 + total done) in *.
    apply wpx_bind. eapply wpx_get_size; [lia|lia|exact Htag|lia|lia|exact Hev|].
    apply wpx_bind. eapply wpx_is_allocated; [lia|lia|exact Htag|exact Hev|].
    destruct (negb al && (size <=? sz)) eqn:Efit.
    + apply andb_prop in Efit. destruct Efit as [Eal Esz].
      destruct al; [discriminate|]. apply Z.leb_le in Esz.
      apply ExplicitProofs.wpx_bind_any. intros u s1.
      apply ExplicitProofs.wpx_then_ret. intros s2. right.
      exists done, sz, r. repeat split; try assumption; reflexivity.
    + apply wpx_bind. eapply wpx_get_size; [lia|lia|exact Htag|lia|lia|exact Hev|].
      rewrite wadd_small by lia.
      replace (curr + sz) with (lo + 8 + total (done ++ [(sz, al)]))
        by (rewrite total_app; cbn [total]; unfold curr; lia).
      rewrite (app_cons_assoc done (sz, al) r). apply IH.
      * rewrite <- app_cons_assoc. exact Hinv0.
      * rewrite forallb_app, Hrej. cbn [forallb andb]. rewrite andb_true_r.
        unfold rej. cbn [fst snd]. destruct al; [reflexivity|]. cbn [negb andb orb] in *.
        apply Z.leb_gt in Efit. apply Z.ltb_lt. exact Efit.
Qed.

(** X9.  [find_fit] (implicit list) is first fit in address order, as
    far as [mm_heap_last] reaches: in a heap that satisfies the
    invariant it returns the first block that is free and has [size]
    bytes or more, every block before it being allocated or too small;
    it returns [NULL], and changes nothing, when it meets no such block
    before it runs past [mm_heap_last] (blocks behind [mm_heap_last] are
    not looked at). *)
Theorem imp_find_fit_first_fit (s : state) bl fuel size :
  let rej := fun b : Z * bool => snd b || (fst b <? size) in
  let lo := mem_lo (ar s) in
  heap_inv s bl -> size mod 16 = 0 -> 0 <= size < W -> (length bl < fuel)%nat ->
  exists r s',
    find_fit fuel size s = Ok (r, s') /\
    ((r = NULL /\ s' = s /\
      exists d t, bl = d ++ t /\ forallb rej d = true /\
        (mm_heap_last s = NULL \/ mm_heap_last s < lo + 8 + total d)) \/
     (exists pre sz post,
        bl = pre ++ (sz, false) :: post /\ r = lo + 8 + total pre /\
        size <= sz /\ r <= mm_heap_last s /\ forallb rej pre = true)).
Proof.
  destruct s as [[m lo brk max] f l]. cbn [ar mem_lo mm_heap_last].
  intros Hinv Hsm Hsr Hfuel.
  destruct (wpx_total _ _ _
              (find_fit_spec true fuel size m lo brk max f l bl Hsm Hsr Hinv
                 (fun _ => Hfuel)))
    as (r & s' & Hrun & Hres).
  exists r, s'. split; [exact Hrun|].
  assert (Hfirst : wpx false (find_fit fuel size)
    (fun r _ =>
       (r = NULL /\ exists d t, bl = d ++ t /\
          forallb (fun b : Z * bool => snd b || (fst b <? size)) d = true /\
          (l = NULL \/ l < lo + 8 + total d)) \/
       (exists pre sz post,
          bl = pre ++ (sz, false) :: post /\ r = lo + 8 + total pre /\
          size <= sz /\ r <= l /\
          forallb (fun b : Z * bool => snd b || (fst b <? size)) pre = true))
    (St m lo brk max f l)).
  { unfold find_fit. apply wpx_bind, wpx_gets. cbn [mm_heap_first].
    destruct bl as [|b0 bl0].
    - destruct Hinv as (_ & _ & _ & _ & _ & _ & Hnil & _).
      destruct (Hnil eq_refl) as [Hf0 Hl0].
      cbn [mm_heap_first mm_heap_last] in Hf0, Hl0. subst f l.
      destruct fuel as [|fuel]; [reflexivity|].
      cbn [find_fit_from]. apply wpx_bind, wpx_gets. cbn [mm_heap_last].
      rewrite Z.eqb_refl. cbn [negb andb]. apply wpx_ret. left.
      split; [reflexivity|]. exists [], []. repeat split. left. reflexivity.
    - pose proof Hinv as (_ & _ & _ & _ & _ & _ & _ & Hcons).
      destruct (Hcons ltac:(discriminate)) as [Hf0 _].
      cbn [ar mem_lo mm_heap_first] in Hf0. subst f.
      replace (find_fit_from fuel size (lo + 8))
        with (find_fit_from fuel size (lo + 8 + total []))
        by (cbn [total]; f_equal; lia).
      apply (find_fit_from_first size lo brk max (lo + 8) l fuel [] (b0 :: bl0) m Hinv).
      reflexivity. }
  pose proof (wpx_partial _ _ _ _ _ _ Hfirst Hrun) as Hf. cbv beta in Hf.
  destruct Hf as [(-> & Hd)|Hf].
  - left. split; [reflexivity|]. split; [|exact Hd].
    destruct Hres as [(_ & ->)|(pre & sz & post & Ebl & Er & _)]; [reflexivity|].
    exfalso. pose proof Hinv as (Hlo & _ & _ & _ & _ & Hbl & _).
    cbn [ar mem mem_lo] in Hlo, Hbl. rewrite Ebl in Hbl.
    apply blocks_at_app in Hbl. destruct Hbl as [Hbp _].
    pose proof (blocks_at_total _ _ _ Hbp). unfold NULL in Er. lia.
  - right. exact Hf.
Qed.

Lemma imp_find_fit_first_fit_witness :
  heap_inv demo demo_blocks /\ 16 mod 16 = 0 /\ 0 <= 16 < W /\
  (length demo_blocks < 8)%nat /\
  exists r s', find_fit 8 16 demo = Ok (r, s').
Proof.
  split; [exact imp_demo_inv|]. split; [reflexivity|].
  split; [split; [lia|reflexivity]|]. split; [cbn; lia|].
  destruct (imp_find_fit_first_fit demo demo_blocks 8 16 imp_demo_inv)
    as (r & s' & H & _); [reflexivity|split; [lia|reflexivity]|cbn; lia|].
  exists r, s'. exact H.
Defined.

End MoreImplicit.

(** ** The explicit list *)

Module MoreExplicit.
Import Explicit ExplicitSpec ExplicitProofs.

Lemma wpx_run {S A} (c : M S A) s x s' :
  wpx true c (fun y t => y = x /\ t = s') s -> c s = Ok (x, s').
Proof.
  intros H. destruct (wpx_total _ _ _ H) as (y & t & E & -> & ->). exact E.
Qed.

(** X10.  Boundary tags (explicit list): after [set_header_footer block
    size flag] with an even size, [get_size block] gives the size back,
    [get_next_block] is the address behind the footer, and from there
    [get_previous_size], [is_previous_allocated] and
    [get_previous_block] give back the size, the flag and the block. *)
Theorem exp_header_footer_round_trip (s : state) block size al :
  let a := ar s in
  0 < mem_lo a -> mem_max a < W ->
  0 <= block -> mem_lo a <= block + 8 -> block + 16 + size + 8 <= mem_max a ->
  0 <= size -> size mod 2 = 0 ->
  exists s',
    set_header_footer block size al s = Ok (tt, s') /\
    get_size block s' = Ok (size, s') /\
    get_next_block block s' = Ok (block + 16 + size, s') /\
    get_previous_size (block + 16 + size) s' = Ok (size, s') /\
    is_previous_allocated (block + 16 + size) s' = Ok (al, s') /\
    get_previous_block (block + 16 + size) s' = Ok (block, s').
Proof.
  destruct s as [[m lo brk max] f l]. cbn [ar mem_lo mem_max].
  intros Hlo HW Hb0 Hb1 Hb2 Hs0 Hev.
  assert (Ht : 0 <= tag size al < W) by (apply tag_range; lia).
  set (m' := wr (wr m (block + 8) (tag size al)) (block + 16 + size) (tag size al)).
  assert (Hhd : rd m' (block + 8) = tag size al).
  { unfold m'. rewrite rd_wr_other by lia. apply rd_wr_same. exact Ht. }
  assert (Hft : rd m' (block + 16 + size) = tag size al).
  { unfold m'. apply rd_wr_same. exact Ht. }
  exists (St m' lo brk max f l). split; [|split; [|split; [|split; [|split]]]];
    apply wpx_run.
  - eapply wpx_set_header_footer; [exact Hlo|exact HW|lia|lia|lia|lia|exact Hev|].
    split; reflexivity.
  - eapply exp_wpx_get_size; [exact Hlo|exact HW|lia|lia|lia|exact Hhd|lia|exact Hev|].
    split; reflexivity.
  - eapply (wpx_get_next_block true m' lo brk max f l block size al);
      [exact Hlo|exact HW|lia|lia|lia|exact Hhd|lia|exact Hev|].
    split; reflexivity.
  - eapply wpx_get_previous_size; [exact Hlo|exact HW|lia|lia|exact Hft|lia|exact Hev|].
    split; reflexivity.
  - eapply wpx_is_previous_allocated; [exact Hlo|exact HW|lia|lia|exact Hft|exact Hev|].
    split; reflexivity.
  - eapply (wpx_get_previous_block true m' lo brk max f l (block + 16 + size) size al);
      [exact Hlo|exact HW|lia|lia|exact Hft|lia|exact Hev|lia|].
    split; [lia|reflexivity].
Qed.

Lemma exp_header_footer_round_trip_witness :
  0 < mem_lo (ar demo) /\ mem_max (ar demo) < W /\ 0 <= 65712 /\
  mem_lo (ar demo) <= 65712 + 8 /\ 65712 + 16 + 64 + 8 <= mem_max (ar demo) /\
  0 <= 64 /\ 64 mod 2 = 0 /\
  exists s',
    set_header_footer 65712 64 false demo = Ok (tt, s') /\
    get_size 65712 s' = Ok (64, s') /\
    get_previous_block (65712 + 16 + 64) s' = Ok (65712, s').
Proof.
  assert (E1 : mem_lo (ar demo) = 65536) by (vm_compute; reflexivity).
  assert (E3 : mem_max (ar demo) = 69632) by (vm_compute; reflexivity).
  rewrite E1, E3.
  split; [lia|]. split; [reflexivity|]. split; [lia|]. split; [lia|]. split; [lia|].
  split; [lia|]. split; [reflexivity|].
  destruct (exp_header_footer_round_trip demo 65712 64 false)
    as (s' & H1 & H2 & _ & _ & _ & H3);
    [rewrite E1; lia|rewrite E3; reflexivity|lia|rewrite E1; lia|rewrite E3; lia
    |lia|reflexivity|].
  exists s'. split; [exact H1|]. split; [exact H2|exact H3].
Defined.

(** X11.  [mm_init] (explicit list) on an arena whose mark is at its
    16-aligned bottom: with 48 bytes of room it returns [true] and
    leaves the two list sentinels linked to each other, prologue and
    epilogue in place, no blocks, the invariant satisfied and the mark
    48 bytes up; with less room it returns [false].  It never faults
    and changes no byte outside the 48 bytes. *)
Theorem exp_init_establishes (s : state) :
  let lo := mem_lo (ar s) in
  mem_brk (ar s) = lo -> 0 < lo -> lo mod 16 = 0 -> mem_max (ar s) < W ->
  exists r s',
    mm_init s = Ok (r, s') /\
    (r = true <-> lo + 48 <= mem_max (ar s)) /\
    (r = true ->
     heap_inv s' [] [] /\ mem_brk (ar s') = lo + 48 /\
     rd (mem (ar s')) (lo + 8) = lo + 16 /\ rd (mem (ar s')) (lo + 16) = lo /\
     forall x, x < lo \/ lo + 48 <= x -> mem (ar s') x = mem (ar s) x).
Proof.
  destruct s as [[m lo brk max] f l]. cbn [ar mem mem_lo mem_brk mem_max].
  intros -> Hlo Hal HW.
  destruct (wpx_total _ _ _ (exp_init_spec true m lo max f l Hlo Hal HW))
    as (r & s' & Hrun & Hres).
  exists r, s'. split; [exact Hrun|].
  destruct Hres as [(-> & Hroom & m' & -> & Hinv & Hfr)|(-> & Hno)].
  - split; [split; auto|]. intros _. split; [exact Hinv|].
    cbn [ar mem mem_brk]. split; [reflexivity|].
    destruct Hinv as (_ & _ & (_ & _ & _ & _ & Hd & _) & _).
    cbn [ar mem mem_lo dll] in Hd. destruct Hd as [Hd1 Hd2].
    split; [exact Hd1|]. split; [exact Hd2|exact Hfr].
  - split; [split; [discriminate|lia]|discriminate].
Qed.

Lemma exp_init_establishes_witness :
  mem_brk (ar (fresh 65536 4096)) = mem_lo (ar (fresh 65536 4096)) /\
  0 < 65536 /\ 65536 mod 16 = 0 /\ 69632 < W /\
  exists r s', mm_init (fresh 65536 4096) = Ok (r, s').
Proof.
  split; [reflexivity|]. split; [lia|]. split; [reflexivity|]. split; [reflexivity|].
  destruct (exp_init_establishes (fresh 65536 4096))
    as (r & s' & H & _); [reflexivity|reflexivity|reflexivity|reflexivity|].
  exists r, s'. exact H.
Defined.

(** X12.  Neighbour tests (explicit list): in a heap that satisfies the
    invariant, [is_previous_allocated] of a block is the flag of the
    block before it and [is_next_allocated] the flag of the block after
    it; for the first block the prologue, and for the last block the
    epilogue, count as allocated.  Neither changes the state. *)
Theorem exp_neighbour_flags (s : state) pre sz al post fl :
  let b := mem_lo (ar s) + 32 + span pre in
  heap_inv s (pre ++ (sz, al) :: post) fl ->
  is_previous_allocated b s = Ok (ends_alloc pre, s) /\
  is_next_allocated b s = Ok (starts_alloc post, s).
Proof.
  destruct s as [[m lo brk max] f l]. cbn [ar mem_lo]. intros Hinv.
  destruct Hinv as (_ & _ & Hc & _ & _ & Hbrk & HW & Hend).
  cbn [ar mem mem_lo mem_brk mem_max] in *.
  destruct Hc as (Hlo & Hal & Hw & Hb & _).
  assert (Hmax : lo + 32 + span (pre ++ (sz, al) :: post) + 16 <= max) by lia.
  destruct (blocks_mid _ _ _ _ _ _ _ _ Hb)
    as (Hpt & Hhd & Hft & Hnh & Hs0 & Hsm & _ & Hsp & Hspo & Hspm).
  rewrite span_app in Hmax, Hw. cbn [span] in Hmax, Hw.
  destruct (prev_info _ _ _ _ _ Hb) as (psz & pal & Hlt & Hea & Hps0 & Hpsm & _).
  rewrite Hlt in Hpt.
  apply blocks_app in Hb. destruct Hb as [_ Hbpost]. cbn [blocks] in Hbpost.
  destruct Hbpost as (_ & _ & _ & _ & _ & Hbpost).
  destruct (next_info _ _ _ _ Hbpost) as (nsz & nal & Hnt & Hsa & Hn0 & Hnm & Hn16 & Hnp).
  rewrite Hnt in Hnh. rewrite Hea, Hsa.
  split; apply wpx_run.
  - eapply wpx_is_previous_allocated; [exact Hlo|exact HW|lia|lia|exact Hpt|mlia|].
    split; reflexivity.
  - eapply (wpx_is_next_allocated true m lo brk max _ _ _ sz al nsz nal);
      [exact Hlo|exact HW|lia|lia|lia|exact Hhd|lia|mlia|exact Hnh|lia|mlia| |].
    + intros E. destruct nal; [reflexivity|]. specialize (Hn16 eq_refl). lia.
    + split; reflexivity.
Qed.

Lemma exp_neighbour_flags_witness :
  heap_inv demo ([(16, false); (16, true); (16, false)] ++ (16, true) :: []) demo_list /\
  is_next_allocated (mem_lo (ar demo) + 32 + span [(16, false); (16, true); (16, false)])
    demo = Ok (true, demo).
Proof.
  split; [exact demo_inv|].
  apply (exp_neighbour_flags demo [(16, false); (16, true); (16, false)] 16 true []
           demo_list demo_inv).
Defined.

Lemma dll_links m lst l2 : forall l1 prev,
  dll m prev (l1 ++ l2) lst ->
  rd m (last_of prev l1 + 8) = hd lst l2 /\ rd m (hd lst l2) = last_of prev l1.
Proof.
  induction l1 as [|x r IH]; intros prev Hd; cbn [app last_of] in *.
  - destruct l2; cbn [dll hd] in *; split; apply Hd.
  - cbn [dll] in Hd. destruct Hd as (_ & _ & Hd). apply (IH _ Hd).
Qed.

(** X13.  [delete_linked_node_from_block] (explicit list): in a heap
    that satisfies the invariant, unlinking the node of a listed block
    returns and leaves the list with the other nodes in their order;
    headers and footers, and every byte outside the list nodes, stay as
    they are. *)
Theorem exp_unlink_keeps_others (s : state) bl l1 n l2 :
  let lo := mem_lo (ar s) in
  heap_inv s bl (l1 ++ n :: l2) ->
  exists s',
    delete_linked_node_from_block (n - 16) s = Ok (tt, s') /\
    cfg (mem (ar s')) lo bl (l1 ++ l2) /\
    rd (mem (ar s')) (last_of lo l1 + 8) = hd (lo + 16) l2 /\
    rd (mem (ar s')) (hd (lo + 16) l2) = last_of lo l1 /\
    forall x, clear lo bl (l1 ++ n :: l2) x -> mem (ar s') x = mem (ar s) x.
Proof.
  destruct s as [[m lo brk max] f l]. cbn [ar mem mem_lo]. intros Hinv.
  destruct Hinv as (Hf & Hl & Hc & _ & _ & Hbrk & HW & Hend).
  cbn [ar mem mem_lo mem_brk mem_max first last] in *. subst f l.
  assert (Hmax : lo + 32 + span bl + 16 <= max) by lia.
  pose proof (wpx_unlink true m lo brk max bl l1 n l2
    (fun _ s' => cfg (mem (ar s')) lo bl (l1 ++ l2) /\
                 forall x, clear lo bl (l1 ++ n :: l2) x -> mem (ar s') x = m x)
    Hc Hmax HW) as Hun.
  destruct (wpx_total _ _ _ (Hun ltac:(intros m1 Hc1 Hfr1; split; assumption)))
    as ([] & s' & Hrun & Hc' & Hfr).
  exists s'. split; [exact Hrun|]. split; [exact Hc'|].
  destruct Hc' as (_ & _ & _ & _ & Hd & _).
  split; [|split; [|exact Hfr]].
  - apply (dll_links _ _ _ _ _ Hd).
  - apply (dll_links _ _ _ _ _ Hd).
Qed.

Lemma exp_unlink_keeps_others_witness :
  heap_inv demo demo_blocks ([65584] ++ 65648 :: []) /\
  exists s',
    delete_linked_node_from_block (65648 - 16) demo = Ok (tt, s') /\
    cfg (mem (ar s')) (mem_lo (ar demo)) demo_blocks ([65584] ++ []).
Proof.
  split; [exact demo_inv|].
  destruct (exp_unlink_keeps_others demo demo_blocks [65584] 65648 [] demo_inv)
    as (s' & H1 & H2 & _).
  exists s'. split; [exact H1|exact H2].
Defined.

(** X14.  Linking a block's node in front of the tail sentinel with
    [add_linked_node_to_block] and unlinking it again with
    [delete_linked_node_from_block] gives back the list as it was:
    the same nodes in the same order, headers and footers untouched, and
    no byte changed outside the list nodes. *)
Theorem exp_link_then_unlink (s : state) bl fl block :
  let lo := mem_lo (ar s) in
  heap_inv s bl fl -> node_ok lo bl (block + 16) -> ~ In (block + 16) fl ->
  exists s1 s2,
    add_linked_node_to_block block s = Ok (tt, s1) /\
    delete_linked_node_from_block block s1 = Ok (tt, s2) /\
    cfg (mem (ar s2)) lo bl fl /\
    forall x, clear lo bl (block + 16 :: fl) x -> mem (ar s2) x = mem (ar s) x.
Proof.
  destruct s as [[m lo brk max] f l]. cbn [ar mem mem_lo]. intros Hinv Hlk Hnin.
  destruct Hinv as (Hf & Hl & Hc & _ & _ & Hbrk & HW & Hend).
  cbn [ar mem mem_lo mem_brk mem_max first last] in *. subst f l.
  assert (Hmax : lo + 32 + span bl + 16 <= max) by lia.
  pose proof (wpx_link true m lo brk max bl fl (block + 16)
    (fun _ s1 => exists m1, s1 = St m1 lo brk max lo (lo + 16) /\
                 cfg m1 lo bl (fl ++ [block + 16]) /\
                 forall x, clear lo bl (block + 16 :: fl) x -> m1 x = m x)
    Hc Hlk Hnin Hmax HW) as Hlink.
  replace (block + 16 - 16) with block in Hlink by lia.
  destruct (wpx_total _ _ _
              (Hlink ltac:(intros m1 Hc1 Hfr1; exists m1;
                             split; [reflexivity|split; assumption])))
    as ([] & s1 & Hrun1 & m1 & -> & Hc1 & Hfr1).
  pose proof (wpx_unlink true m1 lo brk max bl fl (block + 16) []
    (fun _ s2 => cfg (mem (ar s2)) lo bl (fl ++ []) /\
                 forall x, clear lo bl (fl ++ [block + 16]) x -> mem (ar s2) x = m1 x)
    Hc1 Hmax HW) as Hun.
  replace (block + 16 - 16) with block in Hun by lia.
  destruct (wpx_total _ _ _ (Hun ltac:(intros m2 Hc2 Hfr2; split; assumption)))
    as ([] & s2 & Hrun2 & Hc2 & Hfr2).
  rewrite app_nil_r in Hc2.
  exists (St m1 lo brk max lo (lo + 16)), s2.
  split; [exact Hrun1|]. split; [exact Hrun2|]. split; [exact Hc2|].
  intros x Hx. rewrite Hfr2; [apply Hfr1; exact Hx|].
  revert Hx. apply clear_incl; [auto|].
  intros k Hk. apply in_app_or in Hk. destruct Hk as [Hk|[<-|[]]];
    [right; exact Hk|left; reflexivity].
Qed.

Lemma exp_link_then_unlink_witness :
  heap_inv demo demo_blocks demo_list /\
  node_ok (mem_lo (ar demo)) demo_blocks (65600 + 16) /\ ~ In (65600 + 16) demo_list /\
  exists s1 s2,
    add_linked_node_to_block 65600 demo = Ok (tt, s1) /\
    delete_linked_node_from_block 65600 s1 = Ok (tt, s2) /\
    cfg (mem (ar s2)) (mem_lo (ar demo)) demo_blocks demo_list.
Proof.
  assert (E1 : mem_lo (ar demo) = 65536) by (vm_compute; reflexivity).
  assert (Hok : node_ok (mem_lo (ar demo)) demo_blocks (65600 + 16)).
  { rewrite E1. unfold node_ok, demo_blocks. cbn [span bounds In].
    split; [reflexivity|]. split; [lia|]. split; [lia|]. intros x Hx. lia. }
  assert (Hnin : ~ In (65600 + 16) demo_list).
  { unfold demo_list. cbn [In]. lia. }
  split; [exact demo_inv|]. split; [exact Hok|]. split; [exact Hnin|].
  destruct (exp_link_then_unlink demo demo_blocks demo_list 65600 demo_inv Hok Hnin)
    as (s1 & s2 & H1 & H2 & H3 & _).
  exists s1, s2. split; [exact H1|]. split; [exact H2|exact H3].
Defined.

(** *** Payloads of the allocated blocks *)

Lemma in_payload_app a l1 l2 x :
  in_payload a (l1 ++ l2) x <-> in_payload a l1 x \/ in_payload (a + span l1) l2 x.
Proof.
  revert a. induction l1 as [|[sz al] r IH]; intros a; cbn [app in_payload span].
  - rewrite Z.add_0_r. tauto.
  - rewrite IH. replace (a + 16 + sz + span r) with (a + (16 + sz + span r)) by lia. tauto.
Qed.

Lemma in_payload_range m a pt bl nh x :
  blocks m a pt bl nh -> in_payload a bl x -> a + 16 <= x < a + span bl.
Proof.
  revert a pt. induction bl as [|[sz al] r IH]; intros a pt Hb Hx; cbn [in_payload span] in *.
  - contradiction.
  - cbn [blocks] in Hb. destruct Hb as (_ & _ & H0 & _ & _ & Hr).
    pose proof (blocks_span _ _ _ _ _ Hr).
    destruct Hx as [[_ Hx]|Hx]; [lia|]. specialize (IH _ _ Hr Hx). lia.
Qed.

(** A payload byte of an allocated block is no part of a header, a
    footer or the node of a free block. *)
Lemma in_payload_apart m a pt bl nh x :
  blocks m a pt bl nh -> in_payload a bl x ->
  (forall c, In c (bounds a bl) -> x < c \/ c + 16 <= x) /\
  (forall n, In n (free_nodes a bl) -> x < n \/ n + 16 <= x).
Proof.
  revert a pt. induction bl as [|[sz al] r IH]; intros a pt Hb Hx;
    cbn [in_payload bounds free_nodes] in *.
  - contradiction.
  - pose proof Hb as Hb0. cbn [blocks] in Hb.
    destruct Hb as (_ & _ & H0 & _ & H16 & Hr).
    destruct Hx as [[-> Hx]|Hx].
    + split.
      * intros c [<-|Hc]; [lia|].
        pose proof (bounds_range _ _ _ _ _ _ Hr Hc). lia.
      * intros n Hn. pose proof (free_nodes_lt _ _ _ _ _ _ Hr Hn). lia.
    + pose proof (in_payload_range _ _ _ _ _ _ Hr Hx) as Hrg.
      destruct (IH _ _ Hr Hx) as [IH1 IH2]. split.
      * intros c [<-|Hc]; [lia|apply IH1; exact Hc].
      * intros n Hn. destruct al; [apply IH2; exact Hn|].
        destruct Hn as [<-|Hn]; [specialize (H16 eq_refl); lia|apply IH2; exact Hn].
Qed.

Lemma in_payload_clear m lo bl fl x :
  cfg m lo bl fl -> (forall n, In n fl -> In n (free_nodes (lo + 32) bl)) ->
  in_payload (lo + 32) bl x -> clear lo bl fl x.
Proof.
  intros (_ & _ & _ & Hb & _) Hfl Hx.
  destruct (in_payload_apart _ _ _ _ _ _ Hb Hx) as [H1 H2].
  pose proof (in_payload_range _ _ _ _ _ _ Hb Hx).
  split; [lia|]. split; [exact H1|]. intros n Hn. apply H2, Hfl, Hn.
Qed.

(** A payload byte of an allocated block lies outside every free block. *)
Lemma in_payload_not_free m a pt pre bsz post nh x :
  blocks m a pt (pre ++ (bsz, false) :: post) nh ->
  in_payload a (pre ++ (bsz, false) :: post) x ->
  x < a + span pre \/ a + span pre + 16 + bsz + 16 <= x.
Proof.
  intros Hb Hx. apply blocks_app in Hb. destruct Hb as [Hpre Hrest].
  cbn [blocks] in Hrest. destruct Hrest as (_ & _ & _ & _ & _ & Hpost).
  apply in_payload_app in Hx. destruct Hx as [Hx|Hx].
  - left. apply (in_payload_range _ _ _ _ _ _ Hpre Hx).
  - cbn [in_payload] in Hx. destruct Hx as [[E _]|Hx]; [discriminate|].
    right. pose proof (in_payload_range _ _ _ _ _ _ Hpost Hx). lia.
Qed.

(** X15.  [mm_malloc] (explicit list) for a request of 1 byte or more
    whose rounding does not wrap, in a heap that satisfies the invariant
    and has room to grow: the call returns a pointer that is not [NULL]
    and 16-aligned; the invariant holds afterwards; the rounded size
    bytes from the pointer on are payload of an allocated block now and
    were payload of no allocated block before; and every payload byte of
    a block that was allocated is still one and has kept its value. *)
Theorem exp_malloc_fresh_block (s : state) bl fl fuel n :
  let lo := mem_lo (ar s) in
  let size := round_up n ALIGNMENT in
  heap_inv s bl fl -> mem_max (ar s) + 16 <= W -> 16 <= size ->
  (length fl < fuel)%nat -> mem_brk (ar s) + size + 16 <= mem_max (ar s) ->
  exists p s' bl' fl',
    mm_malloc fuel n s = Ok (p, s') /\ p <> NULL /\ p mod 16 = 0 /\
    heap_inv s' bl' fl' /\ mem_lo (ar s') = lo /\
    (forall x, p <= x < p + size ->
               in_payload (lo + 32) bl' x /\ ~ in_payload (lo + 32) bl x) /\
    (forall x, in_payload (lo + 32) bl x ->
               in_payload (lo + 32) bl' x /\ mem (ar s') x = mem (ar s) x).
Proof.
  destruct s as [[m lo brk max] f l]. cbn [ar mem mem_lo mem_brk mem_max].
  intros Hinv HmaxW H16 Hfuel Hroom.
  pose proof Hinv as (Hf & Hl & Hc & Hfl & _).
  cbn [ar mem mem_lo first last] in Hf, Hl, Hc, Hfl. subst f l.
  pose proof Hc as (Hlo & _ & _ & Hb & _).
  destruct (wpx_total _ _ _
              (exp_malloc_spec true fuel n m lo brk max bl fl Hinv HmaxW
                 (fun _ => conj H16 (conj Hfuel Hroom))))
    as (p & s' & Hrun & Hal & Hres).
  destruct (Hres H16) as (m' & brk' & bl' & fl' & -> & Hinv' & Hcase).
  destruct Hcase as [(_ & _ & _ & _ & Hno & _)|(Hp & Hcase)]; [lia|].
  exists p, (St m' lo brk' max lo (lo + 16)), bl', fl'.
  split; [exact Hrun|]. split; [exact Hp|].
  split; [destruct Hal as [E|E]; [contradiction|exact E]|].
  split; [exact Hinv'|]. cbn [ar mem mem_lo]. split; [reflexivity|].
  destruct Hcase as [(k1 & k2 & pre & bsz & post & Efl & Ebl & Ep & Hfit & _ & Ht & Hfr)
                    |(Ep & -> & -> & _ & Hfr)].
  - (* placed in a free block *)
    subst bl. pose proof (blocks_mid _ _ _ _ _ _ _ _ Hb) as (_ & _ & _ & _ & Hb0 & _).
    assert (Hold : forall x, p <= x < p + bsz ->
                     ~ in_payload (lo + 32) (pre ++ (bsz, false) :: post) x).
    { intros x Hx Hin. pose proof (in_payload_not_free _ _ _ _ _ _ _ _ Hb Hin). lia. }
    assert (Hkeep : forall x, in_payload (lo + 32) (pre ++ (bsz, false) :: post) x ->
                      m' x = m x).
    { intros x Hx. apply Hfr.
      - apply (in_payload_clear m lo _ fl x Hc); [intros k Hk; apply Hfl; exact Hk|exact Hx].
      - pose proof (in_payload_not_free _ _ _ _ _ _ _ _ Hb Hx). lia. }
    destruct Ht as [(Hsmall & -> & _)|(Hbig & -> & _)].
    + split.
      * intros x Hx. split; [|apply Hold; lia].
        apply in_payload_app. right. cbn [in_payload]. left. split; [reflexivity|lia].
      * intros x Hx. split; [|apply Hkeep; exact Hx].
        apply in_payload_app in Hx. apply in_payload_app.
        destruct Hx as [Hx|Hx]; [left; exact Hx|right].
        cbn [in_payload] in *. destruct Hx as [[E _]|Hx]; [discriminate|right; exact Hx].
    + split.
      * intros x Hx. split; [|apply Hold; lia].
        apply in_payload_app. right. cbn [in_payload]. left. split; [reflexivity|lia].
      * intros x Hx. split; [|apply Hkeep; exact Hx].
        apply in_payload_app in Hx. apply in_payload_app.
        destruct Hx as [Hx|Hx]; [left; exact Hx|right].
        cbn [in_payload] in *. destruct Hx as [[E _]|Hx]; [discriminate|].
        right. right.
        replace (lo + 32 + span pre + 16 + round_up n ALIGNMENT + 16
                 + (bsz - round_up n ALIGNMENT - 16))
          with (lo + 32 + span pre + 16 + bsz) by lia.
        exact Hx.
  - (* appended to the heap *)
    pose proof (blocks_span _ _ _ _ _ Hb) as Hsp. split.
    + intros x Hx. split.
      * apply in_payload_app. right. cbn [in_payload]. left. split; [reflexivity|lia].
      * intros Hin. pose proof (in_payload_range _ _ _ _ _ _ Hb Hin). lia.
    + intros x Hx. split; [apply in_payload_app; left; exact Hx|].
      apply Hfr. pose proof (in_payload_range _ _ _ _ _ _ Hb Hx). lia.
Qed.

Lemma exp_malloc_fresh_block_witness :
  heap_inv demo demo_blocks demo_list /\ mem_max (ar demo) + 16 <= W /\
  16 <= round_up 5 ALIGNMENT /\ (length demo_list < 8)%nat /\
  mem_brk (ar demo) + round_up 5 ALIGNMENT + 16 <= mem_max (ar demo) /\
  exists p s' bl' fl',
    mm_malloc 8 5 demo = Ok (p, s') /\ p <> NULL /\ p mod 16 = 0 /\
    heap_inv s' bl' fl'.
Proof.
  split; [exact demo_inv|]. split; [vm_compute; discriminate|].
  split; [vm_compute; discriminate|]. split; [vm_compute; lia|].
  split; [vm_compute; discriminate|].
  destruct (exp_malloc_fresh_block demo demo_blocks demo_list 8 5 demo_inv)
    as (p & s' & bl' & fl' & H1 & H2 & H3 & H4 & _);
    [vm_compute; discriminate|vm_compute; discriminate|vm_compute; lia
    |vm_compute; discriminate|].
  exists p, s', bl', fl'.
  split; [exact H1|]. split; [exact H2|]. split; [exact H3|exact H4].
Defined.

(** X16.  [mm_malloc] (explicit list) when nothing on the list fits and
    the arena cannot take the footer: with less than 8 bytes left above
    the mark the call returns [NULL] and leaves the state exactly as it
    was; when the payload still fits but the footer does not, it returns
    [NULL] with memory unchanged but the mark moved up by the payload
    size, bytes that no later call can use. *)
Theorem exp_malloc_exhausted (s : state) bl fl fuel n :
  let size := round_up n ALIGNMENT in
  let brk := mem_brk (ar s) in
  let max := mem_max (ar s) in
  heap_inv s bl fl -> 16 <= size -> (length fl < fuel)%nat ->
  (forall x, In x fl -> node_size (mem (ar s)) x < size) ->
  (max < brk + 8 -> mm_malloc fuel n s = Ok (NULL, s)) /\
  (brk + size <= max < brk + size + 8 ->
   exists s', mm_malloc fuel n s = Ok (NULL, s') /\
              mem_brk (ar s') = brk + size /\ mem (ar s') = mem (ar s) /\
              heap_inv s' bl fl).
Proof.
  destruct s as [[m lo brk max] f l]. cbn [ar mem mem_brk mem_max].
  intros Hinv H16 Hfuel Hrej.
  pose proof Hinv as (Hf & Hl & Hc & Hfl & Hnaf & Hbrk & HW & Hend).
  cbn [ar mem mem_lo mem_brk mem_max first last] in *. subst f l.
  pose proof Hc as (Hlo & Hal & Hw & Hbk & _).
  pose proof (blocks_span _ _ _ _ _ Hbk) as Hsp.
  assert (Hs0 : 0 <= round_up n ALIGNMENT < W) by apply wrap_range.
  assert (Hsm : round_up n ALIGNMENT mod 16 = 0) by apply round_up_mod16.
  assert (Hfind : forall (Q : Z -> state -> Prop),
    wpx true (grown <- lift (mem_sbrk (round_up n ALIGNMENT)) ;;
              new_footer <- lift (mem_sbrk sizeof_size_t) ;;
              (if new_footer =? MINUS1 then ret NULL
               else if wsub grown ALIGNMENT =? MINUS1 then ret NULL
               else
                 epilogue <- lift (mem_sbrk sizeof_size_t) ;;
                 lift (store64 epilogue (Z.lor 0 (Z.b2z true))) ;;
                 set_header_footer (wsub grown ALIGNMENT) (round_up n ALIGNMENT) true ;;
                 ret (payload (wsub grown ALIGNMENT)))) Q
      (St m lo brk max lo (lo + 16)) ->
    wpx true (mm_malloc fuel n) Q (St m lo brk max lo (lo + 16))).
  { intros Q HQ. unfold mm_malloc. cbv zeta.
    apply wpx_bind. eapply wpx_conseq.
    { apply (exp_find_fit_spec true fuel (round_up n ALIGNMENT) m lo brk max bl fl Hinv);
        [lia|exact Hsm|]. intros _. split; assumption. }
    cbv beta. intros r s1 [(-> & -> & _)|Hr].
    - rewrite Z.eqb_refl. cbn [negb]. exact HQ.
    - exfalso. destruct Hr as (k1 & nd & k2 & _ & _ & _ & Efl & _ & _ & _ & Hfit & _).
      assert (Hin : In nd fl) by (rewrite Efl; apply in_or_app; right; left; reflexivity).
      specialize (Hrej nd Hin). lia. }
  split.
  - intros Hno. apply wpx_run. apply Hfind.
    apply wpx_bind. apply exp_wpx_sbrk; intros HA; [lia|].
    unfold sizeof_size_t.
    apply wpx_bind. apply exp_wpx_sbrk; intros HB; [lia|].
    rewrite Z.eqb_refl. apply wpx_ret. split; reflexivity.
  - intros Hroom. eexists. split; [|split; [|split]].
    + apply wpx_run. apply Hfind.
      apply wpx_bind. apply exp_wpx_sbrk; intros HA; [|lia].
      unfold sizeof_size_t.
      apply wpx_bind. apply exp_wpx_sbrk; intros HB; [lia|].
      rewrite Z.eqb_refl. apply wpx_ret. split; reflexivity.
    + reflexivity.
    + reflexivity.
    + apply exp_heap_inv_intro; try assumption; [lia|]. right.
      split; [destruct Hend as [E|[E _]]; lia|lia].
Qed.

Lemma exp_malloc_exhausted_witness :
  let s := after (mm_init ;; mm_malloc 8 16) (fresh 65536 80) in
  heap_inv s [(16, true)] [] /\ 16 <= round_up 16 ALIGNMENT /\ (length (@nil Z) < 8)%nat /\
  (forall x, In x [] -> node_size (mem (ar s)) x < round_up 16 ALIGNMENT) /\
  mem_max (ar s) < mem_brk (ar s) + 8 /\
  mm_malloc 8 16 s = Ok (NULL, s).
Proof.
  cbv zeta.
  set (s := after (mm_init ;; mm_malloc 8 16) (fresh 65536 80)).
  assert (E1 : mem_lo (ar s) = 65536) by (vm_compute; reflexivity).
  assert (E2 : mem_brk (ar s) = 65616) by (vm_compute; reflexivity).
  assert (E3 : mem_max (ar s) = 65616) by (vm_compute; reflexivity).
  assert (Hinv : heap_inv s [(16, true)] []).
  { unfold heap_inv. cbv zeta. rewrite E1, E2, E3.
    split; [vm_compute; reflexivity|]. split; [vm_compute; reflexivity|].
    split; [|split; [|split; [|split; [|split]]]].
    - unfold cfg. cbn [span blocks dll].
      split; [lia|]. split; [reflexivity|]. split; [reflexivity|].
      split; [|split; [|split]].
      + repeat split; try discriminate; try (vm_compute; reflexivity); lia.
      + split; vm_compute; reflexivity.
      + constructor.
      + intros x [].
    - intros x. cbn [free_nodes In]. tauto.
    - reflexivity.
    - lia.
    - unfold W. lia.
    - left. reflexivity. }
  split; [exact Hinv|]. split; [vm_compute; discriminate|]. split; [cbn; lia|].
  split; [intros x []|]. split; [rewrite E2, E3; lia|].
  apply (exp_malloc_exhausted s [(16, true)] [] 8 16 Hinv);
    [vm_compute; discriminate|cbn; lia|intros x []|rewrite E2, E3; lia].
Defined.

(** X17.  A block just released is the first to be reused (explicit
    list): in a heap that satisfies the invariant, after [mm_free p] of
    a block whose left neighbour is allocated, an [mm_malloc] whose
    rounded size (at least 16) is not above the block's size returns
    [p] again. *)
Theorem exp_free_then_malloc_reuses (s : state) pre sz post fl fuel n :
  let p := mem_lo (ar s) + 32 + span pre + 16 in
  let size := round_up n ALIGNMENT in
  heap_inv s (pre ++ (sz, true) :: post) fl -> 16 <= sz ->
  ends_alloc pre = true -> 16 <= size -> size <= sz ->
  (S (length fl) < fuel)%nat ->
  exists s1 s2, mm_free p s = Ok (tt, s1) /\ mm_malloc fuel n s1 = Ok (p, s2).
Proof.
  destruct s as [[m lo brk max] f l]. cbn [ar mem_lo].
  intros Hinv Hsz Hea H16 Hfit Hfuel.
  set (p := lo + 32 + span pre + 16).
  pose proof Hinv as (_ & _ & (_ & _ & _ & Hb & _) & _).
  cbn [ar mem mem_lo] in Hb.
  destruct (wpx_total _ _ _ (exp_free_spec true m lo brk max f l pre sz post fl Hinv Hsz))
    as ([] & s1 & Hrun1 & m1 & bl1 & fl1 & -> & Hinv1 & Hres & _).
  assert (Hshape : exists sz1 post1 k,
            bl1 = pre ++ (sz1, false) :: post1 /\ fl1 = k ++ [p] /\ sz <= sz1 /\
            (length fl1 <= S (length fl))%nat).
  { destruct Hres as [(_ & _ & -> & ->)
                     |[(_ & nsz & post' & l1 & l2 & -> & -> & -> & ->)
                      |[(pre' & psz & -> & _)|(pre' & psz & nsz & post' & l1 & l2 & -> & _)]]].
    - exists sz, post, fl. split; [reflexivity|]. split; [reflexivity|]. split; [lia|].
      rewrite length_app. cbn [length]. lia.
    - rewrite (app_cons_assoc pre (sz, true)) in Hb.
      destruct (blocks_mid _ _ _ _ _ _ _ _ Hb) as (_ & _ & _ & _ & Hn0 & _).
      exists (sz + nsz + 16), post', (l1 ++ l2).
      split; [reflexivity|]. split; [rewrite app_assoc; reflexivity|]. split; [lia|].
      rewrite !length_app. cbn [length]. lia.
    - rewrite ends_alloc_snoc in Hea. discriminate.
    - rewrite ends_alloc_snoc in Hea. discriminate. }
  destruct Hshape as (sz1 & post1 & k & -> & -> & Hsz1 & Hlen).
  pose proof Hinv1 as (_ & _ & Hc1 & _).
  cbn [ar mem mem_lo] in Hc1. pose proof Hc1 as (Hlo & _ & Hw1 & Hb1 & _).
  destruct (blocks_mid _ _ _ _ _ _ _ _ Hb1)
    as (_ & Hhd1 & _ & _ & Hs10 & Hs1m & _ & Hsp & Hspo & _).
  assert (Hns : node_size m1 p = sz1).
  { unfold node_size. replace (p - 8) with (lo + 32 + span pre + 8) by (unfold p; lia).
    rewrite Hhd1. unfold tag. apply tag_size; [lia| |mlia].
    apply (tag_bound m1 (lo + 32 + span pre + 8) sz1 false); [exact Hhd1|lia|mlia]. }
  assert (Hrun2 : wpx true (mm_malloc fuel n) (fun y _ => y = p)
                    (St m1 lo brk max lo (lo + 16))).
  { unfold mm_malloc. cbv zeta. apply wpx_bind. eapply wpx_conseq.
    { apply (exp_find_fit_spec true fuel (round_up n ALIGNMENT) m1 lo brk max _ _ Hinv1);
        [lia|apply round_up_mod16|]. intros _. split; [exact H16|lia]. }
    cbv beta. intros r s2 [(_ & _ & Hrej)|Hr].
    - exfalso. assert (Hin : In p (k ++ [p])) by (apply in_or_app; right; left; reflexivity).
      specialize (Hrej p Hin). lia.
    - destruct Hr as (k1 & nd & k2 & _ & _ & _ & Efl & Er & _ & Hr16 & Hfit' & Hrej & _).
      assert (E : p = nd).
      { apply (last_fit_unique p nd [] k2 k k1 Efl).
        - intros [].
        - intros Hin. specialize (Hrej p Hin). lia. }
      subst nd.
      replace (r =? NULL) with false by (symmetry; apply Z.eqb_neq; unfold NULL; lia).
      cbn [negb]. apply wpx_ret. unfold payload, off_payload.
      change (wmul 2 sizeof_size_t) with 16.
      rewrite span_app in Hw1. cbn [span] in Hw1.
      rewrite wadd_small by (unfold p in Er; lia). lia. }
  destruct (wpx_total _ _ _ Hrun2) as (y & s2 & Hrun & ->).
  exists (St m1 lo brk max lo (lo + 16)), s2. split; [exact Hrun1|exact Hrun].
Qed.

Lemma exp_free_then_malloc_reuses_witness :
  let s := after (mm_init ;; _ <- mm_malloc 8 16 ;; mm_malloc 8 32) (fresh 65536 4096) in
  heap_inv s ([(16, true)] ++ (32, true) :: []) [] /\ 16 <= 32 /\
  ends_alloc [(16, true)] = true /\ 16 <= round_up 20 ALIGNMENT /\
  round_up 20 ALIGNMENT <= 32 /\ (S (length (@nil Z)) < 8)%nat /\
  exists s1 s2,
    mm_free (mem_lo (ar s) + 32 + span [(16, true)] + 16) s = Ok (tt, s1) /\
    mm_malloc 8 20 s1 = Ok (mem_lo (ar s) + 32 + span [(16, true)] + 16, s2).
Proof.
  cbv zeta.
  set (s := after (mm_init ;; _ <- mm_malloc 8 16 ;; mm_malloc 8 32) (fresh 65536 4096)).
  assert (E1 : mem_lo (ar s) = 65536) by (vm_compute; reflexivity).
  assert (E2 : mem_brk (ar s) = 65664) by (vm_compute; reflexivity).
  assert (E3 : mem_max (ar s) = 69632) by (vm_compute; reflexivity).
  assert (Hinv : heap_inv s ([(16, true)] ++ (32, true) :: []) []).
  { unfold heap_inv. cbv zeta. rewrite E1, E2, E3. cbn [app].
    split; [vm_compute; reflexivity|]. split; [vm_compute; reflexivity|].
    split; [|split; [|split; [|split; [|split]]]].
    - unfold cfg. cbn [span blocks dll].
      split; [lia|]. split; [reflexivity|]. split; [reflexivity|].
      split; [|split; [|split]].
      + repeat split; try discriminate; try (vm_compute; reflexivity); lia.
      + split; vm_compute; reflexivity.
      + constructor.
      + intros x [].
    - intros x. cbn [free_nodes In]. tauto.
    - reflexivity.
    - lia.
    - unfold W. lia.
    - left. reflexivity. }
  split; [exact Hinv|]. split; [lia|]. split; [reflexivity|].
  split; [vm_compute; discriminate|]. split; [vm_compute; discriminate|].
  split; [cbn; lia|].
  apply (exp_free_then_malloc_reuses s [(16, true)] 32 [] [] 8 20 Hinv);
    [lia|reflexivity|vm_compute; discriminate|vm_compute; discriminate|cbn; lia].
Defined.

End MoreExplicit.

(** ** Both lists: [mm_calloc] *)

Lemma memset_zero (a a' : arena) dst n p :
  memset dst 0 n a = Ok (p, a') -> 0 <= n ->
  p = dst /\ forall x, dst <= x < dst + n -> mem a' x = 0.
Proof.
  unfold memset. intros H Hn. destruct (Z.eqb_spec n 0) as [->|Hnz].
  - injection H as <- <-. split; [reflexivity|]. intros x Hx. lia.
  - destruct (in_arena a dst n); [|discriminate]. injection H as <- <-.
    split; [reflexivity|]. intros x Hx. unfold set_mem. cbn [mem].
    rewrite store_bytes_in by (rewrite repeat_length; lia).
    change (0 mod 256) with 0. apply nth_repeat.
Qed.

(** X18.  [mm_calloc] (both files): when the call returns, the pointer
    is the one its [mm_malloc] returned and the [nmemb * size] bytes
    from it on are all zero, the product being taken modulo [2^64] (the
    multiplication is not checked for overflow). *)
Theorem calloc_zero_filled :
  (forall (s s' : Implicit.state) fuel nmemb size p,
     Implicit.mm_calloc fuel nmemb size s = Ok (p, s') ->
     value (Implicit.mm_malloc fuel (wmul nmemb size) s) = Ok p /\
     forall x, p <= x < p + wmul nmemb size -> mem (Implicit.ar s') x = 0) /\
  (forall (s s' : Explicit.state) fuel nmemb size p,
     Explicit.mm_calloc fuel nmemb size s = Ok (p, s') ->
     value (Explicit.mm_malloc fuel (wmul nmemb size) s) = Ok p /\
     forall x, p <= x < p + wmul nmemb size -> mem (Explicit.ar s') x = 0).
Proof.
  split.
  - intros s s' fuel nmemb size p. unfold Implicit.mm_calloc, bind, value.
    destruct (Implicit.mm_malloc fuel (wmul nmemb size) s) as [[q s1]| |];
      try discriminate.
    unfold Implicit.lift.
    destruct (memset q 0 (wmul nmemb size) (Implicit.ar s1)) as [[q' a']| |] eqn:E;
      try discriminate.
    intros H. injection H as <- <-.
    destruct (memset_zero _ _ _ _ _ E) as [-> Hz]; [apply wrap_range|].
    split; [reflexivity|]. cbn [Implicit.ar]. exact Hz.
  - intros s s' fuel nmemb size p. unfold Explicit.mm_calloc, bind, value.
    destruct (Explicit.mm_malloc fuel (wmul nmemb size) s) as [[q s1]| |];
      try discriminate.
    unfold Explicit.lift.
    destruct (memset q 0 (wmul nmemb size) (Explicit.ar s1)) as [[q' a']| |] eqn:E;
      try discriminate.
    intros H. injection H as <- <-.
    destruct (memset_zero _ _ _ _ _ E) as [-> Hz]; [apply wrap_range|].
    split; [reflexivity|]. cbn [Explicit.ar]. exact Hz.
Qed.

Lemma calloc_zero_filled_witness :
  Implicit.mm_calloc 8 2 4 ImplicitSpec.demo
    = Ok (65552, after (Implicit.mm_calloc 8 2 4) ImplicitSpec.demo) /\
  mem (Implicit.ar (after (Implicit.mm_calloc 8 2 4) ImplicitSpec.demo)) 65552 = 0.
Proof.
  assert (E : Implicit.mm_calloc 8 2 4 ImplicitSpec.demo
              = Ok (65552, after (Implicit.mm_calloc 8 2 4) ImplicitSpec.demo)).
  { apply run_ok. vm_compute. reflexivity. }
  split; [exact E|].
  assert (H : 65552 <= 65552 < 65552 + wmul 2 4).
  { split; [apply Z.leb_le|apply Z.ltb_lt]; reflexivity. }
  exact (proj2 (proj1 calloc_zero_filled _ _ _ _ _ _ E) 65552 H).
Defined.

(** ** The explicit list: what happens to the chosen block, and to the
    other blocks on release *)

Module ExplicitBlocks.
Import Explicit ExplicitSpec ExplicitProofs MoreExplicit.

(** X19.  The split policy of [find_fit] and [block_split] (explicit
    list), for a rounded request of [size >= 16] bytes and the fitting
    block nearest to the tail sentinel, of [bsz] bytes: when
    [bsz < size + 32] the block is handed out whole and its node leaves
    the list; otherwise it is split into an allocated block of [size]
    bytes and a free block of [bsz - size - 16] bytes, whose node is
    linked in front of the tail sentinel.  The invariant holds
    afterwards. *)
Theorem exp_find_fit_split_policy (s : state) bl fl fuel size l1 n l2 :
  let m := mem (ar s) in
  let lo := mem_lo (ar s) in
  heap_inv s bl fl -> 16 <= size -> size mod 16 = 0 -> (length fl < fuel)%nat ->
  fl = l1 ++ n :: l2 -> size <= node_size m n ->
  (forall x, In x l2 -> node_size m x < size) ->
  exists s' pre post bl' fl',
    find_fit fuel size s = Ok (n - 16, s') /\
    bl = pre ++ (node_size m n, false) :: post /\ n = lo + 32 + span pre + 16 /\
    heap_inv s' bl' fl' /\
    ((node_size m n < size + 32 /\
      bl' = pre ++ (node_size m n, true) :: post /\ fl' = l1 ++ l2) \/
     (size + 32 <= node_size m n /\
      bl' = pre ++ (size, true) :: (node_size m n - size - 16, false) :: post /\
      fl' = l1 ++ l2 ++ [n + size + 16])).
Proof.
  destruct s as [[m lo brk max] f l]. cbn [ar mem mem_lo].
  intros Hinv H16 Hsm Hfuel Efl Hfit Hrej.
  pose proof Hinv as (Hf & Hl & _).
  cbn [ar mem_lo first last] in Hf, Hl. subst f l.
  destruct (wpx_total _ _ _
    (exp_find_fit_spec true fuel size m lo brk max bl fl Hinv ltac:(lia) Hsm
       (fun _ => conj H16 Hfuel)))
    as (r & s' & Hrun & Hres).
  destruct Hres as [(_ & _ & Hno)|Hres].
  { exfalso. assert (Hin : In n fl).
    { rewrite Efl. apply in_or_app. right. left. reflexivity. }
    specialize (Hno n Hin). lia. }
  destruct Hres as (k1 & n' & k2 & pre & bsz & post & Efl' & Er & _ & _ & Hfit' & Hrej'
                    & Ebl & En & Hns & Hres).
  rewrite Efl in Efl'.
  destruct (last_fit_unique n n' l2 k2 l1 k1 Efl') as (<- & <- & <-).
  { intros Hin. specialize (Hrej n' Hin). lia. }
  { intros Hin. specialize (Hrej' n Hin). lia. }
  destruct (Hres H16) as (m' & bl' & fl' & -> & Hinv' & Ht & _).
  exists (St m' lo brk max lo (lo + 16)), pre, post, bl', fl'.
  rewrite Hns. split; [rewrite Hrun, Er; reflexivity|].
  split; [exact Ebl|]. split; [exact En|]. split; [exact Hinv'|].
  destruct Ht as [(H1 & H2 & H3)|(H1 & H2 & H3)].
  - left. repeat split; assumption.
  - right. split; [exact H1|]. split; [exact H2|]. rewrite H3, En. reflexivity.
Qed.

Lemma exp_find_fit_split_policy_witness :
  heap_inv demo demo_blocks demo_list /\ 16 <= 16 /\ 16 mod 16 = 0 /\
  (length demo_list < 8)%nat /\ demo_list = [65584] ++ 65648 :: [] /\
  16 <= node_size (mem (ar demo)) 65648 /\
  exists s', find_fit 8 16 demo = Ok (65648 - 16, s').
Proof.
  assert (Hn : 16 <= node_size (mem (ar demo)) 65648) by (vm_compute; discriminate).
  split; [exact demo_inv|]. split; [lia|]. split; [reflexivity|].
  split; [cbn; lia|]. split; [reflexivity|]. split; [exact Hn|].
  destruct (exp_find_fit_split_policy demo demo_blocks demo_list 8 16 [65584] 65648 []
              demo_inv)
    as (s' & _ & _ & _ & _ & H & _);
    [lia|reflexivity|cbn; lia|reflexivity|exact Hn|intros x []|].
  exists s'. exact H.
Defined.

Lemma in_payload_drop_free a pre psz x :
  in_payload a (pre ++ [(psz, false)]) x -> in_payload a pre x.
Proof.
  intros H. apply in_payload_app in H. destruct H as [H|H]; [exact H|].
  cbn [in_payload] in H. destruct H as [[E _]|[]]. discriminate.
Qed.

(** X20.  [mm_free] (explicit list) leaves the other blocks alone: in a
    heap that satisfies the invariant, after [mm_free p] of a block of
    [sz >= 16] bytes every payload byte of another allocated block is
    still payload of an allocated block and has kept its value, and
    the bytes of the freed payload belong to no allocated block any
    more. *)
Theorem exp_free_keeps_others (s : state) pre sz post fl :
  let lo := mem_lo (ar s) in
  let p := lo + 32 + span pre + 16 in
  let bl := pre ++ (sz, true) :: post in
  heap_inv s bl fl -> 16 <= sz ->
  exists s' bl' fl',
    mm_free p s = Ok (tt, s') /\ heap_inv s' bl' fl' /\
    mem_brk (ar s') = mem_brk (ar s) /\
    (forall x, in_payload (lo + 32) bl x -> x < p \/ p + sz <= x ->
               in_payload (lo + 32) bl' x /\ mem (ar s') x = mem (ar s) x) /\
    (forall x, p <= x < p + sz -> ~ in_payload (lo + 32) bl' x).
Proof.
  destruct s as [[m lo brk max] f l]. cbn [ar mem mem_lo mem_brk].
  intros Hinv H16. set (p := lo + 32 + span pre + 16).
  pose proof Hinv as (_ & _ & Hc & Hfl & _).
  cbn [ar mem mem_lo] in Hc, Hfl. pose proof Hc as (_ & _ & _ & Hb & _).
  destruct (wpx_total _ _ _ (exp_free_spec true m lo brk max f l pre sz post fl Hinv H16))
    as ([] & s' & Hrun & m' & bl' & fl' & -> & Hinv' & Hres & Hfr).
  exists (St m' lo brk max lo (lo + 16)), bl', fl'.
  split; [exact Hrun|]. split; [exact Hinv'|]. cbn [ar mem mem_brk].
  split; [reflexivity|].
  pose proof Hinv' as (_ & _ & (_ & _ & _ & Hb' & _) & _). cbn [ar mem mem_lo] in Hb'.
  assert (Hval : forall x, in_payload (lo + 32) (pre ++ (sz, true) :: post) x ->
                   x < p \/ p + sz <= x -> m' x = m x).
  { intros x Hx Hout. apply Hfr.
    destruct (in_payload_clear m lo _ fl x Hc) as (C1 & C2 & C3);
      [intros k Hk; apply Hfl; exact Hk|exact Hx|].
    split; [exact C1|]. split; [exact C2|].
    intros k [<-|Hk]; [fold p; lia|apply C3; exact Hk]. }
  assert (Hparts : forall x, in_payload (lo + 32) (pre ++ (sz, true) :: post) x ->
                     x < p \/ p + sz <= x ->
                     in_payload (lo + 32) pre x \/
                     in_payload (lo + 32 + span pre + 16 + sz) post x).
  { intros x Hx Hout. apply in_payload_app in Hx. destruct Hx as [Hx|Hx]; [left; exact Hx|].
    cbn [in_payload] in Hx. destruct Hx as [[_ Hx]|Hx]; [unfold p in Hout; lia|].
    right. exact Hx. }
  assert (Hgone : forall x bsz0 pre0 post0,
            bl' = pre0 ++ (bsz0, false) :: post0 ->
            lo + 32 + span pre0 + 16 <= p -> p + sz <= lo + 32 + span pre0 + 16 + bsz0 ->
            p <= x < p + sz -> ~ in_payload (lo + 32) bl' x).
  { intros x bsz0 pre0 post0 E H1 H2 Hx Hin. rewrite E in Hb', Hin.
    pose proof (in_payload_not_free _ _ _ _ _ _ _ _ Hb' Hin). lia. }
  destruct Hres as [(_ & _ & E & _)
                   |[(_ & nsz & post' & l1 & l2 & -> & _ & E & _)
                    |[(pre' & psz & -> & _ & E & _)
                     |(pre' & psz & nsz & post' & l1 & l2 & -> & -> & _ & E & _)]]].
  - split.
    + intros x Hx Hout. split; [|apply Hval; assumption].
      rewrite E. apply in_payload_app.
      destruct (Hparts x Hx Hout) as [H|H]; [left; exact H|right].
      cbn [in_payload]. right. exact H.
    + intros x Hx. apply (Hgone x sz pre post E); fold p; lia.
  - rewrite (app_cons_assoc pre (sz, true)) in Hb.
    destruct (blocks_mid _ _ _ _ _ _ _ _ Hb) as (_ & _ & _ & _ & Hn0 & _).
    split.
    + intros x Hx Hout. split; [|apply Hval; assumption].
      rewrite E. apply in_payload_app.
      destruct (Hparts x Hx Hout) as [H|H]; [left; exact H|right].
      cbn [in_payload] in *. destruct H as [[Ef _]|H]; [discriminate|]. right.
      replace (lo + 32 + span pre + 16 + (sz + nsz + 16))
        with (lo + 32 + span pre + 16 + sz + 16 + nsz) by lia.
      exact H.
    + intros x Hx. apply (Hgone x (sz + nsz + 16) pre post' E); fold p; lia.
  - destruct (blocks_mid _ _ _ _ _ _ _ _ Hb) as (_ & _ & _ & _ & _ & _ & _ & Hsp & _).
    assert (Hps : 0 <= psz).
    { rewrite <- app_assoc in Hb. cbn [app] in Hb.
      destruct (blocks_mid _ _ _ _ _ _ _ _ Hb) as (_ & _ & _ & _ & H & _). exact H. }
    assert (Ep : p = lo + 32 + span pre' + 16 + psz + 16).
    { unfold p. rewrite span_app. cbn [span]. lia. }
    split.
    + intros x Hx Hout. split; [|apply Hval; assumption].
      rewrite E. apply in_payload_app.
      destruct (Hparts x Hx Hout) as [H|H].
      * left. apply (in_payload_drop_free _ _ psz). exact H.
      * right. cbn [in_payload]. right.
        replace (lo + 32 + span pre' + 16 + (psz + sz + 16))
          with (lo + 32 + span (pre' ++ [(psz, false)]) + 16 + sz)
          by (rewrite span_app; cbn [span]; lia).
        exact H.
    + intros x Hx. apply (Hgone x (psz + sz + 16) pre' post E); lia.
  - assert (Hps : 0 <= psz /\ 0 <= nsz).
    { pose proof Hb as Hb2. rewrite <- app_assoc in Hb. cbn [app] in Hb.
      destruct (blocks_mid _ _ _ _ _ _ _ _ Hb) as (_ & _ & _ & _ & H & _).
      rewrite (app_cons_assoc _ (sz, true)) in Hb2.
      destruct (blocks_mid _ _ _ _ _ _ _ _ Hb2) as (_ & _ & _ & _ & H' & _).
      split; assumption. }
    assert (Ep : p = lo + 32 + span pre' + 16 + psz + 16).
    { unfold p. rewrite span_app. cbn [span]. lia. }
    split.
    + intros x Hx Hout. split; [|apply Hval; assumption].
      rewrite E. apply in_payload_app.
      destruct (Hparts x Hx Hout) as [H|H].
      * left. apply (in_payload_drop_free _ _ psz). exact H.
      * right. cbn [in_payload] in *. destruct H as [[Ef _]|H]; [discriminate|]. right.
        replace (lo + 32 + span pre' + 16 + (psz + sz + nsz + 32))
          with (lo + 32 + span (pre' ++ [(psz, false)]) + 16 + sz + 16 + nsz)
          by (rewrite span_app; cbn [span]; lia).
        exact H.
    + intros x Hx. apply (Hgone x (psz + sz + nsz + 32) pre' post' E); lia.
Qed.

Lemma exp_free_keeps_others_witness :
  heap_inv demo ([(16, false)] ++ (16, true) :: [(16, false); (16, true)]) demo_list /\
  16 <= 16 /\
  exists s' bl' fl',
    mm_free (mem_lo (ar demo) + 32 + span [(16, false)] + 16) demo = Ok (tt, s') /\
    heap_inv s' bl' fl'.
Proof.
  split; [exact demo_inv|]. split; [lia|].
  destruct (exp_free_keeps_others demo [(16, false)] 16 [(16, false); (16, true)]
              demo_list demo_inv ltac:(lia))
    as (s' & bl' & fl' & H1 & H2 & _).
  exists s', bl', fl'. split; [exact H1|exact H2].
Defined.

End ExplicitBlocks.

(** ** The implicit list: the first payload, and the block a search takes *)

Module ImplicitBlocks.
Import Implicit ImplicitSpec ImplicitProofs.

Lemma imp_wpx_run {S A} (c : M S A) s x (Q : S -> Prop) :
  wpx true c (fun y t => y = x /\ Q t) s -> exists s', c s = Ok (x, s') /\ Q s'.
Proof.
  intros H. destruct (wpx_total _ _ _ H) as (y & t & E & -> & HQ).
  exists t. split; [exact E|exact HQ].
Qed.

(** X21.  Why [mm_init] pads (implicit list): on an arena whose mark is
    at its 16-aligned bottom [lo], [mm_init] followed by the first
    [mm_malloc] (of a size whose block fits the arena) returns
    [lo + 16], and the heap then consists of that one allocated block,
    which both [mm_heap_first] and [mm_heap_last] point to. *)
Theorem imp_first_payload (s : state) fuel n :
  let lo := mem_lo (ar s) in
  mem_brk (ar s) = lo -> 0 < lo -> lo mod 16 = 0 -> mem_max (ar s) < W ->
  0 <= n -> n + 23 < W -> (0 < fuel)%nat ->
  lo + 8 + block_size_for n <= mem_max (ar s) ->
  exists s',
    (mm_init ;; mm_malloc fuel n) s = Ok (lo + 16, s') /\
    heap_inv s' [(block_size_for n, true)] /\
    mm_heap_first s' = lo + 8 /\ mm_heap_last s' = lo + 8.
Proof.
  destruct s as [[m lo brk max] f l]. cbn [ar mem_lo mem_brk mem_max].
  intros -> Hlo Hal HW Hn0 Hn Hfuel Hroom.
  destruct (block_size_for_facts n) as [Hsm Hsr].
  assert (Hsz : n + 8 <= block_size_for n).
  { unfold block_size_for, sizeof_block_t, sizeof_size_t.
    rewrite wadd_small by lia. rewrite round_up_16 by lia. mlia. }
  assert (H16 : 16 <= block_size_for n) by mlia.
  destruct fuel as [|fuel]; [lia|].
  apply imp_wpx_run. apply wpx_bind.
  unfold mm_init. change (wsub ALIGNMENT sizeof_block_t) with 8.
  apply wpx_bind. apply wpx_sbrk; intros H8; [|lia].
  replace (lo =? MINUS1) with false
    by (symmetry; apply Z.eqb_neq; rewrite MINUS1_eq; lia).
  apply wpx_bind. unfold set_first. apply wpx_modify. cbn [ar mm_heap_last].
  apply wpx_bind. unfold set_last. apply wpx_modify. cbn [ar mm_heap_first].
  apply wpx_ret.
  unfold mm_malloc. apply wpx_bind.
  unfold coalesce. apply wpx_bind, wpx_gets. cbn [mm_heap_first coalesce_from].
  apply wpx_bind, wpx_gets. cbn [mm_heap_last]. rewrite Z.eqb_refl. cbn [negb andb].
  apply wpx_ret. cbv zeta. fold (block_size_for n).
  apply wpx_bind. unfold find_fit. apply wpx_bind, wpx_gets. cbn [mm_heap_first find_fit_from].
  apply wpx_bind, wpx_gets. cbn [mm_heap_last]. rewrite Z.eqb_refl. cbn [negb andb].
  apply wpx_ret. rewrite Z.eqb_refl. cbn [negb].
  apply wpx_bind. apply wpx_sbrk; intros Hg; [|lia].
  replace (lo + 8 =? MINUS1) with false
    by (symmetry; apply Z.eqb_neq; rewrite MINUS1_eq; lia).
  apply wpx_bind, wpx_gets. cbn [mm_heap_first]. rewrite Z.eqb_refl.
  apply wpx_bind. unfold set_first. apply wpx_modify. cbn [ar mm_heap_last].
  apply wpx_bind. unfold set_last. apply wpx_modify. cbn [ar mm_heap_first].
  apply wpx_bind. apply wpx_set_header; [lia|lia|mlia|].
  apply wpx_ret. unfold payload, sizeof_block_t, sizeof_size_t.
  rewrite wadd_small by lia. split; [lia|].
  cbn [mm_heap_first mm_heap_last]. split; [|split; reflexivity].
  apply heap_inv_intro; try assumption; try lia.
  - cbn [total]. lia.
  - cbn [blocks_at]. split; [|split; [exact H16|split; [exact Hsm|exact I]]].
    apply rd_wr_same. unfold tag. cbn [Z.b2z]. lia.
  - discriminate.
Qed.

Lemma imp_first_payload_witness :
  mem_brk (ar (fresh 65536 4096)) = mem_lo (ar (fresh 65536 4096)) /\
  0 < 65536 /\ 65536 mod 16 = 0 /\ 69632 < W /\ 0 <= 24 /\ 24 + 23 < W /\
  (0 < 8)%nat /\ 65536 + 8 + block_size_for 24 <= 69632 /\
  exists s', (mm_init ;; mm_malloc 8 24) (fresh 65536 4096) = Ok (65536 + 16, s').
Proof.
  split; [reflexivity|]. split; [lia|]. split; [reflexivity|]. split; [reflexivity|].
  split; [lia|]. split; [reflexivity|]. split; [lia|]. split; [vm_compute; discriminate|].
  destruct (imp_first_payload (fresh 65536 4096) 8 24) as (s' & H & _);
    [reflexivity|reflexivity|reflexivity|reflexivity|lia|reflexivity|lia
    |vm_compute; discriminate|].
  exists s'. exact H.
Defined.

(** X22.  What [find_fit] (implicit list) does to the block it returns,
    for a rounded request of [size >= 16] bytes in a heap that satisfies
    the invariant: the block was free with [sz >= size] bytes and is
    allocated afterwards with exactly [size] bytes; when [sz > size] the
    remaining [sz - size] bytes become a free block behind it.  The
    invariant holds afterwards and no byte of an allocated block
    changes. *)
Theorem imp_find_fit_takes_block (s : state) bl fuel size r s' :
  let lo := mem_lo (ar s) in
  heap_inv s bl -> 16 <= size -> size mod 16 = 0 -> size < W ->
  find_fit fuel size s = Ok (r, s') -> r <> NULL ->
  exists pre sz post,
    bl = pre ++ (sz, false) :: post /\ r = lo + 8 + total pre /\ size <= sz /\
    heap_inv s' (pre ++ (size, true) ::
                   (if sz =? size then [] else [(sz - size, false)]) ++ post) /\
    mem_brk (ar s') = mem_brk (ar s) /\
    forall x, in_allocated (lo + 8) bl x -> mem (ar s') x = mem (ar s) x.
Proof.
  destruct s as [[m lo brk max] f l]. cbn [ar mem mem_lo mem_brk].
  intros Hinv H16 Hsm HW Hrun Hr.
  pose proof (wpx_partial _ _ _ _ _ _
    (find_fit_spec false fuel size m lo brk max f l bl Hsm ltac:(lia) Hinv
       ltac:(discriminate)) Hrun) as Hres.
  cbv beta in Hres. destruct Hres as [(E & _)|Hres]; [contradiction|].
  destruct Hres as (pre & sz & post & Ebl & Er & Hfit & Hres).
  destruct (Hres H16) as (m' & l' & -> & Hinv' & [_ Hp]).
  exists pre, sz, post. split; [exact Ebl|]. split; [exact Er|]. split; [exact Hfit|].
  split; [exact Hinv'|]. cbn [ar mem mem_brk]. split; [reflexivity|exact Hp].
Qed.

Lemma imp_find_fit_takes_block_witness :
  heap_inv demo demo_blocks /\ 16 <= 16 /\ 16 mod 16 = 0 /\ 16 < W /\
  find_fit 8 16 demo = Ok (65544, after (find_fit 8 16) demo) /\ 65544 <> NULL /\
  exists pre sz post,
    demo_blocks = pre ++ (sz, false) :: post /\
    65544 = mem_lo (ar demo) + 8 + total pre.
Proof.
  assert (E : find_fit 8 16 demo = Ok (65544, after (find_fit 8 16) demo)).
  { apply run_ok. vm_compute. reflexivity. }
  split; [exact imp_demo_inv|]. split; [lia|]. split; [reflexivity|].
  split; [reflexivity|]. split; [exact E|]. split; [discriminate|].
  destruct (imp_find_fit_takes_block demo demo_blocks 8 16 65544 _ imp_demo_inv
              ltac:(lia) eq_refl eq_refl E ltac:(discriminate))
    as (pre & sz & post & H1 & H2 & _).
  exists pre, sz, post. split; [exact H1|exact H2].
Defined.

End ImplicitBlocks.

(** ** The explicit list: [mm_realloc] *)

Module ExplicitRealloc.
Import Explicit ExplicitSpec ExplicitProofs MoreExplicit.

Lemma split_two {A} (x y : A) post post' : forall pre pre',
  pre ++ x :: post = pre' ++ y :: post' -> x <> y ->
  (exists mid, pre' = pre ++ x :: mid /\ post = mid ++ y :: post') \/
  (exists mid, pre = pre' ++ y :: mid /\ post' = mid ++ x :: post).
Proof.
  induction pre as [|a pre IH]; intros [|b pre'] E Hxy; cbn [app] in E.
  - injection E as E1 E2. contradiction.
  - injection E as E1 E2. left. exists pre'. subst b. split; [reflexivity|exact E2].
  - injection E as E1 E2. right. exists pre. subst a. split; [reflexivity|].
    symmetry. exact E2.
  - injection E as E1 E2. subst b. destruct (IH pre' E2 Hxy) as [(mid & -> & ->)|(mid & -> & ->)].
    + left. exists mid. split; reflexivity.
    + right. exists mid. split; reflexivity.
Qed.

(** Replacing a free block by blocks of the same span keeps every
    allocated block where it is. *)
Lemma keep_alloc pre sz post preF bsz postF midF :
  pre ++ (sz, true) :: post = preF ++ (bsz, false) :: postF ->
  span midF = 16 + bsz ->
  exists pre1 post1,
    preF ++ midF ++ postF = pre1 ++ (sz, true) :: post1 /\ span pre1 = span pre.
Proof.
  intros E Hs. destruct (split_two _ _ _ _ _ _ E) as [(mid & -> & ->)|(mid & -> & ->)].
  - discriminate.
  - exists pre, (mid ++ midF ++ postF). split.
    + rewrite <- app_assoc. reflexivity.
    + reflexivity.
  - exists (preF ++ midF ++ mid), post. split.
    + rewrite <- !app_assoc. reflexivity.
    + rewrite !span_app. cbn [span]. lia.
Qed.

(** Where the old block and the new block are after a successful
    [mm_malloc]. *)
Lemma malloc_keeps_block m lo bl fl size q m1 bl1 fl1 pre sz post :
  alloc_result m lo bl fl size q m1 bl1 fl1 ->
  cfg m lo bl fl -> (forall n, In n fl -> In n (free_nodes (lo + 32) bl)) ->
  bl = pre ++ (sz, true) :: post -> 16 <= size ->
  exists pre1 post1 preq szq postq,
    bl1 = pre1 ++ (sz, true) :: post1 /\ span pre1 = span pre /\
    bl1 = preq ++ (szq, true) :: postq /\ q = lo + 32 + span preq + 16 /\
    size <= szq /\
    (forall x, q <= x < q + szq -> ~ in_payload (lo + 32) bl x) /\
    (forall x, in_payload (lo + 32) bl x -> m1 x = m x).
Proof.
  intros Hres Hc Hfl Ebl H16. pose proof Hc as (_ & _ & _ & Hb & _).
  destruct Hres as [(k1 & k2 & preF & bsz & postF & Efl & EblF & Eq & Hfit & _ & Ht & Hfr)
                   |(Eq & -> & -> & _ & Hfr)].
  - assert (Hold : forall x, q <= x < q + bsz -> ~ in_payload (lo + 32) bl x).
    { intros x Hx Hin. rewrite EblF in Hb, Hin.
      pose proof (in_payload_not_free _ _ _ _ _ _ _ _ Hb Hin). lia. }
    assert (Hkeep : forall x, in_payload (lo + 32) bl x -> m1 x = m x).
    { intros x Hx. apply Hfr.
      - apply (in_payload_clear m lo bl fl x Hc Hfl Hx).
      - rewrite EblF in Hb, Hx.
        pose proof (in_payload_not_free _ _ _ _ _ _ _ _ Hb Hx). lia. }
    rewrite Ebl in EblF.
    destruct Ht as [(Hsmall & -> & _)|(Hbig & -> & _)].
    + destruct (keep_alloc pre sz post preF bsz postF [(bsz, true)] EblF)
        as (pre1 & post1 & E1 & Hs1); [cbn [span]; lia|].
      exists pre1, post1, preF, bsz, postF. cbn [app] in E1.
      split; [exact E1|]. split; [exact Hs1|]. split; [reflexivity|].
      split; [exact Eq|]. split; [exact Hfit|]. split; [exact Hold|exact Hkeep].
    + destruct (keep_alloc pre sz post preF bsz postF
                  [(size, true); (bsz - size - 16, false)] EblF)
        as (pre1 & post1 & E1 & Hs1); [cbn [span]; lia|].
      exists pre1, post1, preF, size, ((bsz - size - 16, false) :: postF).
      cbn [app] in E1.
      split; [exact E1|]. split; [exact Hs1|]. split; [reflexivity|].
      split; [exact Eq|]. split; [lia|]. split; [|exact Hkeep].
      intros x Hx. apply Hold. lia.
  - pose proof (blocks_span _ _ _ _ _ Hb) as Hsp.
    exists pre, (post ++ [(size, true)]), bl, size, [].
    split; [rewrite Ebl, <- app_assoc; reflexivity|]. split; [reflexivity|].
    split; [reflexivity|]. split; [exact Eq|]. split; [lia|]. split.
    + intros x Hx Hin. pose proof (in_payload_range _ _ _ _ _ _ Hb Hin). lia.
    + intros x Hx. apply Hfr. pose proof (in_payload_range _ _ _ _ _ _ Hb Hx). lia.
Qed.

(** Changing bytes that belong to no header, footer or list node
    leaves blocks and list in place. *)
Lemma blocks_same m m' a pt bl nh :
  blocks m a pt bl nh ->
  (forall c x, In c (bounds a bl) -> c <= x < c + 16 -> m' x = m x) ->
  blocks m' a pt bl nh.
Proof.
  revert a pt. induction bl as [|[sz al] r IH]; intros a pt Hb Hs; cbn [blocks bounds] in *.
  - destruct Hb as [H1 H2]. split.
    + rewrite <- H1. apply rd_ext. intros x Hx. apply (Hs a); [left; reflexivity|lia].
    + rewrite <- H2. apply rd_ext. intros x Hx. apply (Hs a); [left; reflexivity|lia].
  - destruct Hb as (H1 & H2 & H3 & H4 & H5 & Hr).
    split; [rewrite <- H1; apply rd_ext; intros x Hx; apply (Hs a); [left; reflexivity|lia]|].
    split; [rewrite <- H2; apply rd_ext; intros x Hx; apply (Hs a); [left; reflexivity|lia]|].
    repeat (split; [assumption|]).
    apply IH; [exact Hr|]. intros c x Hc Hx. apply (Hs c); [right; exact Hc|exact Hx].
Qed.

Lemma dll_same m m' lst fl : forall prev,
  dll m prev fl lst ->
  (forall n x, In n (prev :: lst :: fl) -> n <= x < n + 16 -> m' x = m x) ->
  dll m' prev fl lst.
Proof.
  induction fl as [|k r IH]; intros prev Hd Hs; cbn [dll] in *.
  - destruct Hd as [H1 H2]. split.
    + rewrite <- H1. apply rd_ext. intros x Hx. apply (Hs prev); [left; reflexivity|lia].
    + rewrite <- H2. apply rd_ext. intros x Hx.
      apply (Hs lst); [right; left; reflexivity|lia].
  - destruct Hd as (H1 & H2 & Hr).
    split; [rewrite <- H1; apply rd_ext; intros x Hx; apply (Hs prev); [left; reflexivity|lia]|].
    split; [rewrite <- H2; apply rd_ext; intros x Hx;
            apply (Hs k); [right; right; left; reflexivity|lia]|].
    apply IH; [exact Hr|]. intros n x Hn Hx. apply (Hs n); [|exact Hx].
    destruct Hn as [<-|[<-|Hn]]; [right; right; left; reflexivity|right; left; reflexivity|].
    right. right. right. exact Hn.
Qed.

Lemma cfg_same m m' lo bl fl :
  cfg m lo bl fl ->
  (forall x, m' x <> m x -> clear lo bl fl x) ->
  cfg m' lo bl fl.
Proof.
  intros (Hlo & Hal & Hw & Hb & Hd & Hnd & Hok) Hs.
  assert (Hkeep : forall x, ~ clear lo bl fl x -> m' x = m x).
  { intros x Hx. destruct (Z.eq_dec (m' x) (m x)) as [E|E]; [exact E|].
    exfalso. apply Hx, Hs, E. }
  split; [exact Hlo|]. split; [exact Hal|]. split; [exact Hw|].
  split; [|split; [|split; [exact Hnd|exact Hok]]].
  - apply (blocks_same m); [exact Hb|]. intros c x Hc Hx. apply Hkeep.
    intros (_ & C & _). specialize (C c Hc). lia.
  - apply (dll_same m); [exact Hd|]. intros n x Hn Hx. apply Hkeep.
    intros (C0 & _ & C). destruct Hn as [<-|[<-|Hn]]; [lia|lia|].
    specialize (C n Hn). lia.
Qed.

Lemma wpx_memcpy b m lo brk max f l dst src n (Q : Z -> state -> Prop) :
  0 < n -> lo <= src -> src + n <= max -> lo <= dst -> dst + n <= max ->
  Q dst (St (store_bytes m dst (load_bytes m src (Z.to_nat n))) lo brk max f l) ->
  wpx b (lift (memcpy dst src n)) Q (St m lo brk max f l).
Proof.
  intros Hn H1 H2 H3 H4 HQ. unfold wpx, lift, memcpy. cbn [ar].
  replace (n =? 0) with false by (symmetry; apply Z.eqb_neq; lia).
  rewrite !exp_in_arena_true by assumption. cbn [andb]. exact HQ.
Qed.

Lemma load_bytes_nth m p n i :
  (i < n)%nat -> nth i (load_bytes m p n) 0 = m (p + Z.of_nat i).
Proof.
  intros H. unfold load_bytes.
  apply (nth_map_seq (fun k => m (p + Z.of_nat k)) n i 0 H).
Qed.

Lemma load_bytes_length m p n : length (load_bytes m p n) = n.
Proof. unfold load_bytes. rewrite length_map, length_seq. reflexivity. Qed.

(** X23.  [mm_realloc] (explicit list) keeps the data: in a heap that
    satisfies the invariant and has room to grow, [mm_realloc p n] for
    an allocated block of [sz >= 16] bytes and a size [n] whose rounding
    is at least 16 returns a pointer that is not [NULL] and 16-aligned,
    leaves a heap that satisfies the invariant, and the new payload
    starts with the bytes of the old one: byte [i] of the new payload is
    byte [i] of the old payload as it was before the call, for every
    [i] below the old size and the rounded new size. *)
Theorem exp_realloc_keeps_prefix (s : state) pre sz post fl fuel n :
  let lo := mem_lo (ar s) in
  let p := lo + 32 + span pre + 16 in
  let size := round_up n ALIGNMENT in
  heap_inv s (pre ++ (sz, true) :: post) fl -> 16 <= sz ->
  mem_max (ar s) + 16 <= W -> 16 <= size -> (length fl < fuel)%nat ->
  mem_brk (ar s) + size + 16 <= mem_max (ar s) ->
  exists q s' bl' fl',
    mm_realloc fuel p n s = Ok (q, s') /\ q <> NULL /\ q mod 16 = 0 /\
    heap_inv s' bl' fl' /\
    forall i, 0 <= i < sz -> i < size -> mem (ar s') (q + i) = mem (ar s) (p + i).
Proof.
  destruct s as [[m lo brk max] f l]. cbn [ar mem mem_lo mem_brk mem_max].
  intros Hinv Hsz HmaxW H16 Hfuel Hroom.
  set (p := lo + 32 + span pre + 16). set (size := round_up n ALIGNMENT) in *.
  pose proof Hinv as (Hf & Hl & Hc & Hfl & _).
  cbn [ar mem mem_lo first last] in Hf, Hl, Hc, Hfl. subst f l.
  pose proof Hc as (Hlo & Hal & _ & Hb & _).
  destruct (blocks_mid _ _ _ _ _ _ _ _ Hb) as (_ & _ & _ & _ & _ & _ & _ & Hsp & _).
  assert (Hn0 : n <> 0).
  { intros ->. unfold size in H16. vm_compute in H16. apply H16. reflexivity. }
  assert (Hold : forall j, 0 <= j < sz ->
            in_payload (lo + 32) (pre ++ (sz, true) :: post) (p + j)).
  { intros j Hj. apply in_payload_app. right. cbn [in_payload]. left.
    split; [reflexivity|unfold p; lia]. }
  assert (Hrun : wpx true (mm_realloc fuel p n)
    (fun q s' => q <> NULL /\ q mod 16 = 0 /\ exists bl' fl',
       heap_inv s' bl' fl' /\
       forall i, 0 <= i < sz -> i < size -> mem (ar s') (q + i) = m (p + i))
    (St m lo brk max lo (lo + 16))).
  { unfold mm_realloc.
    replace (p =? NULL) with false
      by (symmetry; apply Z.eqb_neq; unfold NULL, p; lia).
    replace (n =? 0) with false by (symmetry; apply Z.eqb_neq; exact Hn0).
    apply wpx_bind. eapply wpx_conseq.
    { apply (exp_malloc_spec true fuel n m lo brk max _ fl Hinv HmaxW).
      intros _. repeat split; assumption. }
    cbv beta. intros q s1 (Hqal & Hres).
    destruct (Hres H16) as (m1 & brk1 & bl1 & fl1 & -> & Hinv1 & Hcase).
    destruct Hcase as [(_ & _ & _ & _ & Hno & _)|(Hq & Har)]; [fold size in Hno; lia|].
    fold size in Har.
    destruct (malloc_keeps_block _ _ _ _ _ _ _ _ _ pre sz post Har Hc
                ltac:(intros k Hk; apply Hfl; exact Hk) eq_refl H16)
      as (pre1 & post1 & preq & szq & postq & E1 & Hs1 & Eq1 & Eq & Hszq & Hfresh & Hkeep).
    pose proof Hinv1 as (_ & _ & Hc1 & Hfl1 & Hnaf1 & Hbrk1 & HW1 & Hend1).
    cbn [ar mem mem_lo mem_brk mem_max] in Hc1, Hfl1, Hbrk1, HW1, Hend1.
    pose proof Hc1 as (_ & _ & Hw1 & Hb1 & _).
    assert (Hmax1 : lo + 32 + span bl1 + 16 <= max) by lia.
    pose proof Hb1 as Hbp. rewrite E1 in Hbp.
    destruct (blocks_mid _ _ _ _ _ _ _ _ Hbp)
      as (_ & Hhdp & _ & _ & _ & Hszm & _ & Hsp1 & Hspo1 & _).
    pose proof Hb1 as Hbq. rewrite Eq1 in Hbq.
    destruct (blocks_mid _ _ _ _ _ _ _ _ Hbq)
      as (_ & Hhdq & _ & _ & Hq0 & Hqm & _ & Hspq & Hspoq & _).
    assert (Hspan_p : span bl1 = span pre1 + 16 + sz + span post1).
    { rewrite E1, span_app. cbn [span]. lia. }
    assert (Hspan_q : span bl1 = span preq + 16 + szq + span postq).
    { rewrite Eq1, span_app. cbn [span]. lia. }
    assert (Ep : p = lo + 32 + span pre1 + 16) by (unfold p; lia).
    unfold block_from_payload. rewrite ALIGNMENT_eq.
    rewrite (wsub_small p 16) by lia. rewrite (wsub_small q 16) by lia.
    apply wpx_bind. eapply (exp_wpx_get_size true m1 lo brk1 max _ _ (p - 16) sz true);
      [exact Hlo|exact HW1|lia|lia|lia
      |replace (p - 16 + 8) with (lo + 32 + span pre1 + 8) by lia; exact Hhdp|lia|mlia|].
    apply wpx_bind. eapply (exp_wpx_get_size true m1 lo brk1 max _ _ (q - 16) szq true);
      [exact Hlo|exact HW1|lia|lia|lia
      |replace (q - 16 + 8) with (lo + 32 + span preq + 8) by lia; exact Hhdq|lia|mlia|].
    set (k := if szq <? sz then szq else sz).
    assert (Hk : 16 <= k /\ k <= sz /\ k <= szq /\ (sz <= szq -> k = sz)).
    { unfold k. destruct (Z.ltb_spec szq sz); lia. }
    apply wpx_bind. apply wpx_memcpy; [lia|lia|lia|lia|lia|].
    set (m2 := store_bytes m1 q (load_bytes m1 p (Z.to_nat k))).
    assert (Hqin : forall x, q <= x < q + szq -> in_payload (lo + 32) bl1 x).
    { intros x Hx. rewrite Eq1. apply in_payload_app. right. cbn [in_payload]. left.
      split; [reflexivity|lia]. }
    assert (Hclr : forall x, q <= x < q + szq -> clear lo bl1 fl1 x).
    { intros x Hx. apply (in_payload_clear m1 lo bl1 fl1 x Hc1);
        [intros j Hj; apply Hfl1; exact Hj|apply Hqin; exact Hx]. }
    assert (Hc2 : cfg m2 lo bl1 fl1).
    { apply (cfg_same m1); [exact Hc1|]. intros x Hx.
      destruct (Z_lt_ge_dec x q) as [Hlt|Hge];
        [exfalso; apply Hx; unfold m2; apply store_bytes_out; left; exact Hlt|].
      destruct (Z_lt_ge_dec x (q + k)) as [Hlt2|Hge2]; [apply Hclr; lia|].
      exfalso. apply Hx. unfold m2. apply store_bytes_out. right.
      rewrite load_bytes_length. lia. }
    assert (Hinv2 : heap_inv (St m2 lo brk1 max lo (lo + 16))
                      (pre1 ++ (sz, true) :: post1) fl1).
    { rewrite <- E1. apply exp_heap_inv_intro; assumption. }
    apply wpx_bind. replace p with (lo + 32 + span pre1 + 16) at 1 by lia.
    eapply wpx_conseq.
    { apply (exp_free_spec true m2 lo brk1 max lo (lo + 16) pre1 sz post1 fl1 Hinv2 Hsz). }
    cbv beta. intros _ s3 (m3 & bl3 & fl3 & -> & Hinv3 & _ & Hfr3).
    apply wpx_ret. split; [exact Hq|].
    split; [destruct Hqal as [E|E]; [contradiction|exact E]|].
    exists bl3, fl3. split; [exact Hinv3|]. cbn [ar mem].
    intros i Hi Hi2.
    assert (Hik : 0 <= i < k) by (unfold k; destruct (Z.ltb_spec szq sz); lia).
    rewrite Hfr3.
    - unfold m2. rewrite store_bytes_in by (rewrite load_bytes_length; lia).
      replace (q + i - q) with i by lia.
      rewrite load_bytes_nth by lia. rewrite Z2Nat.id by lia.
      apply Hkeep. apply Hold. exact Hi.
    - rewrite <- E1. destruct (Hclr (q + i)) as (C1 & C2 & C3); [lia|].
      split; [exact C1|]. split; [exact C2|].
      intros j [<-|Hj]; [|apply C3; exact Hj].
      rewrite <- Ep.
      destruct (Z_lt_ge_dec (q + i) p) as [Hlt|Hge]; [left; exact Hlt|].
      destruct (Z_lt_ge_dec (q + i) (p + 16)) as [Hlt2|Hge2]; [|right; lia].
      exfalso. apply (Hfresh (q + i)); [lia|].
      replace (q + i) with (p + (q + i - p)) by lia. apply Hold. lia. }
  destruct (wpx_total _ _ _ Hrun) as (q & s' & Hrun' & Hq & Hqal & bl' & fl' & Hinv' & Hpre).
  exists q, s', bl', fl'. split; [exact Hrun'|]. split; [exact Hq|].
  split; [exact Hqal|]. split; [exact Hinv'|exact Hpre].
Qed.

Lemma exp_realloc_keeps_prefix_witness :
  heap_inv demo ([(16, false)] ++ (16, true) :: [(16, false); (16, true)]) demo_list /\
  16 <= 16 /\ mem_max (ar demo) + 16 <= W /\ 16 <= round_up 40 ALIGNMENT /\
  (length demo_list < 8)%nat /\
  mem_brk (ar demo) + round_up 40 ALIGNMENT + 16 <= mem_max (ar demo) /\
  exists q s' bl' fl',
    mm_realloc 8 (mem_lo (ar demo) + 32 + span [(16, false)] + 16) 40 demo = Ok (q, s') /\
    q <> NULL /\ heap_inv s' bl' fl'.
Proof.
  split; [exact demo_inv|]. split; [lia|]. split; [vm_compute; discriminate|].
  split; [vm_compute; discriminate|]. split; [cbn; lia|].
  split; [vm_compute; discriminate|].
  destruct (exp_realloc_keeps_prefix demo [(16, false)] 16 [(16, false); (16, true)]
              demo_list 8 40 demo_inv)
    as (q & s' & bl' & fl' & H1 & H2 & _ & H3 & _);
    [lia|vm_compute; discriminate|vm_compute; discriminate|cbn; lia
    |vm_compute; discriminate|].
  exists q, s', bl', fl'. split; [exact H1|]. split; [exact H2|exact H3].
Defined.

End ExplicitRealloc.

(** ** The implicit list: [mm_realloc] *)

Module ImplicitRealloc.
Import Implicit ImplicitSpec ImplicitProofs.

Lemma wpx_load_p m lo brk max f l p (Q : Z -> state -> Prop) :
  (lo <= p -> p + 8 <= max -> Q (rd m p) (St m lo brk max f l)) ->
  wpx false (lift (load64 p)) Q (St m lo brk max f l).
Proof.
  intros HQ. unfold wpx, lift, load64, in_arena. cbn [ar mem_lo mem_max mem].
  destruct (Z.leb_spec lo p); destruct (Z.leb_spec (p + 8) max); cbn [andb];
    try reflexivity. apply HQ; assumption.
Qed.

Lemma wpx_memcpy_p m lo brk max f l dst src n (Q : Z -> state -> Prop) :
  n <> 0 ->
  (lo <= src -> src + n <= max -> lo <= dst -> dst + n <= max ->
   Q dst (St (store_bytes m dst (load_bytes m src (Z.to_nat n))) lo brk max f l)) ->
  wpx false (lift (memcpy dst src n)) Q (St m lo brk max f l).
Proof.
  intros Hn HQ. unfold wpx, lift, memcpy, in_arena. cbn [ar mem_lo mem_max mem].
  replace (n =? 0) with false by (symmetry; apply Z.eqb_neq; exact Hn).
  destruct (Z.leb_spec lo src); destruct (Z.leb_spec (src + n) max);
    destruct (Z.leb_spec lo dst); destruct (Z.leb_spec (dst + n) max); cbn [andb];
    try reflexivity. apply HQ; assumption.
Qed.

(** X24.  [mm_realloc] (implicit list) keeps the data when it returns:
    in a heap that satisfies the invariant, for an allocated block with
    [sz - 8] payload bytes and a size [n > 0] whose block size does not
    overflow, a call [mm_realloc p n] that returns does not return
    [NULL], returns a 16-aligned pointer, and byte [i] of the new
    payload is byte [i] of the old payload as it was before the call,
    for every [i] below the old payload size and [n]. *)
Theorem imp_realloc_keeps_prefix (s : state) pre sz post fuel n q s' :
  let lo := mem_lo (ar s) in
  let p := lo + 8 + total pre + 8 in
  heap_inv s (pre ++ (sz, true) :: post) -> 0 < n -> n + 23 < W ->
  mm_realloc fuel p n s = Ok (q, s') ->
  q <> NULL /\ q mod 16 = 0 /\
  forall i, 0 <= i < sz - 8 -> i < n -> mem (ar s') (q + i) = mem (ar s) (p + i).
Proof.
  destruct s as [[m lo brk max] f l]. cbn [ar mem mem_lo].
  intros Hinv Hn0 Hn Hrun. set (p := lo + 8 + total pre + 8) in *.
  set (bl := pre ++ (sz, true) :: post) in *.
  pose proof Hinv as (Hlo & Hal & HW & Hbrk & Hbe & Hbl & _).
  cbn [ar mem mem_lo mem_brk mem_max] in Hlo, Hal, HW, Hbrk, Hbe, Hbl.
  pose proof Hbl as Hbl0. unfold bl in Hbl.
  apply blocks_at_app in Hbl. destruct Hbl as [Hbpre Hbrest].
  cbn [blocks_at] in Hbrest. destruct Hbrest as (Htag & Hsz16 & Hszm & Hbpost).
  pose proof (blocks_at_total _ _ _ Hbpre) as Htp.
  pose proof (blocks_at_total _ _ _ Hbpost) as Htq.
  assert (Hbet : total bl = total pre + sz + total post).
  { unfold bl. rewrite total_app. cbn [total]. lia. }
  assert (Hold : forall x, p - 8 <= x < p - 8 + sz -> in_allocated (lo + 8) bl x).
  { intros x Hx. unfold bl. apply in_allocated_app. right. cbn [in_allocated]. left.
    split; [reflexivity|unfold p in Hx; lia]. }
  assert (Hsz : n + 8 <= block_size_for n /\ 16 <= block_size_for n).
  { unfold block_size_for, sizeof_block_t, sizeof_size_t.
    rewrite wadd_small by lia. rewrite round_up_16 by lia. mlia. }
  destruct Hsz as [Hrsz H16].
  apply (wpx_partial false (mm_realloc fuel p n)
           (fun q1 s2 => q1 <> NULL /\ q1 mod 16 = 0 /\
              forall i, 0 <= i < sz - 8 -> i < n -> mem (ar s2) (q1 + i) = m (p + i))
           (St m lo brk max f l) q s'); [|exact Hrun].
  unfold mm_realloc.
  replace (p =? NULL) with false by (symmetry; apply Z.eqb_neq; unfold NULL, p; lia).
  replace (n =? 0) with false by (symmetry; apply Z.eqb_neq; lia).
  apply wpx_bind. eapply wpx_conseq.
  { apply (imp_malloc_spec false fuel n m lo brk max f l bl Hinv). discriminate. }
  cbv beta. intros q0 s1 (Hqal & Hres).
  unfold block_from_payload, sizeof_block_t, sizeof_size_t.
  rewrite (wsub_small p 8) by (unfold p; lia).
  assert (Hstep : forall m1 brk1 f1 l1,
    (forall x, in_allocated (lo + 8) bl x -> m1 x = m x) ->
    (q0 <> NULL ->
     forall x, q0 - 8 <= x < q0 - 8 + block_size_for n -> ~ in_allocated (lo + 8) bl x) ->
    wpx false
      (old_size <- get_size (p - 8) ;;
       lift (memcpy q0 p (if n <? old_size then n else old_size)) ;;
       mm_free p ;; ret q0)
      (fun q1 s2 => q1 <> NULL /\ q1 mod 16 = 0 /\
         forall i, 0 <= i < sz - 8 -> i < n -> mem (ar s2) (q1 + i) = m (p + i))
      (St m1 lo brk1 max f1 l1)).
  { intros m1 brk1 f1 l1 Hkeep Hfresh.
    assert (Hhd1 : rd m1 (p - 8) = tag sz true).
    { rewrite <- Htag. replace (lo + 8 + total pre) with (p - 8) by (unfold p; lia).
      apply rd_ext. intros x Hx. apply Hkeep, Hold. lia. }
    unfold get_size. apply wpx_bind. apply wpx_bind. apply wpx_load_p. intros _ _.
    apply wpx_ret. rewrite Hhd1. unfold tag. rewrite tag_size by (try lia; mlia).
    set (k := if n <? sz then n else sz).
    assert (Hk : 0 < k /\ k <= n /\ k <= sz /\ (k = n \/ k = sz)).
    { unfold k. destruct (Z.ltb_spec n sz); lia. }
    apply wpx_bind. apply wpx_memcpy_p; [lia|]. intros _ _ Hq1 Hq2.
    assert (Hqn : q0 <> NULL) by (unfold NULL; lia).
    specialize (Hfresh Hqn).
    assert (Hdisj : q0 + k <= p - 8 \/ p - 8 + sz <= q0).
    { destruct (Z_le_gt_dec (q0 + k) (p - 8)) as [H|H]; [left; exact H|].
      destruct (Z_le_gt_dec (p - 8 + sz) q0) as [H'|H']; [right; exact H'|].
      exfalso. apply (Hfresh (Z.max q0 (p - 8))); [lia|]. apply Hold. lia. }
    set (m2 := store_bytes m1 q0 (load_bytes m1 p (Z.to_nat k))).
    assert (Hlen : Z.of_nat (length (load_bytes m1 p (Z.to_nat k))) = k).
    { unfold load_bytes. rewrite length_map, length_seq. lia. }
    assert (Hhd2 : rd m2 (p - 8) = tag sz true).
    { rewrite <- Hhd1. unfold m2. apply rd_store_bytes_other. lia. }
    apply wpx_bind. unfold mm_free.
    replace (p =? NULL) with false by (symmetry; apply Z.eqb_neq; unfold NULL, p; lia).
    unfold block_from_payload, sizeof_block_t, sizeof_size_t.
    rewrite (wsub_small p 8) by (unfold p; lia).
    unfold get_size. apply wpx_bind. apply wpx_bind. apply wpx_load_p. intros _ _.
    apply wpx_ret. rewrite Hhd2. unfold tag at 1. rewrite tag_size by (try lia; mlia).
    unfold set_header. apply wpx_store_cases; [discriminate|]. intros _ _.
    apply wpx_ret. split; [exact Hqn|].
    split; [destruct Hqal as [E|E]; [contradiction|exact E]|].
    cbn [ar mem]. intros i Hi Hin.
    rewrite wr_out by lia. unfold m2.
    rewrite store_bytes_in by lia.
    replace (q0 + i - q0) with i by lia.
    unfold load_bytes.
    rewrite (nth_map_seq (fun j => m1 (p + Z.of_nat j)) (Z.to_nat k) (Z.to_nat i) 0)
      by lia.
    rewrite Z2Nat.id by lia. apply Hkeep, Hold. lia. }
  destruct (Hres H16) as [(-> & m1 & bl1 & -> & _ & [_ Hp2])
                         |(Hq & m1 & brk1 & f1 & l1 & bl1 & -> & _ & [_ Hp2] & Hnew)].
  - apply Hstep; [exact Hp2|]. intros E. exfalso. apply E. reflexivity.
  - apply Hstep; [exact Hp2|]. intros _ x Hx. apply (Hnew x Hx).
Qed.

Lemma imp_realloc_keeps_prefix_witness :
  heap_inv demo ([(16, false)] ++ (16, true) :: []) /\ 0 < 24 /\ 24 + 23 < W /\
  mm_realloc 8 (mem_lo (ar demo) + 8 + total [(16, false)] + 8) 24 demo
    = Ok (65584, after (mm_realloc 8 (mem_lo (ar demo) + 8 + total [(16, false)] + 8) 24)
                   demo) /\
  65584 <> NULL /\ 65584 mod 16 = 0.
Proof.
  assert (E : mm_realloc 8 (mem_lo (ar demo) + 8 + total [(16, false)] + 8) 24 demo
    = Ok (65584, after (mm_realloc 8 (mem_lo (ar demo) + 8 + total [(16, false)] + 8) 24)
                   demo)).
  { apply run_ok. vm_compute. reflexivity. }
  split; [exact imp_demo_inv|]. split; [lia|]. split; [reflexivity|]. split; [exact E|].
  destruct (imp_realloc_keeps_prefix demo [(16, false)] 16 [] 8 24 65584 _ imp_demo_inv
              ltac:(lia) eq_refl E) as (H1 & H2 & _).
  split; [exact H1|exact H2].
Defined.

End ImplicitRealloc.
